(** * MuST-C data preparation: a shallow embedding of
      [examples/speech_to_text/prep_mustc_data_v2.py]

    The development follows the script top-down:

    - [PyFloat]: the double-precision arithmetic the script relies on
      ([float(str)], [int / int], [float * int], [int + float], [int(float)]);
    - [PyStr], [PyPath], [PyIter]: the library functions used on strings, paths
      and sequences ([str.strip], [str.startswith], [Path.stem], [sorted],
      [itertools.groupby], [set]);
    - [Mustc]: the class [MUSTC] (constructor, [__getitem__], iteration);
    - [Prep]: the function [process].

    Effects are threaded through a state-and-exception monad: the state holds
    the files under the output directory and the chronological list of the
    calls that touch the outside world. *)

From Stdlib Require Import ZArith QArith Qround Qpower Qabs Lia Lqa.
From Stdlib Require Import String Ascii List Permutation Sorted.
From stdpp Require Import base option list gmap strings pretty.

#[local] Unset Default Proof Using.
#[local] Set Warnings "-clear-no-such-hyp".
#[local] Set Warnings "-notation-for-abbreviation".
Local Close Scope Q_scope.

(* ===================================================================== *)
(** * Double-precision floats *)
(* ===================================================================== *)

(** A finite double is modelled by the rational number it denotes, and every
    operation by the exact result rounded to 53 significant bits, ties to
    even, which is how IEEE 754 defines [+], [*], [/] and how CPython converts
    decimal text and integer quotients.  The exponent range is not modelled:
    seconds, sample counts and milliseconds are far from the overflow and
    subnormal thresholds of binary64. *)
Module PyFloat.

Local Open Scope Q_scope.

Definition float := Q.

Definition two_pow (e : Z) : Q := 2 ^ e.

(** Nearest integer, ties to even. *)
Definition rne (y : Q) : Z :=
  let f := Qfloor y in
  match Qcompare (y - inject_Z f) (1 # 2) with
  | Lt => f
  | Gt => (f + 1)%Z
  | Eq => if Z.even f then f else (f + 1)%Z
  end.

(** For [x > 0], the exponent [e] with [2^e <= x < 2^(e+1)]. *)
Definition ilog2 (x : Q) : Z :=
  let e0 := (Z.log2 (Qnum x) - Z.log2 (Zpos (Qden x)))%Z in
  if Qle_bool (two_pow e0) x then e0 else (e0 - 1)%Z.

Definition round_pos (x : Q) : Q :=
  let e := ilog2 x in
  inject_Z (rne (x * two_pow (52 - e))) * two_pow (e - 52).

(** Round to nearest double, ties to even. *)
Definition round53 (x : Q) : float :=
  match Qcompare x 0 with
  | Eq => 0
  | Gt => Qred (round_pos x)
  | Lt => Qred (- round_pos (- x))
  end.

(** Implicit [int -> float] conversion of an operand. *)
Definition of_int (n : Z) : float := round53 (inject_Z n).

(** [a * b] and [a + b] on floats. *)
Definition mul (a b : float) : float := round53 (a * b).
Definition add (a b : float) : float := round53 (a + b).

(** [a / b] on two Python ints: the correctly rounded quotient;
    [None] is [ZeroDivisionError]. *)
Definition truediv (a b : Z) : float := round53 (inject_Z a / inject_Z b).
Definition int_truediv (a b : Z) : option float :=
  if (b =? 0)%Z then None else Some (truediv a b).

(** [int(x)]: truncation toward zero. *)
Definition to_int (x : float) : Z := Z.quot (Qnum x) (Zpos (Qden x)).

(** ** [float(str)] on plain decimal text

    The grammar covered is [sign? digits? ('.' digits?)?] with at least one
    digit, the notation of the MuST-C alignment files.  Exponents,
    underscores, [inf]/[nan] and surrounding blanks, which Python also
    accepts, are outside the model; [None] stands for [ValueError]. *)

Definition digit_of (c : ascii) : option Z :=
  let n := Z.of_nat (nat_of_ascii c) in
  if ((48 <=? n) && (n <=? 57))%Z then Some (n - 48)%Z else None.

(** Value of a possibly empty digit string, most significant digit first. *)
Fixpoint digits_value (acc : Z) (s : string) : option Z :=
  match s with
  | EmptyString => Some acc
  | String c s' =>
      match digit_of c with
      | Some d => digits_value (10 * acc + d)%Z s'
      | None => None
      end
  end.

(** Split at the first ['.']. *)
Fixpoint split_dot (s : string) : string * option string :=
  match s with
  | EmptyString => (EmptyString, None)
  | String c s' =>
      if Ascii.eqb c "."%char then (EmptyString, Some s')
      else let '(a, b) := split_dot s' in (String c a, b)
  end.

Definition unsigned_decimal (s : string) : option Q :=
  let '(ip, fp) := split_dot s in
  let fp := default EmptyString fp in
  if (String.length ip + String.length fp =? 0)%nat then None
  else
    match digits_value 0 ip, digits_value 0 fp with
    | Some i, Some f =>
        let scale := (10 ^ Z.of_nat (String.length fp))%Z in
        Some (Qred (inject_Z (i * scale + f) / inject_Z scale))
    | _, _ => None
    end.

(** The exact rational written by a decimal literal. *)
Definition decimal (s : string) : option Q :=
  match s with
  | String "-"%char s' => Qopp <$> unsigned_decimal s'
  | String "+"%char s' => unsigned_decimal s'
  | _ => unsigned_decimal s
  end.

(** [float(s)]. *)
Definition of_str (s : string) : option float := round53 <$> decimal s.

End PyFloat.

(* ===================================================================== *)
(** * Strings, paths and sequences *)
(* ===================================================================== *)

Module PyStr.

(** [a < b] on [str] compares code points lexicographically; on UTF-8
    bytes that is the byte-wise lexicographic order. *)
Definition lt (a b : string) : bool := String.ltb a b.

(** The ASCII characters [str.strip()] removes. *)
Definition is_space (c : ascii) : bool :=
  let n := nat_of_ascii c in
  ((9 <=? n) && (n <=? 13) || (28 <=? n) && (n <=? 32))%nat.

Fixpoint lstrip (s : string) : string :=
  match s with
  | String c s' => if is_space c then lstrip s' else s
  | EmptyString => EmptyString
  end.

(** [s.strip()]. *)
Definition strip (s : string) : string :=
  String.rev (lstrip (String.rev (lstrip s))).

(** [s.startswith(p)]. *)
Definition startswith (s p : string) : bool := String.prefix p s.

End PyStr.

(** [pathlib] on POSIX paths kept as text.  Joining is modelled for relative
    right operands without redundant separators, which is what the script
    builds; [name] and [stem] follow [PurePath.name] and [PurePath.stem]. *)
Module PyPath.

Definition join (a b : string) : string := a +:+ "/" +:+ b.

(** The text before the first occurrence of [c]. *)
Fixpoint before (c : ascii) (s : string) : string :=
  match s with
  | EmptyString => EmptyString
  | String d s' => if Ascii.eqb d c then EmptyString else String d (before c s')
  end.

(** [Path(p).name]: the final component. *)
Definition name (p : string) : string :=
  String.rev (before "/"%char (String.rev p)).

(** [Path(p).stem]: with [i = name.rfind('.')], the stem is [name[:i]] when
    [0 < i < len(name) - 1] and the whole name otherwise. *)
Definition stem (p : string) : string :=
  let n := name p in
  let len := String.length n in
  let j := String.length (before "."%char (String.rev n)) in
  (* [j] characters follow the last dot; without a dot [j = len] *)
  if (j <? len)%nat && (0 <? j)%nat && (0 <? len - 1 - j)%nat
  then String.substring 0 (len - 1 - j) n
  else n.

End PyPath.

Infix "</>" := PyPath.join (at level 50, left associativity).

Module PyIter.

Section Generic.
Context {A : Type}.

(** [itertools.groupby(l, key)]: one group per maximal run of adjacent
    elements with equal keys, in order of appearance. *)
Fixpoint groupby (key : A → string) (l : list A) : list (string * list A) :=
  match l with
  | [] => []
  | x :: l' =>
      match groupby key l' with
      | (k, g) :: rest =>
          if decide (key x = k) then (k, x :: g) :: rest
          else (key x, [x]) :: (k, g) :: rest
      | [] => [(key x, [x])]
      end
  end.

(** [sorted(l, key=key)] for string keys.  Python's sort is stable and
    compares keys with [<] only; insertion from the right, each element
    placed before the first one that is not smaller, computes the
    stable arrangement. *)
Fixpoint insert_sorted (key : A → string) (x : A) (l : list A) : list A :=
  match l with
  | [] => [x]
  | y :: l' =>
      if PyStr.lt (key y) (key x) then y :: insert_sorted key x l'
      else x :: y :: l'
  end.

Fixpoint sorted (key : A → string) (l : list A) : list A :=
  match l with
  | [] => []
  | x :: l' => insert_sorted key x (sorted key l')
  end.

(** [enumerate(l)]. *)
Definition enumerate (l : list A) : list (nat * A) := imap (λ i x, (i, x)) l.

(** The distinct elements of [l] in order of first occurrence: the
    insertions that change a [set] being built from [l]. *)
Fixpoint distinct_go `{EqDecision A} (seen : list A) (l : list A) : list A :=
  match l with
  | [] => []
  | x :: l' =>
      if decide (x ∈ seen) then distinct_go seen l'
      else x :: distinct_go (x :: seen) l'
  end.

Definition distinct `{EqDecision A} (l : list A) : list A := distinct_go [] l.

End Generic.

End PyIter.

(* ===================================================================== *)
(** * Data model *)
(* ===================================================================== *)

(** One record of the alignment file as [yaml.BaseLoader] returns it: every
    scalar stays text. *)
Record yaml_segment := YamlSegment {
  y_wav : string;
  y_offset : string;
  y_duration : string;
  y_speaker_id : string;
}.

(** A segment dict once the two transcript lines are merged into it under
    the keys ["en"] and [lang]. *)
Record segment := Segment {
  wav : string;
  offset : string;
  duration : string;
  speaker_id : string;
  en : string;
  tgt : string;
}.

(** An entry of [MUSTC.data]. *)
Record item := Item {
  i_wav_path : string;
  i_offset : Z;
  i_n_frames : Z;
  i_sample_rate : Z;
  i_src_utt : string;
  i_tgt_utt : string;
  i_spk_id : string;
  i_utt_id : string;
}.

Inductive task := asr | st.
Inductive vocab_type := bpe | unigram | char.
Inductive cmvn_type := cmvn_global | cmvn_utterance.

Global Instance task_eq_dec : EqDecision task.
Proof. solve_decision. Defined.
Global Instance vocab_type_eq_dec : EqDecision vocab_type.
Proof. solve_decision. Defined.
Global Instance cmvn_type_eq_dec : EqDecision cmvn_type.
Proof. solve_decision. Defined.

Definition task_name (t : task) : string :=
  match t with asr => "asr" | st => "st" end.
Definition vocab_type_name (v : vocab_type) : string :=
  match v with bpe => "bpe" | unigram => "unigram" | char => "char" end.
Definition cmvn_type_name (c : cmvn_type) : string :=
  match c with cmvn_global => "global" | cmvn_utterance => "utterance" end.

(** The namespace [argparse] hands to [process]; the [choices] of the parser
    are the constructors of [task], [vocab_type] and [cmvn_type]. *)
Record Args := MkArgs {
  a_data_root : string;
  a_output : option string;
  a_vocab_type : vocab_type;
  a_vocab_size : Z;
  a_vocab_size_asr : Z;
  a_vocab_size_st : Z;
  a_task : list task;
  a_lang : list string;
  a_cmvn_type : cmvn_type;
  a_gcmvn_max_num : Z;
}.

(** A row of a manifest data frame, columns [MANIFEST_COLUMNS]. *)
Record manifest_row := Row {
  r_id : string;
  r_audio : string;
  r_n_frames : Z;
  r_tgt_text : string;
  r_speaker : string;
}.

(** The dict of column lists filled during manifest generation. *)
Record manifest := Manifest {
  m_id : list string;
  m_audio : list string;
  m_n_frames : list Z;
  m_tgt_text : list string;
  m_speaker : list string;
}.

Inductive exn :=
| AssertionError
| FileNotFoundError (path : string)
| SoundFileError (path : string)
| ValueError (text : string)
| ZeroDivisionError
| KeyError (key : string)
| BadZipFile (path : string)
| ExtractionError
| StatsError.

Inductive result (A : Type) :=
| Ok (a : A)
| Raise (e : exn).
Arguments Ok {A} a.
Arguments Raise {A} e.

(** Calls that reach outside the interpreter, in the order they happen. *)
Inductive event :=
| EIsDir (path : string)
| EExists (path : string)
| EOpen (path : string)
| ESfInfo (path : string)
| EGetWaveform (path : string) (frames start : Z)
| EExtractFbank (sample_rate : Z)
| ENpSave (path : string)
| ECalGcmvnStats (sample_size : nat)
| ENpSavez (path : string)
| ECreateZip (src dst : string)
| EGetZipManifest (path : string)
| ESaveTsv (path : string)
| EGenVocab (prefix : string) (model_type : vocab_type) (size : Z)
| EGenConfigYaml (path : string)
| EPrint (msg : string).

Global Instance event_eq_dec : EqDecision event.
Proof. solve_decision. Defined.

(* ===================================================================== *)
(** * Sample and frame arithmetic *)
(* ===================================================================== *)

(** [int(float(text) * sample_rate)], lines 79 and 80. *)
Definition seconds_to_samples (text : string) (sample_rate : Z) : option Z :=
  x ← PyFloat.of_str text;
  Some (PyFloat.to_int (PyFloat.mul x (PyFloat.of_int sample_rate))).

(** [int(wav.size(1) / sr * 1000)], line 172. *)
Definition duration_ms (size1 sr : Z) : option Z :=
  q ← PyFloat.int_truediv size1 sr;
  Some (PyFloat.to_int (PyFloat.mul q (PyFloat.of_int 1000))).

(** [int(1 + (duration_ms - 25) / 10)], line 173. *)
Definition n_frames_of_ms (duration_ms : Z) : Z :=
  PyFloat.to_int
    (PyFloat.add (PyFloat.of_int 1) (PyFloat.truediv (duration_ms - 25) 10)).

(* ===================================================================== *)
(** * The outside world and the effect monad *)
(* ===================================================================== *)

Section Pipeline.

(** Decoded audio, filter-bank arrays and mean/variance statistics are
    produced and consumed by external numeric code only. *)
Context {Waveform Features Stats : Type}.

(** What a file under the output directory holds. *)
Inductive artifact :=
| AZip (members : gmap string Features)
| ANpz (stats : Stats)
| ATsv (rows : list manifest_row)
| ASpm (train_text : list string) (model_type : vocab_type) (size : Z)
| AConfig (spm_filename : string) (cmvn : cmvn_type)
          (gcmvn_path : option string) (specaugment_policy : string).

(** The mutable part of the world: written files, and the log of calls. *)
Record state := State {
  files : gmap string artifact;
  trace : list event;
}.

(** The part of the world the script only reads, and the external
    routines it calls.  [None] results are failures of the call. *)
Record World := MkWorld {
  w_absolute : string → string;                           (* Path.absolute *)
  w_is_dir : string → bool;                               (* Path.is_dir *)
  w_yaml : string → option (list yaml_segment);           (* open + yaml.load *)
  w_lines : string → option (list string);                (* open + iterate lines *)
  w_samplerate : string → option Z;                       (* sf.info(p).samplerate *)
  w_get_waveform : string → Z → Z → option Waveform;      (* path, frames, start *)
  w_size1 : Waveform → Z;                                 (* waveform.size(1) *)
  w_tmpdir : string;                                      (* TemporaryDirectory() *)
  w_extract_fbank_features : Waveform → Z → option Features;
  w_cal_gcmvn_stats : list Features → option Stats;
  w_zip_index : string → gmap string Features → gmap string string;
  (* iteration order of a set built from the given distinct elements *)
  w_lang_order : list string → list string;
  w_task_order : list task → list task;
  (* thresholds of the manifest length filter *)
  w_min_n_frames : Z;
  w_max_n_frames : Z;
  w_ratio_excessive : Z → nat → bool;                     (* frames, characters *)
}.

(** A set lists each of its elements once, in an order of its own. *)
Definition set_order_ok {A} (order : list A → list A) : Prop :=
  ∀ l, NoDup l → Permutation (order l) l.

Definition world_ok (w : World) : Prop :=
  set_order_ok (w_lang_order w) ∧ set_order_ok (w_task_order w).

Definition M (A : Type) : Type := state → result A * state.

Global Instance M_ret : MRet M := λ A a s, (Ok a, s).
Global Instance M_bind : MBind M := λ A B f m s,
  match m s with
  | (Ok a, s') => f a s'
  | (Raise e, s') => (Raise e, s')
  end.

Definition raise {A} (e : exn) : M A := λ s, (Raise e, s).

Definition emit (e : event) : M unit :=
  λ s, (Ok tt, State (files s) (trace s ++ [e])).

Definition write_file (p : string) (a : artifact) : M unit :=
  λ s, (Ok tt, State (<[p := a]> (files s)) (trace s)).

Definition read_file (p : string) : M (option artifact) :=
  λ s, (Ok (files s !! p), s).

Definition lift_opt {A} (o : option A) (e : exn) : M A :=
  match o with Some a => mret a | None => raise e end.

(** [assert b]. *)
Definition assert_ (b : bool) : M unit :=
  if b then mret tt else raise AssertionError.

(** [b and m]: the right operand is evaluated only when the left holds. *)
Definition and_then (b : bool) (m : M bool) : M bool :=
  if b then m else mret false.

(** [for x in l: s = body(s, x)], the loop-carried locals in [s]. *)
Fixpoint foldM {A S} (body : S → A → M S) (s0 : S) (l : list A) : M S :=
  match l with
  | [] => mret s0
  | x :: l' => s1 ← body s0 x; foldM body s1 l'
  end.

(** [for x in l: body(x)]. *)
Definition forM_ {A} (l : list A) (body : A → M unit) : M unit :=
  foldM (λ _ x, body x) tt l.

Variable w : World.

Definition print (msg : string) : M unit := emit (EPrint msg).

Definition is_dir (p : string) : M bool :=
  emit (EIsDir p);; mret (w_is_dir w p).

Definition path_exists (p : string) : M bool :=
  emit (EExists p);; f ← read_file p; mret (bool_decide (is_Some f)).

Definition open_yaml (p : string) : M (list yaml_segment) :=
  emit (EOpen p);; lift_opt (w_yaml w p) (FileNotFoundError p).

Definition open_lines (p : string) : M (list string) :=
  emit (EOpen p);; lift_opt (w_lines w p) (FileNotFoundError p).

Definition sf_info_samplerate (p : string) : M Z :=
  emit (ESfInfo p);; lift_opt (w_samplerate w p) (SoundFileError p).

Definition get_waveform (p : string) (frames start : Z) : M Waveform :=
  emit (EGetWaveform p frames start);;
  lift_opt (w_get_waveform w p frames start) (SoundFileError p).

(** [set(l)] as an iterable. *)
Definition set_langs (l : list string) : list string :=
  w_lang_order w (PyIter.distinct l).
Definition set_tasks (l : list task) : list task :=
  w_task_order w (PyIter.distinct l).

(* =================================================================== *)
(** * class MUSTC *)
(* =================================================================== *)

Definition SPLITS : list string := ["train"; "dev"; "tst-COMMON"; "tst-HE"].
Definition LANGUAGES : list string := ["de"; "ja"; "zh"].

(** The body of [for i, segment in enumerate(seg_group)]. *)
Definition gather_segment (wav_path : string) (sample_rate : Z)
    (data : list item) (ix : nat * segment) : M (list item) :=
  let '(i, sg) := ix in
  offset_ ← lift_opt (seconds_to_samples (offset sg) sample_rate)
                     (ValueError (offset sg));
  n_frames ← lift_opt (seconds_to_samples (duration sg) sample_rate)
                      (ValueError (duration sg));
  let _id := PyPath.stem wav_path +:+ "_" +:+ pretty i in
  mret (data ++ [Item wav_path offset_ n_frames sample_rate
                      (en sg) (tgt sg) (speaker_id sg) _id]).

(** The body of [for wav_filename, _seg_group in groupby(...)]. *)
Definition gather_group (wav_root : string)
    (data : list item) (kg : string * list segment) : M (list item) :=
  let '(wav_filename, _seg_group) := kg in
  let wav_path := wav_root </> wav_filename in
  sample_rate ← sf_info_samplerate wav_path;
  let seg_group := PyIter.sorted offset _seg_group in
  foldM (gather_segment wav_path sample_rate) data (PyIter.enumerate seg_group).

(** [MUSTC.__init__]; the result is [self.data]. *)
Definition MUSTC_init (root lang split : string) : M (list item) :=
  assert_ (bool_decide (split ∈ SPLITS) && bool_decide (lang ∈ LANGUAGES));;
  let _root := root </> ("en-" +:+ lang) </> "data" </> split in
  let wav_root := _root </> "wav" in
  let txt_root := _root </> "txt" in
  d1 ← is_dir _root;
  d2 ← and_then d1 (is_dir wav_root);
  d3 ← and_then d2 (is_dir txt_root);
  assert_ d3;;
  segments ← open_yaml (txt_root </> (split +:+ ".yaml"));
  (* for _lang in ["en", lang] *)
  lines_en ← open_lines (txt_root </> (split +:+ ".en"));
  let utterances_en := PyStr.strip <$> lines_en in
  assert_ (length segments =? length utterances_en)%nat;;
  lines_tgt ← open_lines (txt_root </> (split +:+ "." +:+ lang));
  let utterances_tgt := PyStr.strip <$> lines_tgt in
  assert_ (length segments =? length utterances_tgt)%nat;;
  let segments :=
    zip_with (λ '(y, e) t,
                Segment (y_wav y) (y_offset y) (y_duration y) (y_speaker_id y) e t)
             (zip segments utterances_en) utterances_tgt in
  foldM (gather_group wav_root) [] (PyIter.groupby wav segments).

(** [MUSTC.__getitem__] on the entry [self.data[n]]. *)
Definition MUSTC_getitem (it : item)
    : M (Waveform * Z * string * string * string * string) :=
  waveform ← get_waveform (i_wav_path it) (i_n_frames it) (i_offset it);
  mret (waveform, i_sample_rate it, i_src_utt it, i_tgt_utt it,
        i_spk_id it, i_utt_id it).

(** [for x in tqdm(dataset): s = body(s, x)]: the sequence protocol calls
    [__getitem__] with 0, 1, ... until [IndexError]. *)
Definition for_dataset {S}
    (body : S → Waveform * Z * string * string * string * string → M S)
    (s0 : S) (data : list item) : M S :=
  foldM (λ s it, x ← MUSTC_getitem it; body s x) s0 data.

(* =================================================================== *)
(** * Helpers imported from [data_utils.py] *)
(* =================================================================== *)

(** Modelled from the spec: [extract_fbank_features] is not among the
    sources; it is a pure function of the waveform window and the sample
    rate that either yields a feature array or fails. *)
Definition extract_fbank_features (waveform : Waveform) (sample_rate : Z)
    : M Features :=
  emit (EExtractFbank sample_rate);;
  lift_opt (w_extract_fbank_features w waveform sample_rate) ExtractionError.

(** Modelled from the spec: [cal_gcmvn_stats] is not among the sources; it
    finalizes mean and standard deviation over the collected arrays. *)
Definition cal_gcmvn_stats (features_list : list Features) : M Stats :=
  emit (ECalGcmvnStats (length features_list));;
  lift_opt (w_cal_gcmvn_stats w features_list) StatsError.

(** Modelled from the spec: [create_zip] is not among the sources; it packs
    every array file of the feature directory into one archive. *)
Definition create_zip (feature_root : string) (dir : gmap string Features)
    (zip_path : string) : M unit :=
  emit (ECreateZip feature_root zip_path);;
  write_file zip_path (AZip dir).

(** Modelled from the spec: [get_zip_manifest] is not among the sources; it
    reads the sealed archive back and maps each utterance id to its
    pointer text. *)
Definition get_zip_manifest (zip_path : string) : M (gmap string string) :=
  emit (EGetZipManifest zip_path);;
  f ← read_file zip_path;
  match f with
  | Some (AZip members) => mret (w_zip_index w zip_path members)
  | Some _ => raise (BadZipFile zip_path)
  | None => raise (FileNotFoundError zip_path)
  end.

(** Modelled from the spec: [filter_manifest_df] is not among the sources;
    rows with a frame count outside the configured band, or with an
    excessive frames-to-characters ratio, are dropped, for the training
    split only. *)
Definition out_of_band (r : manifest_row) : bool :=
  ((r_n_frames r <? w_min_n_frames w) || (w_max_n_frames w <? r_n_frames r))%Z.

Definition ratio_too_high (r : manifest_row) : bool :=
  w_ratio_excessive w (r_n_frames r) (String.length (r_tgt_text r)).

Definition fails_length_filter (r : manifest_row) : bool :=
  out_of_band r || ratio_too_high r.

Definition filter_manifest_df (df : list manifest_row) (is_train_split : bool)
    : list manifest_row :=
  if is_train_split then List.filter (λ r, negb (fails_length_filter r)) df
  else df.

(** Modelled from the spec: [save_df_to_tsv] is not among the sources; it
    writes the data frame as one manifest file. *)
Definition save_df_to_tsv (df : list manifest_row) (path : string) : M unit :=
  emit (ESaveTsv path);;
  write_file path (ATsv df).

(** Modelled from the spec: [gen_vocab] is not among the sources; it trains
    the subword model on the given lines and writes the model file. *)
Definition gen_vocab (train_text : list string) (output_path_prefix : string)
    (model_type : vocab_type) (vocab_size : Z) : M unit :=
  emit (EGenVocab output_path_prefix model_type vocab_size);;
  write_file (output_path_prefix +:+ ".model")
             (ASpm train_text model_type vocab_size).

(** Modelled from the spec: [gen_config_yaml] is not among the sources; it
    writes the configuration descriptor. *)
Definition gen_config_yaml (manifest_root spm_filename yaml_filename : string)
    (specaugment_policy : string) (cmvn : cmvn_type)
    (gcmvn_path : option string) : M unit :=
  emit (EGenConfigYaml (manifest_root </> yaml_filename));;
  write_file (manifest_root </> yaml_filename)
             (AConfig spm_filename cmvn gcmvn_path specaugment_policy).

(** [np.save(path, features)] into the temporary feature directory, kept as
    the map from file name to array. *)
Definition np_save (dir : gmap string Features) (feature_root name : string)
    (features : Features) : M (gmap string Features) :=
  emit (ENpSave (feature_root </> name));;
  mret (<[name := features]> dir).

(** [np.savez(f, mean=..., std=...)] on [open(path, "wb")]. *)
Definition np_savez (path : string) (stats : Stats) : M unit :=
  emit (ENpSavez path);;
  write_file path (ANpz stats).

(* =================================================================== *)
(** * process *)
(* =================================================================== *)

(** [pd.DataFrame.from_dict(manifest)]: the columns side by side. *)
Definition from_dict (m : manifest) : list manifest_row :=
  zip_with (λ '(i, a, n, t) s, Row i a n t s)
           (zip (zip (zip (m_id m) (m_audio m)) (m_n_frames m)) (m_tgt_text m))
           (m_speaker m).

(** Lines 134 to 143: the body of the extraction loop.  [g] is
    [split == 'train' and args.cmvn_type == "global"]. *)
Definition extract_item (g : bool) (gcmvn_max_num : Z) (feature_root : string)
    (acc : gmap string Features * list Features)
    (x : Waveform * Z * string * string * string * string)
    : M (gmap string Features * list Features) :=
  let '(waveform, sample_rate, _, _, _, utt_id) := x in
  let '(dir, gcmvn_feature_list) := acc in
  features ← extract_fbank_features waveform sample_rate;
  dir ← np_save dir feature_root (utt_id +:+ ".npy") features;
  mret (dir,
        if g && (Z.of_nat (length gcmvn_feature_list) <? gcmvn_max_num)%Z
        then gcmvn_feature_list ++ [features]
        else gcmvn_feature_list).

(** Lines 126 to 149: the body of [for split in MUSTC.SPLITS]. *)
Definition extract_split (args : Args) (root lang output_root feature_root : string)
    (dir : gmap string Features) (split : string) : M (gmap string Features) :=
  print ("Fetching split " +:+ split +:+ "...");;
  dataset ← MUSTC_init root lang split;
  print "Extracting log mel filter bank features...";;
  let g := bool_decide (split = "train")
           && bool_decide (a_cmvn_type args = cmvn_global) in
  (if g then print "And estimating cepstral mean and variance stats..."
   else mret tt);;
  '(dir, gcmvn_feature_list) ←
    for_dataset (extract_item g (a_gcmvn_max_num args) feature_root)
                (dir, []) dataset;
  (if g then
     stats ← cal_gcmvn_stats gcmvn_feature_list;
     np_savez (output_root </> "gcmvn.npz") stats
   else mret tt);;
  mret dir.

(** Lines 170 to 176: the body of the manifest loop. *)
Definition manifest_item (zip_manifest : gmap string string)
    (acc : manifest * list string * list string)
    (x : Waveform * Z * string * string * string * string)
    : M (manifest * list string * list string) :=
  let '(wav, sr, src_utt, tgt_utt, speaker_id, utt_id) := x in
  let '(m, src_utts, tgt_utts) := acc in
  audio ← lift_opt (zip_manifest !! utt_id) (KeyError utt_id);
  ms ← lift_opt (duration_ms (w_size1 w wav) sr) ZeroDivisionError;
  mret (Manifest (m_id m ++ [utt_id]) (m_audio m ++ [audio])
                 (m_n_frames m ++ [n_frames_of_ms ms]) (m_tgt_text m)
                 (m_speaker m ++ [speaker_id]),
        src_utts ++ [src_utt], tgt_utts ++ [tgt_utt]).

(** Lines 182 to 185: the body of [for task in set(args.task)]. *)
Definition write_manifest (output_root split : string) (is_train_split : bool)
    (m : manifest) (src_utts tgt_utts : list string) (t : task) : M unit :=
  let m := Manifest (m_id m) (m_audio m) (m_n_frames m)
                    (match t with asr => src_utts | st => tgt_utts end)
                    (m_speaker m) in
  let df := from_dict m in
  let df := filter_manifest_df df is_train_split in
  save_df_to_tsv df (output_root </> (split +:+ "_" +:+ task_name t +:+ ".tsv")).

(** Lines 164 to 185: the body of the second [for split in MUSTC.SPLITS]. *)
Definition manifest_split (args : Args) (lang output_root : string)
    (zip_manifest : gmap string string)
    (texts : list string * list string) (split : string)
    : M (list string * list string) :=
  let '(train_text_asr, train_text_st) := texts in
  let is_train_split := PyStr.startswith split "train" in
  dataset ← MUSTC_init (a_data_root args) lang split;
  '(m, src_utts, tgt_utts) ←
    for_dataset (manifest_item zip_manifest)
                (Manifest [] [] [] [] [], [], []) dataset;
  let texts :=
    if is_train_split
    then (train_text_asr ++ src_utts, train_text_st ++ tgt_utts)
    else texts in
  forM_ (set_tasks (a_task args))
        (write_manifest output_root split is_train_split m src_utts tgt_utts);;
  mret texts.

(** Lines 188 to 218: the body of the vocabulary loop. *)
Definition vocab_task (args : Args) (output_root : string)
    (train_text_asr train_text_st : list string) (t : task) : M unit :=
  let vocab_size := a_vocab_size args in
  let '(train_text, vocab_size) :=
    match t with
    | asr => (train_text_asr,
              if (0 <? a_vocab_size_asr args)%Z then a_vocab_size_asr args
              else vocab_size)
    | st => (train_text_st,
             if (0 <? a_vocab_size_st args)%Z then a_vocab_size_st args
             else vocab_size)
    end in
  let v_size_str :=
    if decide (a_vocab_type args = char) then "" else pretty vocab_size in
  let spm_filename_prefix :=
    "spm_" +:+ vocab_type_name (a_vocab_type args) +:+ v_size_str
           +:+ "_" +:+ task_name t in
  gen_vocab train_text (output_root </> spm_filename_prefix)
            (a_vocab_type args) vocab_size;;
  gen_config_yaml output_root (spm_filename_prefix +:+ ".model")
                  ("config_" +:+ task_name t +:+ ".yaml") "lb"
                  (a_cmvn_type args)
                  (if decide (a_cmvn_type args = cmvn_global)
                   then Some (output_root </> "gcmvn.npz") else None).

(** Lines 108 to 218: the body of [for lang in set(args.lang)]. *)
Definition process_lang (args : Args) (root lang : string) : M unit :=
  let cur_root := root </> ("en-" +:+ lang) in
  d ← is_dir cur_root;
  if negb d then print (cur_root +:+ " does not exist. Skipped.")
  else
    let output_root :=
      match a_output args with
      | None => cur_root
      | Some o => w_absolute w o </> ("en-" +:+ lang)
      end in
    let zip_path := output_root </> "fbank80.zip" in
    present ← path_exists zip_path;
    (if negb present then
       let feature_root := w_absolute w (w_tmpdir w) </> "fbank80" in
       dir ← foldM (extract_split args root lang output_root feature_root)
                   ∅ SPLITS;
       print "ZIPing features...";;
       create_zip feature_root dir zip_path
     else mret tt);;
    print "Fetching ZIP manifest...";;
    zip_manifest ← get_zip_manifest zip_path;
    print "Generating manifest...";;
    '(train_text_asr, train_text_st) ←
      foldM (manifest_split args lang output_root zip_manifest) ([], []) SPLITS;
    forM_ (set_tasks (a_task args))
          (vocab_task args output_root train_text_asr train_text_st).

(** [process(args)]. *)
Definition process (args : Args) : M unit :=
  let root := w_absolute w (a_data_root args) in
  forM_ (set_langs (a_lang args)) (process_lang args root).

End Pipeline.

(* ===================================================================== *)
(** * Vocabulary of the statements *)
(* ===================================================================== *)

(** The state after the given calls are appended to the log. *)
Definition log {Features Stats : Type} (evs : list event)
    (st : @state Features Stats) : @state Features Stats :=
  State (files st) (trace st ++ evs).

(** The argument namespace with every repeated language and task dropped. *)
Definition without_duplicates (args : Args) : Args :=
  MkArgs (a_data_root args) (a_output args) (a_vocab_type args)
         (a_vocab_size args) (a_vocab_size_asr args) (a_vocab_size_st args)
         (PyIter.distinct (a_task args)) (PyIter.distinct (a_lang args))
         (a_cmvn_type args) (a_gcmvn_max_num args).

(** [output_root] and [zip_path] of lines 113 to 118. *)
Definition output_root_of {Waveform Features Stats : Type}
    (w : @World Waveform Features Stats) (args : Args) (root lang : string)
    : string :=
  match a_output args with
  | None => root </> ("en-" +:+ lang)
  | Some o => w_absolute w o </> ("en-" +:+ lang)
  end.

Definition zip_path_of {Waveform Features Stats : Type}
    (w : @World Waveform Features Stats) (args : Args) (root lang : string)
    : string :=
  output_root_of w args root lang </> "fbank80.zip".

(** The calls that only feature extraction and packing make. *)
Definition extraction_event (e : event) : bool :=
  match e with
  | EExtractFbank _ | ENpSave _ | ECalGcmvnStats _ | ENpSavez _
  | ECreateZip _ _ => true
  | _ => false
  end.

(** A computation that, from any state and whatever its outcome, only adds
    calls outside feature extraction to the log and leaves the file at
    [keep] as it is. *)
Definition quiet {Features Stats A : Type} (keep : string)
    (m : @M Features Stats A) : Prop :=
  ∀ st, ∃ d,
    trace (snd (m st)) = trace st ++ d
    ∧ Forall (λ e, extraction_event e = false) d
    ∧ files (snd (m st)) !! keep = files st !! keep.

(** The feature arrays a dataset yields, in traversal order: every entry is
    decoded and handed to feature extraction.  [None] when some window
    cannot be decoded or extracted. *)
Definition dataset_features {Waveform Features Stats : Type}
    (w : @World Waveform Features Stats) (data : list item)
    : option (list Features) :=
  mapM (λ it,
          wv ← w_get_waveform w (i_wav_path it) (i_n_frames it) (i_offset it);
          w_extract_fbank_features w wv (i_sample_rate it))
       data.

(** The calls of one pass through the extraction loop. *)
Definition extract_events (feature_root : string) (it : item) : list event :=
  [EGetWaveform (i_wav_path it) (i_n_frames it) (i_offset it);
   EExtractFbank (i_sample_rate it);
   ENpSave (feature_root </> (i_utt_id it +:+ ".npy"))].

(** The feature directory after the arrays of [data] are saved into it. *)
Definition saved {Features : Type} (dir : gmap string Features)
    (data : list item) (feats : list Features) : gmap string Features :=
  foldl (λ d '(it, f), <[i_utt_id it +:+ ".npy" := f]> d) dir (zip data feats).

(** The statistics sample after the loop has met the arrays [feats],
    starting from [gl]: the cap is tested before each append. *)
Definition sample_after {Features : Type} (g : bool) (cap : Z)
    (gl feats : list Features) : list Features :=
  foldl (λ gl f, if g && (Z.of_nat (length gl) <? cap)%Z then gl ++ [f] else gl)
        gl feats.

(** What the manifest loop gathers for one utterance. *)
Record entry := Entry {
  e_id : string;
  e_audio : string;
  e_n_frames : Z;
  e_src : string;
  e_tgt : string;
  e_speaker : string;
}.

(** The manifest row of an utterance for a task: the text is the English
    transcript for [asr] and the target-language transcript for [st]. *)
Definition row_of (t : task) (e : entry) : manifest_row :=
  Row (e_id e) (e_audio e) (e_n_frames e)
      (match t with asr => e_src e | st => e_tgt e end) (e_speaker e).

(** What the manifest loop gathers for a dataset, in traversal order.
    [None] when a window cannot be decoded, an utterance id is missing from
    the archive index, or a sample rate is zero. *)
Definition dataset_entries {Waveform Features Stats : Type}
    (w : @World Waveform Features Stats) (zip_manifest : gmap string string)
    (data : list item) : option (list entry) :=
  mapM (λ it,
          wv ← w_get_waveform w (i_wav_path it) (i_n_frames it) (i_offset it);
          audio ← zip_manifest !! i_utt_id it;
          ms ← duration_ms (w_size1 w wv) (i_sample_rate it);
          Some (Entry (i_utt_id it) audio (n_frames_of_ms ms)
                      (i_src_utt it) (i_tgt_utt it) (i_spk_id it)))
       data.

(** The manifest file of a split and a task. *)
Definition tsv_path (output_root split : string) (t : task) : string :=
  output_root </> (split +:+ "_" +:+ task_name t +:+ ".tsv").

(** The rows the script writes for a split and a task, given what the
    manifest loop gathered: the data frame after [filter_manifest_df]. *)
Definition written_rows {Waveform Features Stats : Type}
    (w : @World Waveform Features Stats) (split : string) (es : list entry)
    (t : task) : list manifest_row :=
  filter_manifest_df w (row_of t <$> es) (PyStr.startswith split "train").

(** The segment dicts after both transcripts are merged in, lines 66 to 71. *)
Definition merged_segments (ys : list yaml_segment) (ens tgts : list string)
    : list segment :=
  zip_with (λ '(y, e) t,
              Segment (y_wav y) (y_offset y) (y_duration y) (y_speaker_id y) e t)
           (zip ys (PyStr.strip <$> ens)) (PyStr.strip <$> tgts).

(** The vocabulary size and the model-name prefix of a task, lines 189 to
    197. *)
Definition vocab_size_for (args : Args) (t : task) : Z :=
  match t with
  | asr => if (0 <? a_vocab_size_asr args)%Z then a_vocab_size_asr args
           else a_vocab_size args
  | st => if (0 <? a_vocab_size_st args)%Z then a_vocab_size_st args
          else a_vocab_size args
  end.

Definition spm_prefix_for (args : Args) (t : task) : string :=
  "spm_" +:+ vocab_type_name (a_vocab_type args)
         +:+ (if decide (a_vocab_type args = char) then ""
              else pretty (vocab_size_for args t))
         +:+ "_" +:+ task_name t.

(** The calls of one pass through the vocabulary loop. *)
Definition vocab_events (args : Args) (output_root : string) (t : task)
    : list event :=
  [EGenVocab (output_root </> spm_prefix_for args t) (a_vocab_type args)
             (vocab_size_for args t);
   EGenConfigYaml (output_root </> ("config_" +:+ task_name t +:+ ".yaml"))].

(** The entry the constructor appends for a numbered segment [(i, segment)]
    of the group of [wav_path], lines 79 to 92; [None] when the offset or
    the duration text is no number. *)
Definition item_of (wav_path : string) (sample_rate : Z) (ix : nat * segment)
    : option item :=
  o ← seconds_to_samples (offset ix.2) sample_rate;
  n ← seconds_to_samples (duration ix.2) sample_rate;
  Some (Item wav_path o n sample_rate (en ix.2) (tgt ix.2) (speaker_id ix.2)
             (PyPath.stem wav_path +:+ "_" +:+ pretty ix.1)).

(** [it] is the entry of the segment dict [sg] in a split whose recordings
    are under [wav_root]. *)
Definition built_from {Waveform Features Stats : Type}
    (w : @World Waveform Features Stats) (wav_root : string)
    (sg : segment) (it : item) : Prop :=
  i_wav_path it = wav_root </> wav sg
  ∧ w_samplerate w (i_wav_path it) = Some (i_sample_rate it)
  ∧ seconds_to_samples (offset sg) (i_sample_rate it) = Some (i_offset it)
  ∧ seconds_to_samples (duration sg) (i_sample_rate it) = Some (i_n_frames it)
  ∧ i_src_utt it = en sg ∧ i_tgt_utt it = tgt sg ∧ i_spk_id it = speaker_id sg.

(** The stems under which the runs of [groupby] are numbered, line 81. *)
Definition group_stems (wav_root : string) (segments : list segment)
    : list string :=
  (λ kg, PyPath.stem (wav_root </> kg.1)) <$> PyIter.groupby wav segments.

(** The entries appended for one group of [groupby]: the sample rate is
    probed once, the segments are numbered in sorted order. *)
Definition group_items {Waveform Features Stats : Type}
    (w : @World Waveform Features Stats) (wav_root : string)
    (kg : string * list segment) (new : list item) : Prop :=
  ∃ rate, w_samplerate w (wav_root </> kg.1) = Some rate
    ∧ Forall2 (λ ix it, item_of (wav_root </> kg.1) rate ix = Some it)
              (PyIter.enumerate (PyIter.sorted offset kg.2)) new.

(** A computation that, from any state and whatever its outcome, only adds
    calls that satisfy [allowed] to the log and leaves every file outside
    [paths] as it is. *)
Definition confined {Features Stats A : Type} (allowed : event → bool)
    (paths : list string) (m : @M Features Stats A) : Prop :=
  ∀ st, ∃ d,
    trace (snd (m st)) = trace st ++ d
    ∧ Forall (λ e, allowed e = true) d
    ∧ ∀ p, p ∉ paths → files (snd (m st)) !! p = files st !! p.

(** The calls [MUSTC.__init__] makes. *)
Definition index_event (e : event) : bool :=
  match e with
  | EIsDir _ | EOpen _ | ESfInfo _ => true
  | _ => false
  end.

(** Every call but the packing of the archive. *)
Definition not_packing (e : event) : bool :=
  match e with
  | ECreateZip _ _ => false
  | _ => true
  end.

(** No restriction on the calls. *)
Definition any_event (e : event) : bool := true.

(** Lines 160 to 218: manifest and vocabulary generation, once the archive
    index is read. *)
Definition manifest_and_vocab {Waveform Features Stats : Type}
    (w : @World Waveform Features Stats) (args : Args) (lang output_root : string)
    (zip_manifest : gmap string string) : @M Features Stats unit :=
  print "Generating manifest...";;
  '(train_text_asr, train_text_st) ←
    foldM (manifest_split w args lang output_root zip_manifest) ([], []) SPLITS;
  forM_ (set_tasks w (a_task args))
        (vocab_task args output_root train_text_asr train_text_st).

(** The files written for a language: the manifests (line 185), the model
    and the configuration of each task (lines 203 and 211) and, with the
    statistics (line 148) and the archive (line 118), all of them. *)
Definition manifest_paths (args : Args) (out : string) : list string :=
  split ← SPLITS; t ← a_task args; [tsv_path out split t].

Definition model_path (args : Args) (out : string) (t : task) : string :=
  (out </> spm_prefix_for args t) +:+ ".model".

Definition config_path (out : string) (t : task) : string :=
  out </> ("config_" +:+ task_name t +:+ ".yaml").

Definition vocab_paths (args : Args) (out : string) : list string :=
  t ← a_task args; [model_path args out t; config_path out t].

Definition outputs (args : Args) (out : string) : list string :=
  [out </> "gcmvn.npz"; out </> "fbank80.zip"]
  ++ manifest_paths args out ++ vocab_paths args out.

(** Everything a run may write: the files of the requested languages. *)
Definition all_outputs {Waveform Features Stats : Type}
    (w : @World Waveform Features Stats) (args : Args) : list string :=
  lang ← a_lang args;
  outputs args (output_root_of w args (w_absolute w (a_data_root args)) lang).

(** A computation whose outcome does not depend on the state it starts
    from, and that only appends calls to the log. *)
Definition stateless {Features Stats A : Type} (m : @M Features Stats A) : Prop :=
  ∃ r d, ∀ s, m s = (r, log d s).



(* ===================================================================== *)
(** * Plain decimal texts *)
(* ===================================================================== *)

(** Texts of decimal digits only. *)
Fixpoint all_digits (s : string) : bool :=
  match s with
  | EmptyString => true
  | String c s' => bool_decide (is_Some (PyFloat.digit_of c)) && all_digits s'
  end.

(** Plain decimal texts with [n] digits before the point: the [n] digits,
    then nothing, or a point and further digits. *)
Fixpoint plain_decimal (n : nat) (s : string) : bool :=
  match n, s with
  | O, EmptyString => true
  | O, String c s' => Ascii.eqb c "." && all_digits s'
  | S n', String c s' =>
      bool_decide (is_Some (PyFloat.digit_of c)) && plain_decimal n' s'
  | S _, EmptyString => false
  end.

(** The number written by a text of digits, and the fraction written by
    the digits behind a point. *)
Fixpoint digits_val (s : string) : Z :=
  match s with
  | EmptyString => 0
  | String c s' =>
      default 0%Z (PyFloat.digit_of c) * 10 ^ Z.of_nat (String.length s')
      + digits_val s'
  end.

Definition frac_val (s : string) : Q :=
  inject_Z (digits_val s) / inject_Z (10 ^ Z.of_nat (String.length s)).

(** The number written by a plain decimal text with [n] digits before the
    point. *)
Fixpoint plain_val (n : nat) (s : string) : Q :=
  match n, s with
  | S n', String c s' =>
      (inject_Z (default 0%Z (PyFloat.digit_of c) * 10 ^ Z.of_nat n')
       + plain_val n' s')%Q
  | O, String _ s' => frac_val s'
  | _, _ => 0%Q
  end.

(* ===================================================================== *)
(** * Concrete corpora *)
(* ===================================================================== *)

(** Small worlds on which the definitions are run.  A waveform is
    represented by its number of samples, a feature array by the utterance
    window it was computed from, statistics by the sample they summarize. *)
Module Fixture.

Record split_files := SplitFiles {
  sf_lang : string;
  sf_split : string;
  sf_yaml : list yaml_segment;
  sf_en : list string;
  sf_tgt : list string;
}.

Definition split_root (root : string) (f : split_files) : string :=
  root </> ("en-" +:+ sf_lang f) </> "data" </> sf_split f.

Definition dirs (root : string) (f : split_files) : list string :=
  [root </> ("en-" +:+ sf_lang f); split_root root f;
   split_root root f </> "wav"; split_root root f </> "txt"].

Definition lookup_file {A} (root : string) (corpus : list split_files)
    (file_of : split_files → string) (content : split_files → A)
    (p : string) : option A :=
  content <$>
    List.find (λ f, bool_decide (p = split_root root f </> "txt" </> file_of f))
              corpus.

(** A corpus rooted at [root] in which every recording has the given
    sample rate and every requested window is read in full. *)
Definition world (root : string) (rate : Z) (corpus : list split_files)
    (min_n_frames max_n_frames : Z)
    : @World Z (Z * Z) (list (Z * Z)) :=
  {| w_absolute := id;
     w_is_dir := λ p, bool_decide (p ∈ concat (dirs root <$> corpus));
     w_yaml := lookup_file root corpus (λ f, sf_split f +:+ ".yaml") sf_yaml;
     w_lines := λ p,
       match lookup_file root corpus (λ f, sf_split f +:+ ".en") sf_en p with
       | Some l => Some l
       | None =>
           lookup_file root corpus (λ f, sf_split f +:+ "." +:+ sf_lang f)
                       sf_tgt p
       end;
     w_samplerate := λ _, Some rate;
     w_get_waveform := λ _ frames _, Some frames;
     w_size1 := id;
     w_tmpdir := "/tmp/tmpdir";
     w_extract_fbank_features := λ waveform sample_rate,
       Some (waveform, sample_rate);
     w_cal_gcmvn_stats := λ l, match l with [] => None | _ => Some l end;
     w_zip_index := λ zip_path members,
       list_to_map
         ((λ name, (PyPath.stem name, PyPath.name zip_path +:+ ":" +:+ name))
            <$> (map_to_list members).*1);
     w_lang_order := id;
     w_task_order := id;
     w_min_n_frames := min_n_frames;
     w_max_n_frames := max_n_frames;
     w_ratio_excessive := λ frames chars, (10 * Z.of_nat chars <? frames)%Z |}.

Definition empty_state : @state (Z * Z) (list (Z * Z)) := State ∅ [].

Definition seg (wav_name offset_ duration_ : string) : yaml_segment :=
  YamlSegment wav_name offset_ duration_ "spk.1".

(** The three-segment recording of the specification's scenario. *)
Definition scenario_train : split_files :=
  SplitFiles "de" "train"
    [seg "ted_1.wav" "0.0" "1.5"; seg "ted_1.wav" "2.0" "2.0";
     seg "ted_1.wav" "5.0" "1.0"]
    ["one"; "two"; "three"] ["eins"; "zwei"; "drei"].

Definition scenario_world := world "/c" 16000 [scenario_train] 5 3000.

(** A language with one well-formed utterance in a split. *)
Definition healthy (lang split : string) : split_files :=
  SplitFiles lang split [seg (split +:+ "_1.wav") "0.5" "1.0"]
             ["hello"] ["hallo"].

(** A training split with two segments and a single transcript line. *)
Definition mismatched_train : split_files :=
  SplitFiles "de" "train"
    [seg "ted_1.wav" "0.5" "1.0"; seg "ted_1.wav" "2.0" "1.0"]
    ["only one line"] ["nur eine Zeile"].

(** German is damaged, Japanese is complete, Chinese is absent. *)
Definition two_lang_world :=
  world "/c" 16000 (mismatched_train :: (healthy "ja" <$> SPLITS)) 5 3000.

Definition args_for (langs : list string) (tasks : list task) : Args :=
  MkArgs "/c" None unigram 8000 0 0 tasks langs cmvn_utterance 150000.

(** The archive of the Japanese corpus, already packed. *)
Definition ja_members : gmap string (Z * Z) :=
  list_to_map ((λ split, (split +:+ "_1_0.npy", (16000, 16000)%Z)) <$> SPLITS).

Definition archived_state : @state (Z * Z) (list (Z * Z)) :=
  State {[ "/c/en-ja/fbank80.zip" := AZip ja_members ]} [].

(** The entries of the scenario's training split. *)
Definition scenario_items : list item :=
  [Item "/c/en-de/data/train/wav/ted_1.wav" 0 24000 16000
        "one" "eins" "spk.1" "ted_1_0";
   Item "/c/en-de/data/train/wav/ted_1.wav" 32000 32000 16000
        "two" "zwei" "spk.1" "ted_1_1";
   Item "/c/en-de/data/train/wav/ted_1.wav" 80000 16000 16000
        "three" "drei" "spk.1" "ted_1_2"].

Definition global_args (cap : Z) : Args :=
  MkArgs "/c" None unigram 8000 0 0 [asr; st] ["de"] cmvn_global cap.

(** A one-second utterance with a long English and a short German text:
    98 frames over 23 characters pass the ratio test of [world], 98 frames
    over one character do not. *)
Definition lopsided (split : string) : split_files :=
  SplitFiles "de" split [seg (split +:+ "_1.wav") "0.0" "1.0"]
             ["a long english sentence"] ["A"].

Definition lopsided_world := world "/c" 16000 (lopsided <$> SPLITS) 5 3000.

Definition lopsided_index (split : string) : gmap string string :=
  {[ split +:+ "_1_0" := "fbank80.zip:" +:+ split +:+ "_1_0.npy" ]}.

Definition lopsided_item (split : string) : item :=
  Item ("/c/en-de/data" </> split </> "wav" </> (split +:+ "_1.wav"))
       0 16000 16000 "a long english sentence" "A" "spk.1" (split +:+ "_1_0").

Definition lopsided_entry (split : string) : entry :=
  Entry (split +:+ "_1_0") ("fbank80.zip:" +:+ split +:+ "_1_0.npy") 98
        "a long english sentence" "A" "spk.1".

(** One recording whose second segment starts after the tenth second. *)
Definition late_train : split_files :=
  SplitFiles "de" "train"
    [seg "ted_1.wav" "9.5" "1.0"; seg "ted_1.wav" "10.5" "1.0"]
    ["first"; "second"] ["erste"; "zweite"].

Definition late_world := world "/c" 16000 [late_train] 5 3000.

(** A recording whose records are separated by another recording's. *)
Definition interleaved_train : split_files :=
  SplitFiles "de" "train"
    [seg "ted_1.wav" "0.0" "1.0"; seg "ted_2.wav" "0.0" "1.0";
     seg "ted_1.wav" "2.0" "1.0"]
    ["a"; "b"; "c"] ["A"; "B"; "C"].

Definition interleaved_world := world "/c" 16000 [interleaved_train] 5 3000.




(** The scenario's corpus with a recording of 70000 samples: a window that
    ends after the last sample cannot be read. *)
Definition short_recording_world : @World Z (Z * Z) (list (Z * Z)) :=
  let w := scenario_world in
  {| w_absolute := w_absolute w;
     w_is_dir := w_is_dir w;
     w_yaml := w_yaml w;
     w_lines := w_lines w;
     w_samplerate := w_samplerate w;
     w_get_waveform := λ _ frames start,
       if (start + frames <=? 70000)%Z then Some frames else None;
     w_size1 := w_size1 w;
     w_tmpdir := w_tmpdir w;
     w_extract_fbank_features := w_extract_fbank_features w;
     w_cal_gcmvn_stats := w_cal_gcmvn_stats w;
     w_zip_index := w_zip_index w;
     w_lang_order := w_lang_order w;
     w_task_order := w_task_order w;
     w_min_n_frames := w_min_n_frames w;
     w_max_n_frames := w_max_n_frames w;
     w_ratio_excessive := w_ratio_excessive w |}.

(** A training split whose offsets are written with two digits before the
    point, listed from the last to the first. *)
Definition padded_train : split_files :=
  SplitFiles "de" "train"
    [seg "ted_1.wav" "12.0" "1.0"; seg "ted_1.wav" "07.5" "1.0";
     seg "ted_1.wav" "02.25" "1.0"]
    ["third"; "second"; "first"] ["dritte"; "zweite"; "erste"].

Definition padded_world := world "/c" 16000 [padded_train] 5 3000.

End Fixture.

(* ===================================================================== *)
(** * Running the definitions *)
(* ===================================================================== *)

Example stem_wav : PyPath.stem "/c/en-de/data/train/wav/ted_1.wav" = "ted_1".
Proof. reflexivity. Qed.
Example stem_hidden : PyPath.stem "a/.bashrc" = ".bashrc".
Proof. reflexivity. Qed.
Example stem_two : PyPath.stem "a/b.tar.gz" = "b.tar".
Proof. reflexivity. Qed.
Example stem_trailing : PyPath.stem "a/b." = "b.".
Proof. reflexivity. Qed.
Example sorted_text : PyIter.sorted id ["9.5"; "10.5"; "9.5"] = ["10.5"; "9.5"; "9.5"].
Proof. reflexivity. Qed.
Example groupby_runs :
  PyIter.groupby id ["a"; "a"; "b"; "a"] = [("a", ["a"; "a"]); ("b", ["b"]); ("a", ["a"])].
Proof. reflexivity. Qed.
Example distinct_ex : PyIter.distinct ["ja"; "de"; "ja"; "zh"; "de"] = ["ja"; "de"; "zh"].
Proof. reflexivity. Qed.
Example strip_ex : PyStr.strip "  hello world 
" = "hello world".
Proof. reflexivity. Qed.

(* ===================================================================== *)
(** * The effect monad: equations and frame properties *)
(* ===================================================================== *)

Section MonadFacts.
Context {Waveform Features Stats : Type}.
Abbreviation M := (@M Features Stats).
Abbreviation state := (@state Features Stats).

Lemma bind_eq {A B} (m : M A) (f : A → M B) (s : state) :
  (m ≫= f) s =
  match m s with
  | (Ok a, s') => f a s'
  | (Raise e, s') => (Raise e, s')
  end.
Proof. reflexivity. Qed.

Lemma bind_ok {A B} (m : M A) (f : A → M B) (s s' : state) a :
  m s = (Ok a, s') → (m ≫= f) s = f a s'.
Proof. intros H. rewrite bind_eq, H. reflexivity. Qed.

Lemma bind_raise {A B} (m : M A) (f : A → M B) (s s' : state) e :
  m s = (Raise e, s') → (m ≫= f) s = (Raise e, s').
Proof. intros H. rewrite bind_eq, H. reflexivity. Qed.

Lemma foldM_app {A S} (body : S → A → M S) (l1 l2 : list A) s0 (st : state) :
  foldM body s0 (l1 ++ l2) st =
  match foldM body s0 l1 st with
  | (Ok s1, st1) => foldM body s1 l2 st1
  | (Raise e, st1) => (Raise e, st1)
  end.
Proof.
  revert s0 st. induction l1 as [|x l1 IH]; intros s0 st; simpl.
  - reflexivity.
  - rewrite !bind_eq. destruct (body s0 x st) as [[s1|e] st1]; [apply IH|done].
Qed.

(** A loop stops at the first iteration that raises: the iterations after
    it never run. *)
Lemma forM_abort {A} (body : A → M unit) (l1 l2 : list A) x e
    (st st1 st2 : state) :
  forM_ l1 body st = (Ok tt, st1) →
  body x st1 = (Raise e, st2) →
  forM_ (l1 ++ x :: l2) body st = (Raise e, st2).
Proof.
  unfold forM_. intros H1 H2. rewrite foldM_app, H1. simpl.
  rewrite bind_eq, H2. reflexivity.
Qed.

End MonadFacts.

(* ===================================================================== *)
(** * Primitive steps *)
(* ===================================================================== *)

Section StepFacts.
Context {Waveform Features Stats : Type}.
Variable w : @World Waveform Features Stats.
Abbreviation state := (@state Features Stats).

Lemma emit_eq (e : event) (st : state) : emit e st = (Ok tt, log [e] st).
Proof. reflexivity. Qed.

Lemma log_log (l1 l2 : list event) (st : state) :
  log l2 (log l1 st) = log (l1 ++ l2) st.
Proof. unfold log. simpl. by rewrite app_assoc. Qed.

Lemma files_log (l : list event) (st : state) : files (log l st) = files st.
Proof. reflexivity. Qed.

Lemma trace_log (l : list event) (st : state) : trace (log l st) = trace st ++ l.
Proof. reflexivity. Qed.

Lemma is_dir_eq (p : string) (st : state) :
  is_dir w p st = (Ok (w_is_dir w p), log [EIsDir p] st).
Proof. reflexivity. Qed.

Lemma path_exists_eq (p : string) (st : state) :
  path_exists p st = (Ok (bool_decide (is_Some (files st !! p))), log [EExists p] st).
Proof. reflexivity. Qed.

End StepFacts.

(* ===================================================================== *)
(** * Sets built from argument lists *)
(* ===================================================================== *)

Section DistinctFacts.
Context {A : Type} `{EqDecision A}.
Implicit Types l seen : list A.

Lemma elem_of_distinct_go l seen x :
  x ∈ PyIter.distinct_go seen l ↔ x ∈ l ∧ x ∉ seen.
Proof.
  revert seen. induction l as [|y l IH]; intros seen; simpl.
  - set_solver.
  - destruct (decide (y ∈ seen)) as [Hy|Hy].
    + rewrite IH. set_solver.
    + rewrite elem_of_cons, IH, not_elem_of_cons, elem_of_cons.
      destruct (decide (x = y)) as [->|Hne]; naive_solver.
Qed.

Lemma NoDup_distinct_go l seen : NoDup (PyIter.distinct_go seen l).
Proof.
  revert seen. induction l as [|y l IH]; intros seen; simpl.
  - constructor.
  - destruct (decide (y ∈ seen)); [apply IH|].
    constructor; [|apply IH].
    rewrite elem_of_distinct_go. set_solver.
Qed.

Lemma distinct_go_id l seen :
  NoDup l → (∀ x, x ∈ l → x ∉ seen) → PyIter.distinct_go seen l = l.
Proof.
  intros Hnd. revert seen. induction Hnd as [|y l Hy Hnd IH]; intros seen Hs; simpl.
  - reflexivity.
  - destruct (decide (y ∈ seen)) as [Hin|_].
    + exfalso. apply (Hs y); [left|done].
    + f_equal. apply IH. intros x Hx. specialize (Hs x). set_solver.
Qed.

Lemma elem_of_distinct l x : x ∈ PyIter.distinct l ↔ x ∈ l.
Proof. unfold PyIter.distinct. rewrite elem_of_distinct_go. set_solver. Qed.

Lemma NoDup_distinct l : NoDup (PyIter.distinct l).
Proof. apply NoDup_distinct_go. Qed.

Lemma distinct_idemp l : PyIter.distinct (PyIter.distinct l) = PyIter.distinct l.
Proof.
  unfold PyIter.distinct at 1. apply distinct_go_id; [apply NoDup_distinct|].
  intros x _. apply not_elem_of_nil.
Qed.

Lemma distinct_NoDup_id l : NoDup l → PyIter.distinct l = l.
Proof. intros H. apply distinct_go_id; [done|]. intros x _. apply not_elem_of_nil. Qed.

(** Under an iteration order that permutes the distinct elements, iterating
    over [set(l)] meets every element of [l], each once. *)
Lemma set_iteration order l :
  set_order_ok order →
  NoDup (order (PyIter.distinct l))
  ∧ ∀ x, x ∈ order (PyIter.distinct l) ↔ x ∈ l.
Proof.
  intros Hok. pose proof (Hok _ (NoDup_distinct l)) as Hp. split.
  - rewrite Hp. apply NoDup_distinct.
  - intros x. rewrite Hp. apply elem_of_distinct.
Qed.

End DistinctFacts.

(* ===================================================================== *)
(** * Grouping and sorting *)
(* ===================================================================== *)

Section IterFacts.
Context {A : Type}.
Implicit Types (key : A → string) (l g : list A).

(** [a < b] fails exactly when [b ≤ a] in the lexicographic order. *)
Lemma lt_false_iff (a b : string) : PyStr.lt a b = false ↔ (b ≤ a)%string.
Proof.
  unfold PyStr.lt, String.ltb, String.le, String.leb.
  rewrite (String.compare_antisym b a).
  destruct (String.compare a b); simpl; split; done.
Qed.

Lemma lt_irrefl (a : string) : PyStr.lt a a = false.
Proof. by apply lt_false_iff. Qed.

Lemma insert_sorted_perm key x l :
  Permutation (PyIter.insert_sorted key x l) (x :: l).
Proof.
  induction l as [|y l IH]; simpl; [done|].
  destruct (PyStr.lt (key y) (key x)); [|done].
  rewrite IH. apply perm_swap.
Qed.

(** [sorted] rearranges its argument. *)
Lemma sorted_perm key l : Permutation (PyIter.sorted key l) l.
Proof.
  induction l as [|x l IH]; simpl; [done|].
  by rewrite insert_sorted_perm, IH.
Qed.

Lemma insert_sorted_ordered key x l :
  StronglySorted (λ a b, (key a ≤ key b)%string) l →
  StronglySorted (λ a b, (key a ≤ key b)%string) (PyIter.insert_sorted key x l).
Proof.
  induction 1 as [|y l Hl IH Hy]; simpl.
  - repeat constructor.
  - destruct (PyStr.lt (key y) (key x)) eqn:Hlt.
    + constructor; [done|].
      rewrite insert_sorted_perm. constructor; [|done].
      destruct (total (≤)%string (key y) (key x)) as [?|Hle]; [done|].
      apply lt_false_iff in Hle. congruence.
    + apply lt_false_iff in Hlt. constructor; [by constructor|].
      constructor; [done|].
      eapply Forall_impl; [exact Hy|]. intros z Hz. by etrans.
Qed.

(** The keys of [sorted key l] ascend in the lexicographic order of text. *)
Lemma sorted_ordered key l :
  StronglySorted (λ a b, (key a ≤ key b)%string) (PyIter.sorted key l).
Proof.
  induction l as [|x l IH]; simpl; [constructor|].
  by apply insert_sorted_ordered.
Qed.

Lemma insert_sorted_filter key x l (k : string) :
  filter (λ a, key a = k) (PyIter.insert_sorted key x l)
  = filter (λ a, key a = k) (x :: l).
Proof.
  induction l as [|y l IH]; simpl; [done|].
  destruct (PyStr.lt (key y) (key x)) eqn:Hlt; [|done].
  rewrite !filter_cons, IH, !filter_cons.
  destruct (decide (key y = k)) as [Hy|Hy], (decide (key x = k)) as [Hx|Hx];
    try done.
  rewrite Hy, Hx, lt_irrefl in Hlt. done.
Qed.

(** [sorted] is stable: elements with equal keys keep their order. *)
Lemma sorted_stable key l (k : string) :
  filter (λ a, key a = k) (PyIter.sorted key l) = filter (λ a, key a = k) l.
Proof.
  induction l as [|x l IH]; simpl; [done|].
  by rewrite insert_sorted_filter, !filter_cons, IH.
Qed.

(** The groups of [groupby], laid end to end, are the input. *)
Lemma groupby_concat key l : concat ((PyIter.groupby key l).*2) = l.
Proof.
  induction l as [|x l IH]; simpl; [done|].
  destruct (PyIter.groupby key l) as [|[k g] rest]; simpl in *.
  - by rewrite <- IH.
  - destruct (decide (key x = k)); simpl; by rewrite <- IH.
Qed.

(** Every group is a non-empty run of elements with the group's key. *)
Lemma groupby_groups key l :
  Forall (λ kg, kg.2 ≠ [] ∧ Forall (λ a, key a = kg.1) kg.2)
         (PyIter.groupby key l).
Proof.
  induction l as [|x l IH]; simpl; [constructor|].
  destruct (PyIter.groupby key l) as [|[k g] rest].
  - repeat constructor; done.
  - apply Forall_cons in IH as [[Hg Hk] Hrest].
    destruct (decide (key x = k)) as [Hx|Hx].
    + constructor; [|done]. split; [done|]. by constructor.
    + constructor; [|by constructor]. split; [done|]. by repeat constructor.
Qed.

(** Neighbouring groups have different keys; groups further apart may
    share one. *)
Lemma groupby_neighbours key l (i : nat) (k1 k2 : string) (g1 g2 : list A) :
  PyIter.groupby key l !! i = Some (k1, g1) →
  PyIter.groupby key l !! S i = Some (k2, g2) →
  k1 ≠ k2.
Proof.
  revert i k1 k2 g1 g2. induction l as [|x l IH]; intros i k1 k2 g1 g2; simpl; [done|].
  destruct (PyIter.groupby key l) as [|[k g] rest] eqn:Hg; [by destruct i|].
  destruct (decide (key x = k)) as [Hx|Hx].
  - destruct i as [|i]; simpl; intros H1 H2.
    + injection H1 as <- <-. apply (IH 0 k k2 g g2); [done|exact H2].
    + apply (IH (S i) k1 k2 g1 g2); [exact H1|exact H2].
  - destruct i as [|i]; simpl; intros H1 H2.
    + injection H1 as <- <-. injection H2 as <- <-. done.
    + apply (IH i k1 k2 g1 g2); [exact H1|exact H2].
Qed.

End IterFacts.

(* ===================================================================== *)
(** * Paths under the output directory *)
(* ===================================================================== *)

Lemma str_app_assoc (a b c : string) : (a +:+ b) +:+ c = a +:+ (b +:+ c).
Proof.
  induction a as [|x a IH]; [reflexivity|].
  change (String x ((a +:+ b) +:+ c) = String x (a +:+ (b +:+ c))). by f_equal.
Qed.

Lemma join_inj_r (a x y : string) : a </> x = a </> y → x = y.
Proof.
  unfold PyPath.join. intros H. apply String.app_inj in H. by injection H.
Qed.

Lemma tsv_path_ne_zip (out split : string) (t : task) :
  split ∈ SPLITS →
  out </> (split +:+ "_" +:+ task_name t +:+ ".tsv") ≠ out </> "fbank80.zip".
Proof.
  intros Hin Heq. apply join_inj_r in Heq. unfold SPLITS in Hin.
  repeat (apply elem_of_cons in Hin as [->|Hin]; [by destruct t|]).
  by apply elem_of_nil in Hin.
Qed.

Lemma model_path_ne_zip (out rest : string) :
  (out </> ("spm_" +:+ rest)) +:+ ".model" ≠ out </> "fbank80.zip".
Proof.
  unfold PyPath.join. rewrite !str_app_assoc. intros H.
  apply String.app_inj in H. discriminate.
Qed.

Lemma config_path_ne_zip (out rest : string) :
  out </> ("config_" +:+ rest) ≠ out </> "fbank80.zip".
Proof. intros H. apply join_inj_r in H. discriminate. Qed.

(* ===================================================================== *)
(** * Rounding to double precision *)
(* ===================================================================== *)

Module FloatFacts.
Import PyFloat.
Local Open Scope Q_scope.

Lemma two_pow_pos e : 0 < two_pow e.
Proof. apply Qpower_0_lt. reflexivity. Qed.

Lemma two_pow_add a b : two_pow (a + b) == two_pow a * two_pow b.
Proof. apply Qpower_plus. discriminate. Qed.

Lemma two_pow_le a b : (a <= b)%Z -> two_pow a <= two_pow b.
Proof. intros H. apply Qpower_le_compat_l; [exact H|discriminate]. Qed.

Lemma two_pow_lt a b : (a < b)%Z -> two_pow a < two_pow b.
Proof. intros H. apply Qpower_lt_compat_l; [exact H|reflexivity]. Qed.

Lemma two_pow_Z n : (0 <= n)%Z -> two_pow n == inject_Z (2 ^ n).
Proof. intros H. unfold two_pow. rewrite Zpower_Qpower by exact H. reflexivity. Qed.

Lemma two_pow_succ e : two_pow (e + 1) == 2 * two_pow e.
Proof. rewrite two_pow_add. unfold two_pow at 2. simpl. ring. Qed.

Lemma rne_bounds y : inject_Z (rne y) - (1#2) <= y /\ y <= inject_Z (rne y) + (1#2).
Proof.
  unfold rne. pose proof (Qfloor_le y) as H1. pose proof (Qlt_floor y) as H2.
  rewrite inject_Z_plus in H2. change (inject_Z 1) with 1 in H2.
  destruct (Qcompare_spec (y - inject_Z (Qfloor y)) (1#2)) as [E|E|E].
  - destruct (Z.even (Qfloor y)); rewrite ?inject_Z_plus; change (inject_Z 1) with 1; lra.
  - lra.
  - rewrite inject_Z_plus. change (inject_Z 1) with 1. lra.
Qed.

Lemma rne_Z n : rne (inject_Z n) = n.
Proof.
  unfold rne. rewrite Qfloor_Z.
  destruct (Qcompare_spec (inject_Z n - inject_Z n) (1#2)) as [E|E|E]; [lra|reflexivity|lra].
Qed.

Lemma rne_floor y : rne y = Qfloor y \/ rne y = (Qfloor y + 1)%Z.
Proof.
  unfold rne. destruct (Qcompare _ _); [destruct (Z.even _)|..]; auto.
Qed.

Lemma rne_mono y1 y2 : y1 <= y2 -> (rne y1 <= rne y2)%Z.
Proof.
  intros H. pose proof (Qfloor_resp_le _ _ H) as Hf.
  destruct (Z.eq_dec (Qfloor y1) (Qfloor y2)) as [E|N].
  - unfold rne. rewrite E.
    destruct (Qcompare_spec (y1 - inject_Z (Qfloor y2)) (1#2)) as [E1|E1|E1];
    destruct (Qcompare_spec (y2 - inject_Z (Qfloor y2)) (1#2)) as [E2|E2|E2];
    try destruct (Z.even (Qfloor y2)); try lia; lra.
  - destruct (rne_floor y1) as [-> | ->], (rne_floor y2) as [-> | ->]; lia.
Qed.

Lemma q_cancel_lt X D N P T :
  0 < X -> 0 < P -> P <= D -> X * D == N -> N < T * P -> X < T.
Proof.
  intros HX HP HPD HN HT.
  destruct (Qlt_le_dec X T) as [?|Hge]; [assumption|exfalso].
  assert (T * P <= X * P) by (apply Qmult_le_compat_r; lra).
  assert (X * P <= X * D) by (rewrite !(Qmult_comm X); apply Qmult_le_compat_r; lra).
  lra.
Qed.

Lemma q_cancel_le X D N P T :
  0 < X -> 0 < P -> D <= P -> X * D == N -> T * P <= N -> T <= X.
Proof.
  intros HX HP HPD HN HT.
  destruct (Qlt_le_dec X T) as [Hlt|?]; [exfalso|assumption].
  assert (X * P < T * P) by (apply Qmult_lt_compat_r; lra).
  assert (X * D <= X * P) by (rewrite !(Qmult_comm X); apply Qmult_le_compat_r; lra).
  lra.
Qed.

Lemma Qmake_mult_den n d : (n # d) * inject_Z (Zpos d) == inject_Z n.
Proof. unfold Qeq, Qmult, inject_Z. simpl. lia. Qed.

Lemma ilog2_spec x : 0 < x -> two_pow (ilog2 x) <= x /\ x < two_pow (ilog2 x + 1).
Proof.
  intros Hx. destruct x as [n d].
  assert (Hn : (0 < n)%Z) by (unfold Qlt in Hx; simpl in Hx; lia).
  unfold ilog2. cbn [Qnum Qden].
  set (a := Z.log2 n). set (b := Z.log2 (Zpos d)).
  pose proof (Z.log2_spec n Hn) as [Ha1 Ha2]. fold a in Ha1, Ha2.
  pose proof (Z.log2_spec (Zpos d) eq_refl) as [Hb1 Hb2]. fold b in Hb1, Hb2.
  pose proof (Z.log2_nonneg n) as Ha0. fold a in Ha0.
  pose proof (Z.log2_nonneg (Zpos d)) as Hb0. fold b in Hb0.
  assert (Hup : (n # d) < two_pow (a - b + 1)).
  { apply (q_cancel_lt _ (inject_Z (Zpos d)) (inject_Z n) (two_pow b)).
    - exact Hx.
    - apply two_pow_pos.
    - rewrite two_pow_Z by assumption. rewrite <- Zle_Qle. assumption.
    - apply Qmake_mult_den.
    - rewrite <- two_pow_add. replace (a - b + 1 + b)%Z with (Z.succ a) by lia.
      rewrite two_pow_Z by lia. rewrite <- Zlt_Qlt. assumption. }
  assert (Hlo : two_pow (a - b - 1) <= (n # d)).
  { apply (q_cancel_le _ (inject_Z (Zpos d)) (inject_Z n) (two_pow (b + 1))).
    - exact Hx.
    - apply two_pow_pos.
    - rewrite two_pow_Z by lia. rewrite <- Zle_Qle. unfold Z.succ in Hb2. lia.
    - apply Qmake_mult_den.
    - rewrite <- two_pow_add. replace (a - b - 1 + (b + 1))%Z with a by lia.
      rewrite two_pow_Z by lia. rewrite <- Zle_Qle. assumption. }
  destruct (Qle_bool (two_pow (a - b)) (n # d)) eqn:E.
  - apply Qle_bool_iff in E. split; assumption.
  - split; [assumption|].
    replace (a - b - 1 + 1)%Z with (a - b)%Z by lia.
    apply Qnot_le_lt. intros H. apply Qle_bool_iff in H. congruence.
Qed.

Lemma ilog2_unique x e : two_pow e <= x -> x < two_pow (e + 1) -> ilog2 x = e.
Proof.
  intros H1 H2.
  assert (Hx : 0 < x) by (pose proof (two_pow_pos e); lra).
  destruct (ilog2_spec x Hx) as [H3 H4].
  destruct (Z.lt_trichotomy (ilog2 x) e) as [Hlt|[?|Hgt]]; [exfalso| assumption |exfalso].
  - assert (two_pow (ilog2 x + 1) <= two_pow e) by (apply two_pow_le; lia). lra.
  - assert (two_pow (e + 1) <= two_pow (ilog2 x)) by (apply two_pow_le; lia). lra.
Qed.

Lemma ilog2_Qeq x y : 0 < x -> x == y -> ilog2 x = ilog2 y.
Proof.
  intros Hx E. symmetry. destruct (ilog2_spec x Hx) as [H1 H2].
  apply ilog2_unique; rewrite <- E; assumption.
Qed.

Lemma ilog2_mono x y : 0 < x -> x <= y -> (ilog2 x <= ilog2 y)%Z.
Proof.
  intros Hx H. assert (Hy : 0 < y) by lra.
  destruct (ilog2_spec x Hx) as [H1 H2]. destruct (ilog2_spec y Hy) as [H3 H4].
  destruct (Z.le_gt_cases (ilog2 x) (ilog2 y)) as [?|Hgt]; [assumption|exfalso].
  assert (two_pow (ilog2 y + 1) <= two_pow (ilog2 x)) by (apply two_pow_le; lia). lra.
Qed.

Lemma inject_Z_le a b : (a <= b)%Z -> inject_Z a <= inject_Z b.
Proof. intros H. rewrite <- Zle_Qle. exact H. Qed.

Lemma inject_Z_lt a b : (a < b)%Z -> inject_Z a < inject_Z b.
Proof. intros H. rewrite <- Zlt_Qlt. exact H. Qed.

Lemma rne_Qeq x y : x == y -> rne x = rne y.
Proof.
  intros E. apply Z.le_antisymm; apply rne_mono; rewrite E; apply Qle_refl.
Qed.

Lemma mantissa_bounds x :
  0 < x ->
  two_pow 52 <= x * two_pow (52 - ilog2 x) /\ x * two_pow (52 - ilog2 x) < two_pow 53.
Proof.
  intros Hx. destruct (ilog2_spec x Hx) as [H1 H2].
  pose proof (two_pow_pos (52 - ilog2 x)) as Hp.
  assert (E1 : two_pow 52 == two_pow (ilog2 x) * two_pow (52 - ilog2 x)).
  { rewrite <- two_pow_add. replace (ilog2 x + (52 - ilog2 x))%Z with 52%Z by lia.
    reflexivity. }
  assert (E2 : two_pow 53 == two_pow (ilog2 x + 1) * two_pow (52 - ilog2 x)).
  { rewrite <- two_pow_add. replace (ilog2 x + 1 + (52 - ilog2 x))%Z with 53%Z by lia.
    reflexivity. }
  rewrite E1, E2. split.
  - apply Qmult_le_compat_r; lra.
  - apply Qmult_lt_compat_r; lra.
Qed.

Lemma rne_mantissa x :
  0 < x ->
  (2 ^ 52 <= rne (x * two_pow (52 - ilog2 x)) <= 2 ^ 53)%Z.
Proof.
  intros Hx. destruct (mantissa_bounds x Hx) as [H1 H2].
  rewrite (two_pow_Z 52) in H1 by lia. rewrite (two_pow_Z 53) in H2 by lia.
  split.
  - rewrite <- (rne_Z (2 ^ 52)). apply rne_mono. exact H1.
  - rewrite <- (rne_Z (2 ^ 53)). apply rne_mono. lra.
Qed.

Lemma round_pos_range x :
  0 < x ->
  two_pow (ilog2 x) <= round_pos x /\ round_pos x <= two_pow (ilog2 x + 1).
Proof.
  intros Hx. unfold round_pos. destruct (rne_mantissa x Hx) as [H1 H2].
  pose proof (two_pow_pos (ilog2 x - 52)) as Hp.
  assert (E1 : two_pow (ilog2 x) == inject_Z (2 ^ 52) * two_pow (ilog2 x - 52)).
  { rewrite <- (two_pow_Z 52), <- two_pow_add by lia.
    replace (52 + (ilog2 x - 52))%Z with (ilog2 x) by lia. reflexivity. }
  assert (E2 : two_pow (ilog2 x + 1) == inject_Z (2 ^ 53) * two_pow (ilog2 x - 52)).
  { rewrite <- (two_pow_Z 53), <- two_pow_add by lia.
    replace (53 + (ilog2 x - 52))%Z with (ilog2 x + 1)%Z by lia. reflexivity. }
  rewrite E1, E2. rewrite Zle_Qle in H1, H2. split.
  - apply Qmult_le_compat_r; lra.
  - apply Qmult_le_compat_r; lra.
Qed.

Lemma round_pos_pos x : 0 < x -> 0 < round_pos x.
Proof.
  intros Hx. destruct (round_pos_range x Hx) as [H _].
  pose proof (two_pow_pos (ilog2 x)). lra.
Qed.

Lemma round_pos_Qeq x y : 0 < x -> x == y -> round_pos x == round_pos y.
Proof.
  intros Hx E. unfold round_pos. rewrite <- (ilog2_Qeq x y Hx E).
  rewrite (rne_Qeq (x * two_pow (52 - ilog2 x)) (y * two_pow (52 - ilog2 x))).
  - reflexivity.
  - apply Qmult_comp; [exact E|reflexivity].
Qed.

Lemma round_pos_mono x y : 0 < x -> x <= y -> round_pos x <= round_pos y.
Proof.
  intros Hx H. assert (Hy : 0 < y) by lra.
  pose proof (ilog2_mono x y Hx H) as He.
  destruct (Z.eq_dec (ilog2 x) (ilog2 y)) as [E|N].
  - unfold round_pos. rewrite <- E.
    pose proof (two_pow_pos (ilog2 x - 52)) as Hp.
    pose proof (two_pow_pos (52 - ilog2 x)) as Hq.
    apply Qmult_le_compat_r; [|lra]. apply inject_Z_le, rne_mono.
    apply Qmult_le_compat_r; lra.
  - destruct (round_pos_range x Hx) as [_ H1].
    destruct (round_pos_range y Hy) as [H2 _].
    assert (two_pow (ilog2 x + 1) <= two_pow (ilog2 y)) by (apply two_pow_le; lia).
    lra.
Qed.

(** Exactness on multiples of a power of two with a 53-bit multiplier. *)
Lemma round_pos_exact x m k :
  (0 < m < 2 ^ 53)%Z -> x == inject_Z m * two_pow k -> round_pos x == x.
Proof.
  intros Hm E.
  assert (Hx : 0 < x).
  { rewrite E. apply Qmult_lt_0_compat; [|apply two_pow_pos].
    change 0 with (inject_Z 0). rewrite <- Zlt_Qlt. lia. }
  destruct (ilog2_spec x Hx) as [H1 H2].
  assert (He : (ilog2 x < 53 + k)%Z).
  { destruct (Z.lt_ge_cases (ilog2 x) (53 + k)) as [?|Hge]; [assumption|exfalso].
    assert (two_pow (53 + k) <= two_pow (ilog2 x)) by (apply two_pow_le; lia).
    assert (x < two_pow (53 + k)).
    { rewrite E, two_pow_add, (two_pow_Z 53) by lia.
      apply Qmult_lt_compat_r; [apply two_pow_pos|]. rewrite <- Zlt_Qlt. lia. }
    lra. }
  unfold round_pos. remember (ilog2 x) as e eqn:Heq. clear Heq.
  assert (Em : x * two_pow (52 - e) == inject_Z (m * 2 ^ (k + 52 - e))).
  { rewrite E, inject_Z_mult, <- two_pow_Z by lia.
    rewrite <- Qmult_assoc, <- two_pow_add.
    replace (k + (52 - e))%Z with (k + 52 - e)%Z by lia. reflexivity. }
  rewrite (rne_Qeq _ _ Em), rne_Z, <- Em.
  rewrite <- Qmult_assoc, <- two_pow_add.
  replace (52 - e + (e - 52))%Z with 0%Z by lia.
  unfold two_pow at 1. simpl. ring.
Qed.

Lemma round53_pos x : 0 < x -> round53 x == round_pos x.
Proof.
  intros H. unfold round53.
  destruct (Qcompare_spec x 0) as [E|E|E]; [lra|lra|apply Qred_correct].
Qed.

Lemma round53_neg x : x < 0 -> round53 x == - round_pos (- x).
Proof.
  intros H. unfold round53.
  destruct (Qcompare_spec x 0) as [E|E|E]; [lra|apply Qred_correct|lra].
Qed.

Lemma round53_zero x : x == 0 -> round53 x == 0.
Proof.
  intros H. unfold round53.
  destruct (Qcompare_spec x 0) as [E|E|E]; [reflexivity|lra|lra].
Qed.

Lemma round53_sign x :
  (0 < x -> 0 < round53 x) /\ (x < 0 -> round53 x < 0).
Proof.
  split; intros H.
  - rewrite (round53_pos x H). apply round_pos_pos, H.
  - rewrite (round53_neg x H).
    assert (0 < round_pos (- x)) by (apply round_pos_pos; lra). lra.
Qed.

Lemma round53_Qeq x y : x == y -> round53 x == round53 y.
Proof.
  intros E. destruct (Qcompare_spec x 0) as [H|H|H].
  - rewrite (round53_zero x H), (round53_zero y) by (rewrite <- E; exact H).
    reflexivity.
  - rewrite (round53_neg x H), (round53_neg y) by (rewrite <- E; exact H).
    apply Qopp_comp, round_pos_Qeq; [lra|rewrite E; reflexivity].
  - rewrite (round53_pos x H), (round53_pos y) by (rewrite <- E; exact H).
    apply round_pos_Qeq; assumption.
Qed.

Lemma round53_mono x y : x <= y -> round53 x <= round53 y.
Proof.
  intros H. destruct (round53_sign x) as [Hxp Hxn], (round53_sign y) as [Hyp Hyn].
  destruct (Qcompare_spec x 0) as [Hx|Hx|Hx].
  - rewrite (round53_zero x Hx).
    destruct (Qcompare_spec y 0) as [Hy|Hy|Hy]; [|lra|].
    + rewrite (round53_zero y Hy). apply Qle_refl.
    + specialize (Hyp Hy). lra.
  - specialize (Hxn Hx).
    destruct (Qcompare_spec y 0) as [Hy|Hy|Hy].
    + rewrite (round53_zero y Hy). lra.
    + rewrite (round53_neg x Hx), (round53_neg y Hy).
      apply Qopp_le_compat, round_pos_mono; lra.
    + specialize (Hyp Hy). lra.
  - assert (Hy : 0 < y) by lra.
    rewrite (round53_pos x Hx), (round53_pos y Hy). apply round_pos_mono; lra.
Qed.

(** A double holds every multiple of a power of two whose multiplier has
    fewer than 54 bits. *)
Lemma round53_exact x m k :
  (Z.abs m < 2 ^ 53)%Z -> x == inject_Z m * two_pow k -> round53 x == x.
Proof.
  intros Hm E. pose proof (two_pow_pos k) as Hk.
  destruct (Z.lt_trichotomy m 0) as [Hneg|[->|Hpos]].
  - assert (Hx : x < 0).
    { rewrite E. assert (inject_Z m < 0) by (apply (inject_Z_lt m 0); lia).
      assert (H0 : inject_Z m * two_pow k < 0 * two_pow k)
        by (apply Qmult_lt_compat_r; assumption).
      rewrite Qmult_0_l in H0. exact H0. }
    rewrite (round53_neg x Hx), (round_pos_exact (- x) (- m) k).
    + ring.
    + lia.
    + rewrite E, inject_Z_opp. ring.
  - assert (Hz : x == 0) by (rewrite E; change (inject_Z 0) with 0; ring).
    rewrite (round53_zero x Hz), Hz. reflexivity.
  - assert (Hx : 0 < x).
    { rewrite E. apply Qmult_lt_0_compat; [apply (inject_Z_lt 0 m); lia|assumption]. }
    rewrite (round53_pos x Hx). apply (round_pos_exact x m k); [lia|assumption].
Qed.

Lemma round53_int n : (Z.abs n < 2 ^ 53)%Z -> round53 (inject_Z n) == inject_Z n.
Proof.
  intros H. apply (round53_exact _ n 0); [exact H|]. unfold two_pow. simpl. ring.
Qed.

Lemma Qfloor_unique x n :
  inject_Z n <= x -> x < inject_Z (n + 1) -> Qfloor x = n.
Proof.
  intros H1 H2. apply Z.le_antisymm.
  - pose proof (Qfloor_le x) as H.
    assert (inject_Z (Qfloor x) < inject_Z (n + 1)) as H3 by lra.
    rewrite <- Zlt_Qlt in H3. lia.
  - rewrite <- (Qfloor_Z n). apply Qfloor_resp_le, H1.
Qed.

Lemma to_int_nonneg x : 0 <= x -> to_int x = Qfloor x.
Proof.
  destruct x as [n d]. intros H. unfold to_int, Qfloor. cbn [Qnum Qden].
  apply Z.quot_div_nonneg; [|reflexivity].
  unfold Qle in H. simpl in H. lia.
Qed.

Lemma to_int_nonpos x : x <= 0 -> to_int x = (- Qfloor (- x))%Z.
Proof.
  destruct x as [n d]. intros H. unfold to_int, Qfloor, Qopp. cbn [Qnum Qden].
  assert (n <= 0)%Z by (unfold Qle in H; simpl in H; lia).
  rewrite <- (Z.quot_div_nonneg (- n)) by lia.
  rewrite Z.quot_opp_l by discriminate. lia.
Qed.

Lemma to_int_Qeq x y : x == y -> to_int x = to_int y.
Proof.
  intros E. destruct (Qlt_le_dec x 0) as [H|H].
  - rewrite (to_int_nonpos x), (to_int_nonpos y) by lra.
    f_equal. apply Qfloor_comp. rewrite E. reflexivity.
  - rewrite (to_int_nonneg x), (to_int_nonneg y) by lra.
    apply Qfloor_comp, E.
Qed.

Lemma to_int_int n : to_int (inject_Z n) = n.
Proof. unfold to_int. simpl. apply Z.quot_1_r. Qed.

(** Truncation of a value strictly inside a unit interval between integers. *)
Lemma to_int_between x n :
  inject_Z n < x -> x < inject_Z (n + 1) ->
  to_int x = if (0 <=? n)%Z then n else (n + 1)%Z.
Proof.
  intros H1 H2. rewrite inject_Z_plus in H2. change (inject_Z 1) with 1 in H2.
  destruct (Z.leb_spec 0 n) as [Hn|Hn].
  - assert (0 <= inject_Z n) by (apply (inject_Z_le 0 n); lia).
    rewrite to_int_nonneg by lra. apply Qfloor_unique; [lra|].
    rewrite inject_Z_plus. change (inject_Z 1) with 1. lra.
  - assert (inject_Z (n + 1) <= 0) by (apply (inject_Z_le (n + 1) 0); lia).
    rewrite inject_Z_plus in H. change (inject_Z 1) with 1 in H.
    rewrite to_int_nonpos by lra.
    rewrite (Qfloor_unique (- x) (- n - 1)); [lia| |].
    + replace (- n - 1)%Z with (- (n + 1))%Z by lia.
      rewrite inject_Z_opp, inject_Z_plus. change (inject_Z 1) with 1. lra.
    + replace (- n - 1 + 1)%Z with (- n)%Z by lia. rewrite inject_Z_opp. lra.
Qed.


End FloatFacts.

(* ===================================================================== *)
(** * Sample windows and frame counts *)
(* ===================================================================== *)

Module FramingFacts.
Import PyFloat FloatFacts.
Local Open Scope Q_scope.

Lemma quot_10 n :
  Z.quot n 10 = if (0 <=? n)%Z then (n / 10)%Z else (- ((- n) / 10))%Z.
Proof.
  destruct (Z.leb_spec 0 n) as [H|H].
  - apply Z.quot_div_nonneg; lia.
  - rewrite <- (Z.quot_div_nonneg (- n)) by lia.
    rewrite Z.quot_opp_l by discriminate. lia.
Qed.

Lemma sixteenth_exact n c :
  (Z.abs (16 * n + c) < 2 ^ 53)%Z ->
  round53 (inject_Z n + inject_Z c * (1 # 16))
  == inject_Z n + inject_Z c * (1 # 16).
Proof.
  intros H. apply (round53_exact _ (16 * n + c) (-4)); [exact H|].
  rewrite inject_Z_plus, inject_Z_mult. unfold two_pow. simpl. field.
Qed.

(** A quotient by ten that is not an integer stays, once rounded, at least
    a sixteenth away from the integers around it. *)
Lemma round53_tenths q r :
  (Z.abs q < 2 ^ 48)%Z -> (0 < r < 10)%Z ->
  inject_Z q + (1 # 16) <= round53 (inject_Z (10 * q + r) / inject_Z 10)
  /\ round53 (inject_Z (10 * q + r) / inject_Z 10) <= inject_Z q + (15 # 16).
Proof.
  intros Hq Hr.
  assert (Ex : inject_Z (10 * q + r) / inject_Z 10
               == inject_Z q + inject_Z r * (1 # 10)).
  { rewrite inject_Z_plus, inject_Z_mult. field. }
  assert (H1 : 1 <= inject_Z r) by (apply (inject_Z_le 1 r); lia).
  assert (H9 : inject_Z r <= 9) by (apply (inject_Z_le r 9); lia).
  pose proof (sixteenth_exact q 1) as EL. pose proof (sixteenth_exact q 15) as EU.
  change (inject_Z 1) with 1 in EL. change (inject_Z 15) with 15 in EU.
  split.
  - apply Qle_trans with (round53 (inject_Z q + 1 * (1 # 16))).
    + rewrite EL by lia. lra.
    + apply round53_mono. rewrite Ex. lra.
  - apply Qle_trans with (round53 (inject_Z q + 15 * (1 # 16))).
    + apply round53_mono. rewrite Ex. lra.
    + rewrite EU by lia. lra.
Qed.

Lemma n_frames_of_ms_quot d :
  (Z.abs d <= 2 ^ 50)%Z -> n_frames_of_ms d = Z.quot (d - 15) 10.
Proof.
  intros Hd. unfold n_frames_of_ms, add, truediv, of_int.
  set (a := (d - 25)%Z).
  pose proof (Z.div_mod a 10 ltac:(discriminate)) as Ha.
  pose proof (Z.mod_pos_bound a 10 ltac:(reflexivity)) as Hr.
  set (q := (a / 10)%Z) in *. set (r := (a mod 10)%Z) in *.
  assert (Hq : (Z.abs q < 2 ^ 48)%Z)
    by (subst q a; Z.to_euclidean_division_equations; lia).
  clearbody q r.
  assert (E1 : round53 (inject_Z 1) == 1) by (apply (round53_int 1); reflexivity).
  rewrite quot_10.
  destruct (Z.eq_dec r 0%Z) as [Hr0|Hr0].
  - assert (Ex : round53 (inject_Z a / inject_Z 10) == inject_Z q).
    { rewrite <- (round53_int q) by lia. apply round53_Qeq.
      rewrite Ha, Hr0, inject_Z_plus, inject_Z_mult. field. }
    rewrite (to_int_Qeq _ (inject_Z (q + 1))).
    + rewrite to_int_int. subst a.
      destruct (Z.leb_spec 0 (d - 15)); Z.to_euclidean_division_equations; lia.
    + rewrite <- (round53_int (q + 1)) by lia. apply round53_Qeq.
      rewrite E1, Ex, inject_Z_plus. change (inject_Z 1) with 1. ring.
  - destruct (round53_tenths q r Hq ltac:(lia)) as [HL HU].
    rewrite <- Ha in HL, HU.
    set (v := round53 (inject_Z a / inject_Z 10)) in *.
    pose proof (sixteenth_exact (q + 1) 1) as EL.
    pose proof (sixteenth_exact (q + 1) 15) as EU.
    change (inject_Z 1) with 1 in EL. change (inject_Z 15) with 15 in EU.
    rewrite inject_Z_plus in EL, EU. change (inject_Z 1) with 1 in EL, EU.
    assert (HL' : inject_Z q + 1 + (1 # 16) <= round53 (round53 (inject_Z 1) + v)).
    { apply Qle_trans with (round53 (inject_Z q + 1 + 1 * (1 # 16))).
      - rewrite EL by lia. lra.
      - apply round53_mono. rewrite E1. lra. }
    assert (HU' : round53 (round53 (inject_Z 1) + v) <= inject_Z q + 1 + (15 # 16)).
    { apply Qle_trans with (round53 (inject_Z q + 1 + 15 * (1 # 16))).
      - apply round53_mono. rewrite E1. lra.
      - rewrite EU by lia. lra. }
    rewrite (to_int_between _ (q + 1)).
    + subst a. destruct (Z.leb_spec 0 (q + 1)), (Z.leb_spec 0 (d - 15));
        Z.to_euclidean_division_equations; lia.
    + rewrite inject_Z_plus. change (inject_Z 1) with 1 in *. lra.
    + rewrite !inject_Z_plus. change (inject_Z 1) with 1 in *. lra.
Qed.

Lemma seconds_to_samples_eq text sr xq :
  decimal text = Some xq ->
  seconds_to_samples text sr = Some (to_int (mul (round53 xq) (of_int sr))).
Proof. intros H. unfold seconds_to_samples, of_str. rewrite H. reflexivity. Qed.

Lemma seconds_to_samples_exact text sr xq m k :
  decimal text = Some xq ->
  (0 <= m)%Z -> (0 <= k)%Z ->
  xq == inject_Z m / inject_Z (2 ^ k) ->
  (0 < sr)%Z -> (m * sr < 2 ^ 53)%Z ->
  seconds_to_samples text sr = Some (Qfloor (xq * inject_Z sr)).
Proof.
  intros Hdec Hm Hk E Hsr Hprod.
  rewrite (seconds_to_samples_eq _ _ _ Hdec). f_equal.
  assert (Ek : two_pow (- k) == / inject_Z (2 ^ k)).
  { rewrite <- (two_pow_Z k Hk). apply Qpower_opp. }
  assert (Ex : xq == inject_Z m * two_pow (- k)) by (rewrite E, Ek; reflexivity).
  assert (Hxq : 0 <= xq).
  { rewrite Ex. apply Qmult_le_0_compat.
    - apply (inject_Z_le 0 m), Hm.
    - apply Qlt_le_weak, two_pow_pos. }
  assert (Hp : 0 <= xq * inject_Z sr).
  { apply Qmult_le_0_compat; [exact Hxq|]. apply (inject_Z_le 0 sr). lia. }
  rewrite <- (to_int_nonneg _ Hp). apply to_int_Qeq. unfold mul, of_int.
  destruct (Z.eq_dec m 0%Z) as [->|Hm0].
  - assert (Hz : xq == 0) by (rewrite Ex; change (inject_Z 0) with 0; ring).
    rewrite (round53_Qeq _ 0).
    + rewrite Hz. reflexivity.
    + rewrite (round53_zero xq Hz). ring.
  - assert (Hsr53 : (sr < 2 ^ 53)%Z) by nia.
    rewrite (round53_Qeq _ (xq * inject_Z sr)).
    + apply (round53_exact _ (m * sr) (- k)); [lia|].
      rewrite Ex, inject_Z_mult. ring.
    + rewrite (round53_exact xq m (- k)) by (try lia; exact Ex).
      rewrite (round53_int sr) by lia. reflexivity.
Qed.

End FramingFacts.

(** C2, as the code has it.  [int] rounds toward zero, so the recorded
    frame count is the quotient of [duration_ms - 15] by ten rounded toward
    zero.  From 15 ms on, hence for every waveform of at least one 25 ms
    window, that is [1 + floor((duration_ms - 25) / 10)]; a 1000 ms waveform
    has 98 frames. *)
Theorem C2_frame_count_rounds_toward_zero (duration : Z) :
  (Z.abs duration ≤ 2 ^ 50)%Z →
  n_frames_of_ms duration = Z.quot (duration - 15) 10
  ∧ ((15 ≤ duration)%Z → n_frames_of_ms duration = (1 + (duration - 25) / 10)%Z)
  ∧ n_frames_of_ms 1000 = 98%Z.
Proof.
  intros Hd. pose proof (FramingFacts.n_frames_of_ms_quot duration Hd) as Hq.
  split; [exact Hq|]. split; [|by vm_compute].
  intros H15. rewrite Hq, Z.quot_div_nonneg by lia.
  Z.to_euclidean_division_equations. lia.
Qed.

(* ===================================================================== *)
(** * The constructor of MUSTC *)
(* ===================================================================== *)

Section MustcFacts.
Context {Waveform Features Stats : Type}.
Variable w : @World Waveform Features Stats.
Abbreviation state := (@state Features Stats).

(** C8.  A split outside [SPLITS] or a language outside [LANGUAGES] makes
    the constructor raise at its first statement: the exception is the
    result, and the state, with its log of calls to the outside world, is
    the one the constructor was entered with. *)
Theorem C8_invalid_argument_before_io (root lang split : string) (st : state) :
  split ∉ SPLITS ∨ lang ∉ LANGUAGES →
  MUSTC_init w root lang split st = (Raise AssertionError, st).
Proof.
  intros H. unfold MUSTC_init. rewrite bind_eq.
  assert (bool_decide (split ∈ SPLITS) && bool_decide (lang ∈ LANGUAGES) = false)
    as ->; [|reflexivity].
  apply andb_false_iff.
  destruct H as [H|H]; [left|right]; by apply bool_decide_eq_false.
Qed.

End MustcFacts.

(* ===================================================================== *)
(** * The segment index *)
(* ===================================================================== *)

Section IndexFacts.
Context {Waveform Features Stats : Type}.
Variable w : @World Waveform Features Stats.
Abbreviation state := (@state Features Stats).

(** The constructor up to the grouping loop, when the split is in place and
    the transcripts have one line per segment. *)
Lemma MUSTC_init_loaded (root lang split : string) (st : state)
    (ys : list yaml_segment) (ens tgts : list string) :
  split ∈ SPLITS → lang ∈ LANGUAGES →
  let _root := root </> ("en-" +:+ lang) </> "data" </> split in
  w_is_dir w _root = true →
  w_is_dir w (_root </> "wav") = true →
  w_is_dir w (_root </> "txt") = true →
  w_yaml w (_root </> "txt" </> (split +:+ ".yaml")) = Some ys →
  w_lines w (_root </> "txt" </> (split +:+ ".en")) = Some ens →
  w_lines w (_root </> "txt" </> (split +:+ "." +:+ lang)) = Some tgts →
  length ys = length ens → length ys = length tgts →
  MUSTC_init w root lang split st
  = foldM (gather_group w (_root </> "wav")) []
          (PyIter.groupby wav (merged_segments ys ens tgts))
          (log [EIsDir _root; EIsDir (_root </> "wav"); EIsDir (_root </> "txt");
                EOpen (_root </> "txt" </> (split +:+ ".yaml"));
                EOpen (_root </> "txt" </> (split +:+ ".en"));
                EOpen (_root </> "txt" </> (split +:+ "." +:+ lang))] st).
Proof.
  intros Hs Hl _root Hd1 Hd2 Hd3 Hy He Ht Hle Hlt. unfold MUSTC_init.
  rewrite !bool_decide_eq_true_2 by done. cbn [andb assert_].
  erewrite bind_ok by reflexivity. fold _root.
  erewrite bind_ok by apply is_dir_eq. rewrite Hd1. cbn [and_then].
  erewrite bind_ok by apply is_dir_eq. rewrite Hd2. cbn [and_then].
  erewrite bind_ok by apply is_dir_eq. rewrite Hd3. cbn [assert_].
  erewrite bind_ok by reflexivity.
  unfold open_yaml. erewrite bind_ok;
    [|erewrite bind_ok by apply emit_eq; rewrite Hy; reflexivity].
  unfold open_lines. erewrite bind_ok;
    [|erewrite bind_ok by apply emit_eq; rewrite He; reflexivity].
  rewrite length_fmap, <- Hle, Nat.eqb_refl. cbn [assert_].
  erewrite bind_ok by reflexivity.
  erewrite bind_ok;
    [|erewrite bind_ok by apply emit_eq; rewrite Ht; reflexivity].
  rewrite length_fmap, <- Hlt, Nat.eqb_refl. cbn [assert_].
  erewrite bind_ok by reflexivity.
  rewrite !log_log. reflexivity.
Qed.

Lemma sf_info_samplerate_eq (p : string) (rate : Z) (st : state) :
  w_samplerate w p = Some rate →
  sf_info_samplerate w p st = (Ok rate, log [ESfInfo p] st).
Proof.
  intros H. unfold sf_info_samplerate.
  erewrite bind_ok by apply emit_eq. by rewrite H.
Qed.

Lemma gather_segment_eq (wav_path : string) (rate : Z) (data : list item)
    (i : nat) (sg : segment) (o n : Z) (st : state) :
  seconds_to_samples (offset sg) rate = Some o →
  seconds_to_samples (duration sg) rate = Some n →
  gather_segment wav_path rate data (i, sg) st
  = (Ok (data ++ [Item wav_path o n rate (en sg) (tgt sg) (speaker_id sg)
                       (PyPath.stem wav_path +:+ "_" +:+ pretty i)]), st).
Proof. intros Ho Hn. unfold gather_segment. rewrite Ho, Hn. reflexivity. Qed.

(** The scenario of the specification, for any recording name, speakers and
    transcripts: three segments of one 16000 Hz recording at 0.0 s, 2.0 s
    and 5.0 s lasting 1.5 s, 2.0 s and 1.0 s. *)
Lemma scenario_three_segments (root lang split name : string)
    (k0 k1 k2 e0 e1 e2 t0 t1 t2 : string) (st : state) :
  split ∈ SPLITS → lang ∈ LANGUAGES →
  let _root := root </> ("en-" +:+ lang) </> "data" </> split in
  let wav_path := _root </> "wav" </> name in
  w_is_dir w _root = true →
  w_is_dir w (_root </> "wav") = true →
  w_is_dir w (_root </> "txt") = true →
  w_yaml w (_root </> "txt" </> (split +:+ ".yaml"))
    = Some [YamlSegment name "0.0" "1.5" k0; YamlSegment name "2.0" "2.0" k1;
            YamlSegment name "5.0" "1.0" k2] →
  w_lines w (_root </> "txt" </> (split +:+ ".en")) = Some [e0; e1; e2] →
  w_lines w (_root </> "txt" </> (split +:+ "." +:+ lang)) = Some [t0; t1; t2] →
  w_samplerate w wav_path = Some 16000%Z →
  fst (MUSTC_init w root lang split st)
  = Ok [Item wav_path 0 24000 16000 (PyStr.strip e0) (PyStr.strip t0) k0
             (PyPath.stem wav_path +:+ "_0");
        Item wav_path 32000 32000 16000 (PyStr.strip e1) (PyStr.strip t1) k1
             (PyPath.stem wav_path +:+ "_1");
        Item wav_path 80000 16000 16000 (PyStr.strip e2) (PyStr.strip t2) k2
             (PyPath.stem wav_path +:+ "_2")].
Proof.
  intros Hs Hl _root wav_path Hd1 Hd2 Hd3 Hy He Ht Hr.
  rewrite (MUSTC_init_loaded root lang split st _ _ _ Hs Hl Hd1 Hd2 Hd3 Hy He Ht)
    by reflexivity.
  fold _root. unfold merged_segments. cbn [fmap list_fmap zip zip_with].
  cbn [PyIter.groupby wav]. rewrite !decide_True by done.
  cbn [foldM]. unfold gather_group at 1. fold wav_path.
  erewrite bind_ok; [|erewrite bind_ok by (by apply sf_info_samplerate_eq)].
  2:{ change (PyIter.sorted offset ?l) with l.
      unfold PyIter.enumerate. cbn [imap foldM].
      erewrite bind_ok by (by apply gather_segment_eq).
      erewrite bind_ok by (by apply gather_segment_eq).
      erewrite bind_ok by (by apply gather_segment_eq).
      reflexivity. }
  reflexivity.
Qed.

End IndexFacts.

(** C6, as the code has it.  The sample counts are the double-precision
    product of the parsed seconds with the sample rate, rounded toward zero.
    When the seconds are a non-negative binary fraction [m / 2^k] and
    [m * sample_rate] is below [2^53], no rounding occurs and the count is
    [floor(seconds * sample_rate)].  The scenario of three segments of one
    16000 Hz recording yields the ids [stem_0], [stem_1], [stem_2] in that
    order with offsets 0, 32000, 80000 and durations 24000, 32000, 16000. *)
Theorem C6_sample_window :
  (∀ (text : string) (sample_rate : Z) (seconds : Q) (m k : Z),
     PyFloat.decimal text = Some seconds →
     (0 ≤ m)%Z → (0 ≤ k)%Z →
     (seconds == inject_Z m / inject_Z (2 ^ k))%Q →
     (0 < sample_rate)%Z → (m * sample_rate < 2 ^ 53)%Z →
     seconds_to_samples text sample_rate
     = Some (Qfloor (seconds * inject_Z sample_rate)))
  ∧ (∀ (Waveform Features Stats : Type) (w : @World Waveform Features Stats)
       (root lang split name k0 k1 k2 e0 e1 e2 t0 t1 t2 : string)
       (st : @state Features Stats),
       split ∈ SPLITS → lang ∈ LANGUAGES →
       let _root := root </> ("en-" +:+ lang) </> "data" </> split in
       let wav_path := _root </> "wav" </> name in
       w_is_dir w _root = true →
       w_is_dir w (_root </> "wav") = true →
       w_is_dir w (_root </> "txt") = true →
       w_yaml w (_root </> "txt" </> (split +:+ ".yaml"))
         = Some [YamlSegment name "0.0" "1.5" k0;
                 YamlSegment name "2.0" "2.0" k1;
                 YamlSegment name "5.0" "1.0" k2] →
       w_lines w (_root </> "txt" </> (split +:+ ".en")) = Some [e0; e1; e2] →
       w_lines w (_root </> "txt" </> (split +:+ "." +:+ lang))
         = Some [t0; t1; t2] →
       w_samplerate w wav_path = Some 16000%Z →
       fst (MUSTC_init w root lang split st)
       = Ok [Item wav_path 0 24000 16000 (PyStr.strip e0) (PyStr.strip t0) k0
                  (PyPath.stem wav_path +:+ "_0");
             Item wav_path 32000 32000 16000 (PyStr.strip e1) (PyStr.strip t1) k1
                  (PyPath.stem wav_path +:+ "_1");
             Item wav_path 80000 16000 16000 (PyStr.strip e2) (PyStr.strip t2) k2
                  (PyPath.stem wav_path +:+ "_2")]).
Proof.
  split.
  - intros text sr x m k Hd Hm Hk E Hs Hp.
    exact (FramingFacts.seconds_to_samples_exact text sr x m k Hd Hm Hk E Hs Hp).
  - intros W F S w root lang split name k0 k1 k2 e0 e1 e2 t0 t1 t2 st Hs Hl.
    exact (scenario_three_segments w root lang split name k0 k1 k2 e0 e1 e2
             t0 t1 t2 st Hs Hl).
Qed.

(* ===================================================================== *)
(** * The extraction loop and the statistics sample *)
(* ===================================================================== *)

Section ExtractionFacts.
Context {Waveform Features Stats : Type}.
Variable w : @World Waveform Features Stats.
Abbreviation state := (@state Features Stats).
Abbreviation M := (@M Features Stats).

Lemma dataset_features_cons (it : item) (data : list item) (feats : list Features) :
  dataset_features w (it :: data) = Some feats →
  ∃ wv f feats',
    w_get_waveform w (i_wav_path it) (i_n_frames it) (i_offset it) = Some wv
    ∧ w_extract_fbank_features w wv (i_sample_rate it) = Some f
    ∧ dataset_features w data = Some feats'
    ∧ feats = f :: feats'.
Proof.
  unfold dataset_features. intros H. simpl in H.
  destruct (w_get_waveform w _ _ _) as [wv|] eqn:Hw; [|done]. simpl in H.
  destruct (w_extract_fbank_features w wv _) as [f|] eqn:Hf; [|done]. simpl in H.
  destruct (mapM _ data) as [feats'|] eqn:Hm; [|done]. simpl in H.
  injection H as <-. by exists wv, f, feats'.
Qed.

Lemma dataset_features_length (data : list item) (feats : list Features) :
  dataset_features w data = Some feats → length feats = length data.
Proof.
  revert feats. induction data as [|it data IH]; intros feats H.
  - by injection H as <-.
  - apply dataset_features_cons in H as (wv & f & feats' & _ & _ & H & ->).
    simpl. f_equal. by apply IH.
Qed.

Lemma for_dataset_cons {S}
    (body : S → Waveform * Z * string * string * string * string → M S)
    (s0 : S) (it : item) (data : list item) (st : state) :
  for_dataset w body s0 (it :: data) st
  = match MUSTC_getitem w it st with
    | (Ok x, st1) =>
        match body s0 x st1 with
        | (Ok s1, st2) => for_dataset w body s1 data st2
        | (Raise e, st2) => (Raise e, st2)
        end
    | (Raise e, st1) => (Raise e, st1)
    end.
Proof.
  unfold for_dataset. cbn [foldM]. rewrite !bind_eq.
  destruct (MUSTC_getitem w it st) as [[x|e] st1]; reflexivity.
Qed.

Lemma getitem_eq (it : item) (wv : Waveform) (st : state) :
  w_get_waveform w (i_wav_path it) (i_n_frames it) (i_offset it) = Some wv →
  MUSTC_getitem w it st
  = (Ok (wv, i_sample_rate it, i_src_utt it, i_tgt_utt it, i_spk_id it,
         i_utt_id it),
     log [EGetWaveform (i_wav_path it) (i_n_frames it) (i_offset it)] st).
Proof.
  intros H. unfold MUSTC_getitem.
  erewrite bind_ok; [reflexivity|].
  unfold get_waveform. erewrite bind_ok by apply emit_eq. by rewrite H.
Qed.

Lemma extract_item_eq (g : bool) (cap : Z) (feature_root : string)
    (dir : gmap string Features) (gl : list Features)
    (wv : Waveform) (sr : Z) (a b c utt : string) (f : Features) (st : state) :
  w_extract_fbank_features w wv sr = Some f →
  extract_item w g cap feature_root (dir, gl) (wv, sr, a, b, c, utt) st
  = (Ok (<[utt +:+ ".npy" := f]> dir,
         if g && (Z.of_nat (length gl) <? cap)%Z then gl ++ [f] else gl),
     log [EExtractFbank sr; ENpSave (feature_root </> (utt +:+ ".npy"))] st).
Proof.
  intros H. unfold extract_item.
  erewrite bind_ok; cycle 1.
  { unfold extract_fbank_features. erewrite bind_ok by apply emit_eq. by rewrite H. }
  erewrite bind_ok; cycle 1.
  { unfold np_save. erewrite bind_ok by apply emit_eq. reflexivity. }
  by rewrite log_log.
Qed.

(** The extraction loop, run to its end. *)
Lemma extract_loop (g : bool) (cap : Z) (feature_root : string)
    (data : list item) (feats : list Features)
    (dir : gmap string Features) (gl : list Features) (st : state) :
  dataset_features w data = Some feats →
  for_dataset w (extract_item w g cap feature_root) (dir, gl) data st
  = (Ok (saved dir data feats, sample_after g cap gl feats),
     log (concat (extract_events feature_root <$> data)) st).
Proof.
  revert feats dir gl st. induction data as [|it data IH]; intros feats dir gl st H.
  - injection H as <-. unfold log. simpl. rewrite app_nil_r. by destruct st.
  - apply dataset_features_cons in H as (wv & f & feats' & Hw & Hf & H & ->).
    rewrite for_dataset_cons, (getitem_eq _ _ _ Hw), (extract_item_eq _ _ _ _ _ _ _ _ _ _ _ _ _ Hf).
    rewrite (IH feats' _ _ _ H), !log_log. reflexivity.
Qed.

Lemma sample_after_cons (g : bool) (cap : Z) (gl : list Features)
    (f : Features) (feats : list Features) :
  sample_after g cap gl (f :: feats)
  = sample_after g cap
      (if g && (Z.of_nat (length gl) <? cap)%Z then gl ++ [f] else gl) feats.
Proof. reflexivity. Qed.

Lemma sample_after_off (cap : Z) (gl feats : list Features) :
  sample_after false cap gl feats = gl.
Proof.
  revert gl. induction feats as [|f feats IH]; intros gl; [done|].
  rewrite sample_after_cons. apply IH.
Qed.

Lemma sample_after_on (cap : Z) (gl feats : list Features) :
  (Z.of_nat (length gl) ≤ cap)%Z →
  sample_after true cap gl feats
  = gl ++ take (Z.to_nat cap - length gl) feats.
Proof.
  revert gl. induction feats as [|f feats IH]; intros gl Hle.
  - by rewrite take_nil, app_nil_r.
  - rewrite sample_after_cons. cbn [andb].
    destruct (Z.ltb_spec (Z.of_nat (length gl)) cap) as [Hlt|Hge].
    + rewrite IH by (rewrite length_app; simpl; lia).
      rewrite length_app. simpl.
      replace (Z.to_nat cap - length gl) with (S (Z.to_nat cap - (length gl + 1)))
        by lia.
      simpl. by rewrite <- app_assoc.
    + rewrite IH by done.
      replace (Z.to_nat cap - length gl) with 0 by lia. done.
Qed.

Lemma sample_after_capped (g : bool) (cap : Z) (gl feats : list Features) :
  (Z.of_nat (length gl) ≤ cap)%Z →
  (Z.of_nat (length (sample_after g cap gl feats)) ≤ cap)%Z.
Proof.
  revert gl. induction feats as [|f feats IH]; intros gl Hle; [done|].
  rewrite sample_after_cons. apply IH.
  destruct g; cbn [andb]; [|done].
  destruct (Z.ltb_spec (Z.of_nat (length gl)) cap); [|done].
  rewrite length_app. simpl. lia.
Qed.

Lemma dataset_features_take (n : nat) (data : list item) (feats : list Features) :
  dataset_features w data = Some feats →
  dataset_features w (take n data) = Some (take n feats).
Proof.
  revert data feats. induction n as [|n IH]; intros data feats H; [done|].
  destruct data as [|it data].
  - by injection H as <-.
  - apply dataset_features_cons in H as (wv & f & feats' & Hw & Hf & H & ->).
    cbn [take]. unfold dataset_features in *. cbn [mapM].
    rewrite Hw. cbn [mbind option_bind]. rewrite Hf. cbn [mbind option_bind].
    by rewrite (IH _ _ H).
Qed.

Lemma cal_gcmvn_stats_eq (l : list Features) (stats : Stats) (st : state) :
  w_cal_gcmvn_stats w l = Some stats →
  cal_gcmvn_stats w l st = (Ok stats, log [ECalGcmvnStats (length l)] st).
Proof.
  intros H. unfold cal_gcmvn_stats.
  erewrite bind_ok by apply emit_eq. by rewrite H.
Qed.

(** The body of the loop over the splits in the extraction pass, when the
    dataset is built and every window decodes and extracts. *)
Lemma extract_split_eq (args : Args) (root lang out feature_root split : string)
    (dir : gmap string Features) (st st1 : state)
    (data : list item) (feats : list Features) :
  MUSTC_init w root lang split
             (log [EPrint ("Fetching split " +:+ split +:+ "...")] st)
    = (Ok data, st1) →
  dataset_features w data = Some feats →
  extract_split w args root lang out feature_root dir split st
  = if bool_decide (split = "train")
       && bool_decide (a_cmvn_type args = cmvn_global)
    then
      let st2 :=
        log ([EPrint "Extracting log mel filter bank features...";
              EPrint "And estimating cepstral mean and variance stats..."]
             ++ concat (extract_events feature_root <$> data)) st1 in
      let sample := sample_after true (a_gcmvn_max_num args) [] feats in
      match w_cal_gcmvn_stats w sample with
      | Some stats =>
          (Ok (saved dir data feats),
           State (<[out </> "gcmvn.npz" := ANpz stats]> (files st1))
                 (trace st2 ++ [ECalGcmvnStats (length sample);
                                ENpSavez (out </> "gcmvn.npz")]))
      | None => (Raise StatsError, log [ECalGcmvnStats (length sample)] st2)
      end
    else
      (Ok (saved dir data feats),
       log ([EPrint "Extracting log mel filter bank features..."]
            ++ concat (extract_events feature_root <$> data)) st1).
Proof.
  intros Hi Hf. unfold extract_split.
  erewrite bind_ok by apply emit_eq.
  erewrite bind_ok by exact Hi.
  erewrite bind_ok by apply emit_eq.
  cbv zeta.
  destruct (bool_decide (split = "train")
            && bool_decide (a_cmvn_type args = cmvn_global)).
  - erewrite bind_ok by apply emit_eq.
    erewrite bind_ok by (by apply extract_loop).
    rewrite !log_log. cbn [app]. cbv zeta.
    destruct (w_cal_gcmvn_stats w _) as [stats|] eqn:Hs.
    + erewrite bind_ok; cycle 1.
      { erewrite bind_ok by (by apply cal_gcmvn_stats_eq).
        unfold np_savez. erewrite bind_ok by apply emit_eq. reflexivity. }
      cbn [mret M_ret]. rewrite log_log. reflexivity.
    + erewrite bind_raise; [reflexivity|].
      erewrite bind_raise; [reflexivity|].
      unfold cal_gcmvn_stats. erewrite bind_ok by apply emit_eq.
      rewrite Hs, log_log. reflexivity.
  - erewrite bind_ok by reflexivity.
    erewrite bind_ok by (by apply extract_loop).
    cbv iota beta. erewrite bind_ok by reflexivity.
    cbn [mret M_ret]. rewrite !log_log. reflexivity.
Qed.

(** C3.  In the extraction pass over a split whose [N] windows all decode
    and extract, every array is extracted and saved to the feature
    directory.  When the split is ["train"] and the mode is global, the
    arrays are also collected for statistics: the cap is tested with [<]
    before each append, the sample never holds more than [C] arrays, and for
    [C ≥ 0] the statistics are computed from the first [min(N, C)] arrays.
    For every other split or mode no sample is collected and no statistics
    are computed. *)
Theorem C3_statistics_sample_is_capped (args : Args)
    (root lang out feature_root split : string)
    (dir : gmap string Features) (st st1 : state)
    (data : list item) (feats : list Features) :
  (0 ≤ a_gcmvn_max_num args)%Z →
  MUSTC_init w root lang split
             (log [EPrint ("Fetching split " +:+ split +:+ "...")] st)
    = (Ok data, st1) →
  dataset_features w data = Some feats →
  let cap := a_gcmvn_max_num args in
  let sample := take (Z.to_nat cap) feats in
  let loop := concat (extract_events feature_root <$> data) in
  length feats = length data
  ∧ Z.of_nat (length sample) = Z.min (Z.of_nat (length feats)) cap
  ∧ (∀ n s,
       ∃ dir' gcmvn_feature_list s',
         for_dataset w (extract_item w true cap feature_root) (dir, [])
                     (take n data) s
         = (Ok (dir', gcmvn_feature_list), s')
         ∧ (Z.of_nat (length gcmvn_feature_list) ≤ cap)%Z)
  ∧ (split = "train" → a_cmvn_type args = cmvn_global →
     ∀ stats, w_cal_gcmvn_stats w sample = Some stats →
       extract_split w args root lang out feature_root dir split st
       = (Ok (saved dir data feats),
          State (<[out </> "gcmvn.npz" := ANpz stats]> (files st1))
                (trace st1
                 ++ [EPrint "Extracting log mel filter bank features...";
                     EPrint "And estimating cepstral mean and variance stats..."]
                 ++ loop
                 ++ [ECalGcmvnStats (length sample);
                     ENpSavez (out </> "gcmvn.npz")])))
  ∧ (split ≠ "train" ∨ a_cmvn_type args ≠ cmvn_global →
     extract_split w args root lang out feature_root dir split st
     = (Ok (saved dir data feats),
        log ([EPrint "Extracting log mel filter bank features..."] ++ loop) st1)).
Proof.
  intros Hcap Hi Hf cap sample loop.
  assert (Hsample : sample_after true cap [] feats = sample).
  { rewrite sample_after_on by (simpl; lia). simpl. by rewrite Nat.sub_0_r. }
  split; [by eapply dataset_features_length|].
  split; [subst sample; rewrite length_take; lia|].
  split; [|split].
  - intros n s. eexists _, _, _. split.
    + apply extract_loop. by apply dataset_features_take.
    + apply sample_after_capped. simpl. lia.
  - intros -> Hg stats Hs.
    rewrite (extract_split_eq _ _ _ _ _ _ _ _ _ _ _ Hi Hf).
    rewrite !bool_decide_eq_true_2 by done. cbn [andb]. cbv zeta.
    fold cap. rewrite Hsample, Hs. cbn [trace log].
    by rewrite <- !app_assoc.
  - intros H. rewrite (extract_split_eq _ _ _ _ _ _ _ _ _ _ _ Hi Hf).
    assert (bool_decide (split = "train")
            && bool_decide (a_cmvn_type args = cmvn_global) = false) as ->; [|done].
    apply andb_false_iff. destruct H; [left|right]; by apply bool_decide_eq_false.
Qed.

End ExtractionFacts.

(* ===================================================================== *)
(** * What manifest and vocabulary generation leave alone *)
(* ===================================================================== *)

Section QuietFacts.
Context {Waveform Features Stats : Type}.
Variable w : @World Waveform Features Stats.
Variable keep : string.
Abbreviation M := (@M Features Stats).

Lemma quiet_ret {A} (a : A) : quiet keep (mret a : M A).
Proof. intros st. exists []. simpl. by rewrite app_nil_r. Qed.

Lemma quiet_raise {A} (e : exn) : quiet keep (raise e : M A).
Proof. intros st. exists []. simpl. by rewrite app_nil_r. Qed.

Lemma quiet_emit (e : event) :
  extraction_event e = false → quiet keep (emit e : M unit).
Proof. intros He st. exists [e]. simpl. auto. Qed.

Lemma quiet_read_file (p : string) : quiet keep (read_file p : M _).
Proof. intros st. exists []. simpl. by rewrite app_nil_r. Qed.

Lemma quiet_write_file (p : string) (a : artifact) :
  p ≠ keep → quiet keep (write_file p a : M unit).
Proof.
  intros Hp st. exists []. simpl. rewrite app_nil_r.
  by rewrite lookup_insert_ne.
Qed.

Lemma quiet_bind {A B} (m : M A) (f : A → M B) :
  quiet keep m → (∀ a, quiet keep (f a)) → quiet keep (m ≫= f).
Proof.
  intros Hm Hf st. rewrite bind_eq. destruct (Hm st) as (d1 & Ht & Hd & Hk).
  destruct (m st) as [[a|e] st1]; simpl in *.
  - destruct (Hf a st1) as (d2 & Ht2 & Hd2 & Hk2).
    exists (d1 ++ d2). rewrite Ht2, Ht, Hk2, Hk, app_assoc.
    split; [done|]. split; [by apply Forall_app|done].
  - by exists d1.
Qed.

Lemma quiet_lift_opt {A} (o : option A) (e : exn) :
  quiet keep (lift_opt o e : M A).
Proof. destruct o; [apply quiet_ret|apply quiet_raise]. Qed.

Lemma quiet_assert (b : bool) : quiet keep (assert_ b : M unit).
Proof. destruct b; [apply quiet_ret|apply quiet_raise]. Qed.

Lemma quiet_foldM {A S} (body : S → A → M S) (l : list A) (s0 : S) :
  (∀ s x, x ∈ l → quiet keep (body s x)) → quiet keep (foldM body s0 l).
Proof.
  revert s0. induction l as [|x l IH]; intros s0 Hb; simpl.
  - apply quiet_ret.
  - apply quiet_bind; [apply Hb; left|].
    intros s1. apply IH. intros s y Hy. apply Hb. by right.
Qed.

End QuietFacts.

Ltac quiet_step :=
  lazymatch goal with
  | |- quiet _ (mret _) => apply quiet_ret
  | |- quiet _ (raise _) => apply quiet_raise
  | |- quiet _ (emit _) => apply quiet_emit; reflexivity
  | |- quiet _ (print _) => apply quiet_emit; reflexivity
  | |- quiet _ (read_file _) => apply quiet_read_file
  | |- quiet _ (lift_opt _ _) => apply quiet_lift_opt
  | |- quiet _ (assert_ _) => apply quiet_assert
  | |- quiet _ (_ ≫= _) => apply quiet_bind; [|intros ?]
  | |- quiet _ (foldM _ _ _) => apply quiet_foldM; intros ? ? ?
  | |- quiet _ (if ?b then _ else _) => destruct b
  | |- quiet _ (match ?x with _ => _ end) => destruct x
  end.

Section QuietPipeline.
Context {Waveform Features Stats : Type}.
Variable w : @World Waveform Features Stats.
Abbreviation M := (@M Features Stats).

Lemma quiet_MUSTC_init (keep root lang split : string) :
  quiet keep (MUSTC_init w root lang split).
Proof.
  unfold MUSTC_init, is_dir, and_then, open_yaml, open_lines.
  repeat quiet_step.
  unfold gather_group, sf_info_samplerate. repeat quiet_step.
  unfold gather_segment. repeat quiet_step.
Qed.

Lemma quiet_for_dataset {S} (keep : string)
    (body : S → Waveform * Z * string * string * string * string → M S)
    (s0 : S) (data : list item) :
  (∀ s x, quiet keep (body s x)) → quiet keep (for_dataset w body s0 data).
Proof.
  intros Hb. unfold for_dataset, MUSTC_getitem, get_waveform.
  repeat quiet_step. apply Hb.
Qed.

Lemma quiet_manifest_split (args : Args) (lang out : string)
    (zip_manifest : gmap string string) (texts : list string * list string)
    (split : string) :
  split ∈ SPLITS →
  quiet (out </> "fbank80.zip")
        (manifest_split w args lang out zip_manifest texts split).
Proof.
  intros Hs. unfold manifest_split. destruct texts as [ta ts].
  apply quiet_bind; [apply quiet_MUSTC_init|intros data].
  apply quiet_bind.
  { apply quiet_for_dataset. intros [[m su] tu] [[[[[wv sr] s1] t1] sp] u].
    unfold manifest_item. repeat quiet_step. }
  intros [[m su] tu]. apply quiet_bind; [|intros ?; apply quiet_ret].
  unfold forM_. apply quiet_foldM. intros _ t _.
  unfold write_manifest, save_df_to_tsv. repeat quiet_step.
  apply quiet_write_file. by apply tsv_path_ne_zip.
Qed.

Lemma quiet_vocab_task (args : Args) (out : string)
    (train_text_asr train_text_st : list string) (t : task) :
  quiet (out </> "fbank80.zip")
        (vocab_task args out train_text_asr train_text_st t : M unit).
Proof.
  unfold vocab_task.
  set (choice := match t with asr => _ | st => _ end). destruct choice as [tt vs].
  unfold gen_vocab, gen_config_yaml. repeat quiet_step.
  - apply quiet_write_file. apply model_path_ne_zip.
  - apply quiet_write_file. apply config_path_ne_zip.
Qed.

Lemma quiet_after_index (args : Args) (lang out : string)
    (zip_manifest : gmap string string) :
  quiet (out </> "fbank80.zip")
    (print "Generating manifest...";;
     '(train_text_asr, train_text_st) ←
       foldM (manifest_split w args lang out zip_manifest) ([], []) SPLITS;
     forM_ (set_tasks w (a_task args))
           (vocab_task args out train_text_asr train_text_st) : M unit).
Proof.
  apply quiet_bind; [apply quiet_emit; reflexivity|intros _].
  apply quiet_bind.
  - apply quiet_foldM. intros texts split Hs. by apply quiet_manifest_split.
  - intros [ta ts]. unfold forM_. apply quiet_foldM. intros _ t _.
    apply quiet_vocab_task.
Qed.

(** With the archive in place, the extraction branch is not entered. *)
Lemma process_lang_archive_present (args : Args) (root lang : string)
    (st : state) (a : artifact) :
  w_is_dir w (root </> ("en-" +:+ lang)) = true →
  files st !! zip_path_of w args root lang = Some a →
  process_lang w args root lang st
  = let st4 := log [EIsDir (root </> ("en-" +:+ lang));
                    EExists (zip_path_of w args root lang);
                    EPrint "Fetching ZIP manifest...";
                    EGetZipManifest (zip_path_of w args root lang)] st in
    match a with
    | AZip members =>
        (print "Generating manifest...";;
         '(train_text_asr, train_text_st) ←
           foldM (manifest_split w args lang (output_root_of w args root lang)
                    (w_zip_index w (zip_path_of w args root lang) members))
                 ([], []) SPLITS;
         forM_ (set_tasks w (a_task args))
               (vocab_task args (output_root_of w args root lang)
                           train_text_asr train_text_st)) st4
    | _ => (Raise (BadZipFile (zip_path_of w args root lang)), st4)
    end.
Proof.
  intros Hd Hz. unfold process_lang.
  erewrite bind_ok by apply is_dir_eq. rewrite Hd. cbn [negb].
  fold (output_root_of w args root lang). fold (zip_path_of w args root lang).
  erewrite bind_ok by apply path_exists_eq.
  rewrite log_log, files_log, Hz. cbn [app].
  rewrite bool_decide_eq_true_2 by eauto. cbn [negb].
  erewrite bind_ok by reflexivity.
  unfold print at 1. erewrite bind_ok by apply emit_eq. rewrite log_log. cbn [app].
  unfold get_zip_manifest.
  rewrite bind_eq. erewrite bind_ok by apply emit_eq. rewrite log_log. cbn [app].
  rewrite bind_eq. cbn [read_file]. rewrite files_log, Hz.
  by destruct a.
Qed.

(** C5.  When the corpus directory of a language is there and a file
    already sits at the archive path, [process_lang] tests the directory
    and the archive, then goes straight to reading the archive index; from
    there on no call of feature extraction, array saving, statistics or
    packing is made, whatever the outcome, and the file at the archive path
    is still the one found at the start. *)
Theorem C5_existing_archive_skips_extraction (args : Args) (root lang : string)
    (st : state) (a : artifact) :
  w_is_dir w (root </> ("en-" +:+ lang)) = true →
  files st !! zip_path_of w args root lang = Some a →
  ∃ d,
    trace (snd (process_lang w args root lang st))
    = trace st
      ++ [EIsDir (root </> ("en-" +:+ lang));
          EExists (zip_path_of w args root lang);
          EPrint "Fetching ZIP manifest...";
          EGetZipManifest (zip_path_of w args root lang)]
      ++ d
    ∧ Forall (λ e, extraction_event e = false) d
    ∧ files (snd (process_lang w args root lang st))
        !! zip_path_of w args root lang = Some a.
Proof.
  intros Hd Hz. rewrite (process_lang_archive_present _ _ _ _ _ Hd Hz).
  cbv zeta. set (pre := [EIsDir _; EExists _; EPrint _; EGetZipManifest _]).
  assert (Hfin : ∀ r : result unit, ∃ d,
            trace (snd (r, log pre st)) = trace st ++ pre ++ d
            ∧ Forall (λ e, extraction_event e = false) d
            ∧ files (snd (r, log pre st)) !! zip_path_of w args root lang
              = Some a).
  { intros r. exists []. cbn [snd]. rewrite trace_log, files_log, app_nil_r.
    done. }
  destruct a as [members| | | |]; try apply Hfin.
  destruct (quiet_after_index args lang (output_root_of w args root lang)
              (w_zip_index w (zip_path_of w args root lang) members)
              (log pre st))
    as (d & Ht & Hq & Hk).
  exists d. split; [|split; [exact Hq|]].
  - etrans; [exact Ht|]. by rewrite trace_log, <- app_assoc.
  - etrans; [exact Hk|]. by rewrite files_log.
Qed.

End QuietPipeline.

(* ===================================================================== *)
(** * Manifest generation *)
(* ===================================================================== *)

Section ManifestFacts.
Context {Waveform Features Stats : Type}.
Variable w : @World Waveform Features Stats.
Abbreviation state := (@state Features Stats).
Abbreviation M := (@M Features Stats).

Lemma dataset_entries_cons (zm : gmap string string) (it : item)
    (data : list item) (es : list entry) :
  dataset_entries w zm (it :: data) = Some es →
  ∃ wv audio ms es',
    w_get_waveform w (i_wav_path it) (i_n_frames it) (i_offset it) = Some wv
    ∧ zm !! i_utt_id it = Some audio
    ∧ duration_ms (w_size1 w wv) (i_sample_rate it) = Some ms
    ∧ dataset_entries w zm data = Some es'
    ∧ es = Entry (i_utt_id it) audio (n_frames_of_ms ms)
                 (i_src_utt it) (i_tgt_utt it) (i_spk_id it) :: es'.
Proof.
  unfold dataset_entries. intros H. simpl in H.
  destruct (w_get_waveform w _ _ _) as [wv|] eqn:Hw; [|done]. simpl in H.
  destruct (zm !! _) as [audio|] eqn:Ha; [|done]. simpl in H.
  destruct (duration_ms _ _) as [ms|] eqn:Hm; [|done]. simpl in H.
  destruct (mapM _ data) as [es'|] eqn:He; [|done]. simpl in H.
  injection H as <-. by exists wv, audio, ms, es'.
Qed.

Lemma manifest_item_eq (zm : gmap string string) (m : manifest)
    (su tu : list string) (wv : Waveform) (sr : Z) (src tg spk utt : string)
    (audio : string) (ms : Z) (st : state) :
  zm !! utt = Some audio →
  duration_ms (w_size1 w wv) sr = Some ms →
  manifest_item w zm (m, su, tu) (wv, sr, src, tg, spk, utt) st
  = (Ok (Manifest (m_id m ++ [utt]) (m_audio m ++ [audio])
                  (m_n_frames m ++ [n_frames_of_ms ms]) (m_tgt_text m)
                  (m_speaker m ++ [spk]),
         su ++ [src], tu ++ [tg]), st).
Proof. intros Ha Hm. unfold manifest_item. rewrite Ha, Hm. reflexivity. Qed.

(** The manifest loop, run to its end. *)
Lemma manifest_loop (zm : gmap string string) (data : list item)
    (es : list entry) (m : manifest) (su tu : list string) (st : state) :
  dataset_entries w zm data = Some es →
  for_dataset w (manifest_item w zm) (m, su, tu) data st
  = (Ok (Manifest (m_id m ++ (e_id <$> es)) (m_audio m ++ (e_audio <$> es))
                  (m_n_frames m ++ (e_n_frames <$> es)) (m_tgt_text m)
                  (m_speaker m ++ (e_speaker <$> es)),
         su ++ (e_src <$> es), tu ++ (e_tgt <$> es)),
     log ((λ it, EGetWaveform (i_wav_path it) (i_n_frames it) (i_offset it))
            <$> data) st).
Proof.
  revert es m su tu st. induction data as [|it data IH]; intros es m su tu st H.
  - injection H as <-. unfold log. simpl. rewrite !app_nil_r.
    by destruct st, m.
  - apply dataset_entries_cons in H as (wv & audio & ms & es' & Hw & Ha & Hm & H & ->).
    rewrite for_dataset_cons, (getitem_eq _ _ _ _ Hw).
    rewrite (manifest_item_eq _ _ _ _ _ _ _ _ _ _ _ _ _ Ha Hm).
    rewrite (IH es' _ _ _ _ H), log_log.
    cbn [m_id m_audio m_n_frames m_tgt_text m_speaker].
    rewrite !fmap_cons. cbn [e_id e_audio e_n_frames e_src e_tgt e_speaker].
    by rewrite <- !app_assoc.
Qed.

(** The data frame of a task is the list of the rows of the utterances. *)
Lemma from_dict_rows (es : list entry) (t : task) :
  from_dict (Manifest (e_id <$> es) (e_audio <$> es) (e_n_frames <$> es)
                      (match t with
                       | asr => e_src <$> es
                       | st => e_tgt <$> es
                       end)
                      (e_speaker <$> es))
  = row_of t <$> es.
Proof.
  unfold from_dict. cbn [m_id m_audio m_n_frames m_tgt_text m_speaker].
  induction es as [|e es IH]; [by destruct t|].
  destruct t; cbn in *; by rewrite IH.
Qed.

Lemma foldl_insert_lookup {K V T} `{Countable K} (key : T → K) (val : T → V)
    (l : list T) (fs : gmap K V) (t : T) :
  (∀ t1 t2, key t1 = key t2 → val t1 = val t2) →
  t ∈ l →
  foldl (λ fs t, <[key t := val t]> fs) fs l !! key t = Some (val t).
Proof.
  intros Hkv. induction l as [|x l IH] using rev_ind; intros Hin.
  - by apply elem_of_nil in Hin.
  - rewrite foldl_app. cbn [foldl].
    destruct (decide (key x = key t)) as [Hk|Hk].
    + rewrite Hk, lookup_insert_eq. f_equal. by apply Hkv.
    + rewrite lookup_insert_ne by done. apply IH.
      apply elem_of_app in Hin as [Hin|Hin]; [done|].
      apply list_elem_of_singleton in Hin. by subst.
Qed.

Lemma tsv_path_inj (out split : string) (t1 t2 : task) :
  tsv_path out split t1 = tsv_path out split t2 → t1 = t2.
Proof.
  unfold tsv_path. intros H. apply join_inj_r, String.app_inj in H.
  by destruct t1, t2.
Qed.

(** The loop over the requested tasks writes one manifest per iteration. *)
Lemma write_manifests_eq (out split : string) (es : list entry)
    (tgt_text : list string) (ts : list task) (st : state) :
  forM_ ts (write_manifest w out split (PyStr.startswith split "train")
              (Manifest (e_id <$> es) (e_audio <$> es) (e_n_frames <$> es)
                        tgt_text (e_speaker <$> es))
              (e_src <$> es) (e_tgt <$> es)) st
  = (Ok tt,
     State (foldl (λ fs t, <[tsv_path out split t := ATsv (written_rows w split es t)]> fs)
                  (files st) ts)
           (trace st ++ ((λ t, ESaveTsv (tsv_path out split t)) <$> ts))).
Proof.
  revert st. induction ts as [|t ts IH]; intros st.
  - simpl. rewrite app_nil_r. by destruct st.
  - unfold forM_ in *. cbn [foldM]. erewrite bind_ok; cycle 1.
    { unfold write_manifest, save_df_to_tsv.
      cbn [m_id m_audio m_n_frames m_tgt_text m_speaker].
      rewrite from_dict_rows. erewrite bind_ok by apply emit_eq. reflexivity. }
    rewrite IH. cbn [files trace log foldl fmap list_fmap].
    by rewrite <- app_assoc.
Qed.

(** The body of the manifest loop over the splits, run to its end. *)
Lemma manifest_split_eq (args : Args) (lang out : string)
    (zm : gmap string string) (ta ts : list string) (split : string)
    (st st1 : state) (data : list item) (es : list entry) :
  MUSTC_init w (a_data_root args) lang split st = (Ok data, st1) →
  dataset_entries w zm data = Some es →
  manifest_split w args lang out zm (ta, ts) split st
  = (Ok (if PyStr.startswith split "train"
         then (ta ++ (e_src <$> es), ts ++ (e_tgt <$> es)) else (ta, ts)),
     State (foldl (λ fs t, <[tsv_path out split t := ATsv (written_rows w split es t)]> fs)
                  (files st1) (set_tasks w (a_task args)))
           (trace st1
            ++ ((λ it, EGetWaveform (i_wav_path it) (i_n_frames it) (i_offset it))
                  <$> data)
            ++ ((λ t, ESaveTsv (tsv_path out split t))
                  <$> set_tasks w (a_task args)))).
Proof.
  intros Hi He. unfold manifest_split.
  erewrite bind_ok by exact Hi.
  erewrite bind_ok by (by apply manifest_loop).
  cbn [app]. erewrite bind_ok by apply write_manifests_eq.
  cbn [mret M_ret]. rewrite files_log, trace_log, <- app_assoc. reflexivity.
Qed.

Lemma train_split_flag (split : string) :
  split ∈ SPLITS → PyStr.startswith split "train" = bool_decide (split = "train").
Proof.
  unfold SPLITS. intros Hin.
  repeat (apply elem_of_cons in Hin as [->|Hin]; [done|]).
  by apply elem_of_nil in Hin.
Qed.

(** C7.  In the manifest pass over a split of [SPLITS], the flag handed to
    the length filter is set for ["train"] and for no other split.  So the
    manifest written for a task keeps every row of a dev or test split,
    also the rows that fail the filter, and keeps of the training split
    exactly the rows that pass it. *)
Theorem C7_length_filter_only_for_train (args : Args) (lang out : string)
    (zm : gmap string string) (texts : list string * list string)
    (split : string) (st st1 : state) (data : list item) (es : list entry)
    (t : task) :
  world_ok w →
  split ∈ SPLITS →
  t ∈ a_task args →
  MUSTC_init w (a_data_root args) lang split st = (Ok data, st1) →
  dataset_entries w zm data = Some es →
  ∃ texts' st' written,
    manifest_split w args lang out zm texts split st = (Ok texts', st')
    ∧ files st' !! tsv_path out split t = Some (ATsv written)
    ∧ (split ≠ "train" → written = row_of t <$> es)
    ∧ (split = "train" →
       written = List.filter (λ r, negb (fails_length_filter w r)) (row_of t <$> es))
    ∧ (∀ e, e ∈ es → fails_length_filter w (row_of t e) = true →
       (row_of t e ∈ written ↔ split ≠ "train")).
Proof.
  intros [_ Hto] Hs Ht Hi He. destruct texts as [ta ts].
  eexists _, _, (written_rows w split es t).
  split; [by apply manifest_split_eq|]. cbn [files].
  assert (Hw_test : split ≠ "train" → written_rows w split es t = row_of t <$> es).
  { intros Hne. unfold written_rows.
    by rewrite train_split_flag, bool_decide_eq_false_2. }
  assert (Hw_train : split = "train" →
            written_rows w split es t
            = List.filter (λ r, negb (fails_length_filter w r)) (row_of t <$> es)).
  { intros ->. reflexivity. }
  split; [|split; [done|split; [done|]]].
  - apply (foldl_insert_lookup (tsv_path out split)
             (λ t, ATsv (written_rows w split es t))).
    + intros t1 t2 H. by rewrite (tsv_path_inj _ _ _ _ H).
    + by apply (set_iteration _ _ Hto).
  - intros e Hin Hfail. destruct (decide (split = "train")) as [Heq|Hne].
    + rewrite (Hw_train Heq). split; [|done].
      rewrite list_elem_of_In, filter_In, Hfail. by intros [_ ?].
    + rewrite (Hw_test Hne). split; [done|]. intros _.
      by apply list_elem_of_fmap_2.
Qed.

(** C9, as the code has it.  For a split of [SPLITS] and both tasks
    requested, the two manifests are cut from one sequence of utterances:
    row by row the data frames agree on id, audio pointer, frame count and
    speaker, and carry the English text for [asr] and the target-language
    text for [st].  The manifests of a dev or test split are these data
    frames, so they have the same rows in the same order in the four shared
    columns.  The manifests of the training split are what the length filter
    keeps of each data frame. *)
Theorem C9_manifests_of_one_split (args : Args) (lang out : string)
    (zm : gmap string string) (texts : list string * list string)
    (split : string) (s0 s1 : state) (data : list item) (es : list entry) :
  world_ok w →
  split ∈ SPLITS →
  asr ∈ a_task args → st ∈ a_task args →
  MUSTC_init w (a_data_root args) lang split s0 = (Ok data, s1) →
  dataset_entries w zm data = Some es →
  ∃ texts' s' rows_asr rows_st,
    manifest_split w args lang out zm texts split s0 = (Ok texts', s')
    ∧ files s' !! tsv_path out split asr = Some (ATsv rows_asr)
    ∧ files s' !! tsv_path out split st = Some (ATsv rows_st)
    ∧ (split = "train" →
       rows_asr = List.filter (λ r, negb (fails_length_filter w r)) (row_of asr <$> es)
       ∧ rows_st = List.filter (λ r, negb (fails_length_filter w r)) (row_of st <$> es))
    ∧ (split ≠ "train" →
       r_id <$> rows_asr = r_id <$> rows_st
       ∧ r_audio <$> rows_asr = r_audio <$> rows_st
       ∧ r_n_frames <$> rows_asr = r_n_frames <$> rows_st
       ∧ r_speaker <$> rows_asr = r_speaker <$> rows_st
       ∧ r_tgt_text <$> rows_asr = e_src <$> es
       ∧ r_tgt_text <$> rows_st = e_tgt <$> es).
Proof.
  intros [_ Hto] Hs Ha Ht Hi He. destruct texts as [ta ts].
  eexists _, _, (written_rows w split es asr), (written_rows w split es st).
  split; [by apply manifest_split_eq|]. cbn [files].
  assert (Hlook : ∀ t, t ∈ a_task args →
            foldl (λ fs t, <[tsv_path out split t := ATsv (written_rows w split es t)]> fs)
                  (files s1) (set_tasks w (a_task args)) !! tsv_path out split t
            = Some (ATsv (written_rows w split es t))).
  { intros t Hin.
    apply (foldl_insert_lookup (tsv_path out split)
             (λ t, ATsv (written_rows w split es t))).
    - intros t1 t2 H. by rewrite (tsv_path_inj _ _ _ _ H).
    - by apply (set_iteration _ _ Hto). }
  split; [by apply Hlook|]. split; [by apply Hlook|]. split.
  - intros ->. split; reflexivity.
  - intros Hne. unfold written_rows.
    rewrite train_split_flag, bool_decide_eq_false_2 by done.
    cbn [filter_manifest_df]. rewrite <- !list_fmap_compose.
    repeat split; reflexivity.
Qed.

End ManifestFacts.

(* ===================================================================== *)
(** * The language loop *)
(* ===================================================================== *)

Section ProcessFacts.
Context {Waveform Features Stats : Type}.
Variable w : @World Waveform Features Stats.
Abbreviation state := (@state Features Stats).

(** An absent corpus directory: one directory test, one printed notice,
    nothing else. *)
Lemma process_lang_skip (args : Args) (root lang : string) (st : state) :
  w_is_dir w (root </> ("en-" +:+ lang)) = false →
  process_lang w args root lang st
  = (Ok tt, log [EIsDir (root </> ("en-" +:+ lang));
                 EPrint ((root </> ("en-" +:+ lang)) +:+ " does not exist. Skipped.")]
                st).
Proof.
  intros H. unfold process_lang.
  erewrite bind_ok by apply is_dir_eq. rewrite H. cbn [negb].
  unfold print. rewrite emit_eq, log_log. reflexivity.
Qed.

(** The extraction pass has no handler: when the constructor raises for a
    split, [process_lang] raises the same exception from the same state. *)
Lemma process_lang_extract_raises (args : Args) (root lang : string) (st : state)
    (before after : list string) (split : string)
    (dir : gmap string Features) (st1 st2 : state) (e : exn) :
  SPLITS = before ++ split :: after →
  w_is_dir w (root </> ("en-" +:+ lang)) = true →
  files st !! zip_path_of w args root lang = None →
  foldM (extract_split w args root lang (output_root_of w args root lang)
                       (w_absolute w (w_tmpdir w) </> "fbank80"))
        ∅ before
        (log [EIsDir (root </> ("en-" +:+ lang));
              EExists (zip_path_of w args root lang)] st)
    = (Ok dir, st1) →
  MUSTC_init w root lang split
             (log [EPrint ("Fetching split " +:+ split +:+ "...")] st1)
    = (Raise e, st2) →
  process_lang w args root lang st = (Raise e, st2).
Proof.
  intros HS Hd Hz Hb Hi. unfold process_lang.
  erewrite bind_ok by apply is_dir_eq. rewrite Hd. cbn [negb].
  fold (output_root_of w args root lang). fold (zip_path_of w args root lang).
  erewrite bind_ok by apply path_exists_eq.
  rewrite log_log, files_log, Hz. cbn [app].
  rewrite bool_decide_eq_false_2 by (intros [? ?]; discriminate). cbn [negb].
  apply bind_raise, bind_raise.
  rewrite HS, foldM_app, Hb. cbn [foldM].
  apply bind_raise. unfold extract_split.
  erewrite bind_ok by apply emit_eq.
  apply bind_raise. exact Hi.
Qed.

(** The language loop has no handler either: the exception of one language
    ends the run, and the languages after it are not visited. *)
Lemma process_aborts (args : Args) (st st1 st2 : state)
    (before after : list string) (lang : string) (e : exn) :
  set_langs w (a_lang args) = before ++ lang :: after →
  forM_ before (process_lang w args (w_absolute w (a_data_root args))) st
    = (Ok tt, st1) →
  process_lang w args (w_absolute w (a_data_root args)) lang st1 = (Raise e, st2) →
  process w args st = (Raise e, st2).
Proof.
  intros Hl H1 H2. unfold process. rewrite Hl. eapply forM_abort; eauto.
Qed.

Lemma process_without_duplicates (args : Args) (st : state) :
  process w (without_duplicates args) st = process w args st.
Proof.
  unfold process, process_lang, manifest_split, set_langs, set_tasks,
    without_duplicates.
  cbn [a_data_root a_output a_task a_lang].
  rewrite !distinct_idemp. reflexivity.
Qed.

(** C4, as the code has it.  A corpus directory that is absent is skipped
    with a printed notice.  A failure of the constructor, such as the
    assertion on the transcript count or on the [data]/[wav]/[txt]
    directories, is not caught anywhere: it leaves [process_lang], and it
    ends the language loop, so the languages later in the iteration order
    are not processed. *)
Theorem C4_integrity_failure_aborts_run (args : Args) :
  (∀ root lang (st : state),
     w_is_dir w (root </> ("en-" +:+ lang)) = false →
     process_lang w args root lang st
     = (Ok tt, log [EIsDir (root </> ("en-" +:+ lang));
                    EPrint ((root </> ("en-" +:+ lang))
                            +:+ " does not exist. Skipped.")] st))
  ∧ (∀ root lang (st st1 st2 : state) before split after dir e,
       SPLITS = before ++ split :: after →
       w_is_dir w (root </> ("en-" +:+ lang)) = true →
       files st !! zip_path_of w args root lang = None →
       foldM (extract_split w args root lang (output_root_of w args root lang)
                            (w_absolute w (w_tmpdir w) </> "fbank80"))
             ∅ before
             (log [EIsDir (root </> ("en-" +:+ lang));
                   EExists (zip_path_of w args root lang)] st)
         = (Ok dir, st1) →
       MUSTC_init w root lang split
                  (log [EPrint ("Fetching split " +:+ split +:+ "...")] st1)
         = (Raise e, st2) →
       process_lang w args root lang st = (Raise e, st2))
  ∧ (∀ (st st1 st2 : state) before lang after e,
       set_langs w (a_lang args) = before ++ lang :: after →
       forM_ before (process_lang w args (w_absolute w (a_data_root args))) st
         = (Ok tt, st1) →
       process_lang w args (w_absolute w (a_data_root args)) lang st1
         = (Raise e, st2) →
       process w args st = (Raise e, st2)).
Proof.
  split; [|split].
  - intros. by apply process_lang_skip.
  - intros. by eapply process_lang_extract_raises.
  - intros. by eapply process_aborts.
Qed.

End ProcessFacts.

(* ===================================================================== *)
(** * The loops over the requested tasks *)
(* ===================================================================== *)

Section TaskLoopFacts.
Context {Waveform Features Stats : Type}.
Variable w : @World Waveform Features Stats.
Abbreviation state := (@state Features Stats).

Lemma vocab_task_trace (args : Args) (out : string) (ta ts : list string)
    (t : task) (s : state) :
  fst (vocab_task args out ta ts t s) = Ok tt
  ∧ trace (snd (vocab_task args out ta ts t s))
    = trace s ++ vocab_events args out t.
Proof.
  split; [by destruct t|].
  unfold vocab_task, vocab_events, spm_prefix_for, vocab_size_for.
  destruct t; unfold gen_vocab, gen_config_yaml, emit, write_file;
    rewrite !bind_eq; cbn [trace snd]; by rewrite <- app_assoc.
Qed.

(** The vocabulary loop makes one [gen_vocab] call and one
    [gen_config_yaml] call per task it visits. *)
Lemma vocab_loop_trace (args : Args) (out : string) (ta ts : list string)
    (tasks : list task) (s : state) :
  fst (forM_ tasks (vocab_task args out ta ts) s) = Ok tt
  ∧ trace (snd (forM_ tasks (vocab_task args out ta ts) s))
    = trace s ++ concat (vocab_events args out <$> tasks).
Proof.
  revert s. induction tasks as [|t tasks IH]; intros s.
  - split; [done|]. simpl. by rewrite app_nil_r.
  - unfold forM_ in *. cbn [foldM]. rewrite bind_eq.
    destruct (vocab_task_trace args out ta ts t s) as [Hr Ht].
    destruct (vocab_task args out ta ts t s) as [[[]|e] s1]; [|done].
    cbn [fst snd] in *. destruct (IH s1) as [IHr IHt].
    split; [exact IHr|]. rewrite IHt, Ht, fmap_cons. cbn [concat].
    by rewrite <- app_assoc.
Qed.

(** C10.  Repeating a language or a task in the argument lists changes
    nothing: the run on the lists with the repetitions removed has the same
    result, writes the same files and makes the same calls in the same
    order.  The language loop and the task loops visit every requested
    language and task once each; for a split, one manifest is saved per
    requested task, at a path of its own; for a language, the vocabulary
    trainer and the configuration writer are called once per requested
    task. *)
Theorem C10_duplicate_arguments_have_no_effect (args : Args) (s : state) :
  world_ok w →
  process w args s = process w (without_duplicates args) s
  ∧ NoDup (set_langs w (a_lang args))
  ∧ (∀ lang, lang ∈ set_langs w (a_lang args) ↔ lang ∈ a_lang args)
  ∧ NoDup (set_tasks w (a_task args))
  ∧ (∀ t, t ∈ set_tasks w (a_task args) ↔ t ∈ a_task args)
  ∧ (∀ lang out zm texts split (s0 s1 : state) data es,
       MUSTC_init w (a_data_root args) lang split s0 = (Ok data, s1) →
       dataset_entries w zm data = Some es →
       trace (snd (manifest_split w args lang out zm texts split s0))
       = trace s1
         ++ ((λ it, EGetWaveform (i_wav_path it) (i_n_frames it) (i_offset it))
               <$> data)
         ++ ((λ t, ESaveTsv (tsv_path out split t)) <$> set_tasks w (a_task args)))
  ∧ (∀ out split,
       NoDup ((λ t, ESaveTsv (tsv_path out split t)) <$> set_tasks w (a_task args)))
  ∧ (∀ out ta ts (s0 : state),
       fst (forM_ (set_tasks w (a_task args)) (vocab_task args out ta ts) s0)
       = Ok tt
       ∧ trace (snd (forM_ (set_tasks w (a_task args))
                           (vocab_task args out ta ts) s0))
         = trace s0 ++ concat (vocab_events args out <$> set_tasks w (a_task args))).
Proof.
  intros [Hl Ht].
  destruct (set_iteration (w_lang_order w) (a_lang args) Hl) as [Hl1 Hl2].
  destruct (set_iteration (w_task_order w) (a_task args) Ht) as [Ht1 Ht2].
  rewrite process_without_duplicates. unfold set_langs, set_tasks.
  repeat split; try done.
  - by apply Hl2.
  - by apply Hl2.
  - by apply Ht2.
  - by apply Ht2.
  - intros lang out zm [ta ts] split s0 s1 data es Hi He.
    by rewrite (manifest_split_eq w args lang out zm ta ts split s0 s1 data es Hi He).
  - intros out split. apply NoDup_fmap_2; [|exact Ht1].
    intros t1 t2 H. injection H as H. by apply tsv_path_inj in H.
  - apply vocab_loop_trace.
  - apply vocab_loop_trace.
Qed.

End TaskLoopFacts.

(* ===================================================================== *)
(** * Numbered names *)
(* ===================================================================== *)

Section NumberedNames.

Lemma pretty_N_char_digit (x : N) : pretty_N_char x ≠ "_"%char.
Proof. unfold pretty_N_char. by repeat case_match. Qed.

Lemma pretty_N_go_no_underscore (x : N) (s : string) :
  (∀ a b, s ≠ a +:+ String "_" b) → ∀ a b, pretty_N_go x s ≠ a +:+ String "_" b.
Proof.
  revert s. induction (N.lt_wf_0 x) as [x _ IH]; intros s Hs.
  destruct (decide (x = 0)%N) as [->|Hx]; [by rewrite pretty_N_go_0|].
  rewrite pretty_N_go_step by lia. apply IH; [apply N.div_lt; lia|].
  intros [|c a] b.
  - intros [= Hc _]. by apply pretty_N_char_digit in Hc.
  - intros [= _ H]. by apply Hs in H.
Qed.

Lemma pretty_nat_no_underscore (i : nat) (a b : string) :
  pretty i ≠ a +:+ String "_" b.
Proof.
  unfold pretty, pretty_nat, pretty, pretty_N.
  destruct (decide (N.of_nat i = 0)%N).
  - by destruct a as [|c [|]].
  - apply pretty_N_go_no_underscore. by intros [|? [|]] ?.
Qed.

(** A stem followed by ["_"] and a number determines both. *)
Lemma numbered_inj (s1 s2 : string) (i j : nat) :
  s1 +:+ "_" +:+ pretty i = s2 +:+ "_" +:+ pretty j → s1 = s2 ∧ i = j.
Proof.
  change ("_" +:+ ?x) with (String "_" x).
  revert s2. induction s1 as [|c s1 IH]; intros [|d s2].
  - intros [= H]. apply pretty_nat_inj in H. by subst.
  - intros [= _ H]. by apply pretty_nat_no_underscore in H.
  - intros [= _ H]. symmetry in H. by apply pretty_nat_no_underscore in H.
  - intros [= -> H]. apply IH in H as [-> ->]. done.
Qed.

Lemma elem_of_concat {A} (x : A) (ls : list (list A)) :
  x ∈ concat ls ↔ ∃ l, l ∈ ls ∧ x ∈ l.
Proof.
  induction ls as [|l ls IH]; cbn [concat].
  - split; [by intros ?%elem_of_nil|]. by intros (? & ?%elem_of_nil & _).
  - rewrite elem_of_app, IH. split.
    + intros [H|(l' & H1 & H2)]; [exists l; split; [left|done]|].
      exists l'. split; [by right|done].
    + intros (l' & [->|H1]%elem_of_cons & H2); [by left|]. right. eauto.
Qed.

(** Names numbered from 0 behind the stems of consecutive non-empty groups
    are pairwise distinct exactly when the stems are. *)
Lemma numbered_NoDup (groups : list (string * nat)) :
  Forall (λ g, 0 < g.2) groups →
  NoDup (concat ((λ g, (λ i, g.1 +:+ "_" +:+ pretty i) <$> seq 0 g.2) <$> groups))
  ↔ NoDup groups.*1.
Proof.
  induction 1 as [|[s n] groups Hn Hpos IH]; cbn [fmap list_fmap concat fst snd] in *.
  - split; constructor.
  - rewrite NoDup_app, NoDup_cons, IH.
    assert (Hself : NoDup ((λ i, s +:+ "_" +:+ pretty i) <$> seq 0 n)).
    { apply NoDup_fmap_2; [|apply NoDup_seq].
      intros i j H. by apply numbered_inj in H as [_ ?]. }
    assert (Hmem : ∀ x, x ∈ concat ((λ g : string * nat,
                     (λ i, g.1 +:+ "_" +:+ pretty i) <$> seq 0 g.2) <$> groups)
                   ↔ ∃ s' n' i, (s', n') ∈ groups ∧ i < n' ∧ x = s' +:+ "_" +:+ pretty i).
    { intros x. rewrite elem_of_concat. split.
      - intros (l & ([s' n'] & -> & Hg)%list_elem_of_fmap
                  & (i & -> & Hi%elem_of_seq)%list_elem_of_fmap).
        exists s', n', i. cbn in *. split; [done|]. split; [lia|done].
      - intros (s' & n' & i & Hg & Hi & ->).
        exists ((λ i, s' +:+ "_" +:+ pretty i) <$> seq 0 n'). split.
        + apply list_elem_of_fmap. by exists (s', n').
        + apply list_elem_of_fmap. exists i. split; [done|].
          apply elem_of_seq. lia. }
    split.
    + intros (_ & Hdis & Hrest). split; [|done].
      intros ((s' & n') & Hs & Hin)%list_elem_of_fmap. cbn in Hs. subst s'.
      apply (Hdis (s +:+ "_" +:+ pretty 0)).
      * apply list_elem_of_fmap. exists 0. split; [done|]. apply elem_of_seq. lia.
      * apply Hmem. exists s, n', 0. split; [done|]. split; [|done].
        rewrite Forall_forall in Hpos. by apply (Hpos (s, n')).
    + intros [Hs Hnd]. split; [done|]. split; [|done].
      intros x (i & -> & _)%list_elem_of_fmap (s' & n' & j & Hg & _ & Heq)%Hmem.
      apply numbered_inj in Heq as [<- _]. apply Hs.
      apply list_elem_of_fmap. by exists (s, n').
Qed.

End NumberedNames.

(* ===================================================================== *)
(** * The entries of a dataset *)
(* ===================================================================== *)

Section InitFacts.
Context {Waveform Features Stats : Type}.
Variable w : @World Waveform Features Stats.
Abbreviation state := (@state Features Stats).

Lemma gather_segment_inv (wav_path : string) (rate : Z) (data data' : list item)
    (ix : nat * segment) (st st' : state) :
  gather_segment wav_path rate data ix st = (Ok data', st') →
  st' = st ∧ ∃ it, item_of wav_path rate ix = Some it ∧ data' = data ++ [it].
Proof.
  destruct ix as [i sg]. unfold gather_segment, item_of. cbn [fst snd].
  destruct (seconds_to_samples (offset sg) rate) as [o|]; [|done].
  destruct (seconds_to_samples (duration sg) rate) as [n|]; [|done].
  intros [= <- <-]. eauto.
Qed.

Lemma gather_segments_inv (wav_path : string) (rate : Z)
    (ixs : list (nat * segment)) (data data' : list item) (st st' : state) :
  foldM (gather_segment wav_path rate) data ixs st = (Ok data', st') →
  st' = st
  ∧ ∃ new, Forall2 (λ ix it, item_of wav_path rate ix = Some it) ixs new
           ∧ data' = data ++ new.
Proof.
  revert data st. induction ixs as [|ix ixs IH]; intros data st; cbn [foldM].
  - intros [= <- <-]. split; [done|]. exists []. by rewrite app_nil_r.
  - rewrite bind_eq.
    destruct (gather_segment wav_path rate data ix st) as [[d1|e] s1] eqn:H1; [|done].
    apply gather_segment_inv in H1 as (-> & it & Hit & ->).
    intros (-> & new & Hnew & ->)%IH. split; [done|].
    exists (it :: new). split; [by constructor|]. by rewrite <- app_assoc.
Qed.

Lemma gather_group_inv (wav_root : string) (data data' : list item)
    (kg : string * list segment) (st st' : state) :
  gather_group w wav_root data kg st = (Ok data', st') →
  st' = log [ESfInfo (wav_root </> kg.1)] st
  ∧ ∃ new, group_items w wav_root kg new ∧ data' = data ++ new.
Proof.
  destruct kg as [k g]. unfold gather_group, sf_info_samplerate. cbn [fst snd].
  rewrite bind_eq. erewrite bind_ok by apply emit_eq.
  destruct (w_samplerate w (wav_root </> k)) as [rate|] eqn:Hr; [|done].
  cbn [lift_opt mret M_ret].
  intros (-> & new & Hnew & ->)%gather_segments_inv. split; [done|].
  exists new. split; [|done]. by exists rate.
Qed.

Lemma gather_groups_inv (wav_root : string) (groups : list (string * list segment))
    (data data' : list item) (st st' : state) :
  foldM (gather_group w wav_root) data groups st = (Ok data', st') →
  st' = log ((λ kg, ESfInfo (wav_root </> kg.1)) <$> groups) st
  ∧ ∃ news, Forall2 (group_items w wav_root) groups news
            ∧ data' = data ++ concat news.
Proof.
  revert data st. induction groups as [|kg groups IH]; intros data st; cbn [foldM].
  - intros [= <- <-]. split.
    + unfold log. simpl. rewrite app_nil_r. by destruct st.
    + exists []. by rewrite app_nil_r.
  - rewrite bind_eq.
    destruct (gather_group w wav_root data kg st) as [[d1|e] s1] eqn:H1; [|done].
    apply gather_group_inv in H1 as (-> & new & Hnew & ->).
    intros (-> & news & Hnews & ->)%IH. split.
    + by rewrite log_log.
    + exists (new :: news). split; [by constructor|].
      cbn [concat]. by rewrite <- app_assoc.
Qed.

Lemma bind_inv_ok {A B} (m : M A) (f : A → M B) (s s' : state) (b : B) :
  (m ≫= f) s = (Ok b, s') → ∃ a s1, m s = (Ok a, s1) ∧ f a s1 = (Ok b, s').
Proof. rewrite bind_eq. destruct (m s) as [[a|e] s1]; [eauto|done]. Qed.

Lemma lift_opt_inv_ok {A} (o : option A) (e : exn) (s s' : state) (a : A) :
  lift_opt o e s = (Ok a, s') → o = Some a ∧ s' = s.
Proof. destruct o; [by intros [= <- <-]|done]. Qed.

Lemma assert_inv_ok (b : bool) (s s' : state) (u : unit) :
  assert_ b s = (Ok u, s') → b = true ∧ s' = s.
Proof. destruct b; [by intros [= <- <-]|done]. Qed.

Lemma open_inv_ok {A} (read : string → option A) (p : string) (s s' : state) (a : A) :
  (emit (EOpen p);; lift_opt (read p) (FileNotFoundError p)) s = (Ok a, s') →
  read p = Some a ∧ s' = log [EOpen p] s.
Proof.
  erewrite bind_ok by apply emit_eq. by intros [? ?]%lift_opt_inv_ok.
Qed.

(** What a returning constructor has found on the way. *)
Lemma MUSTC_init_inv (root lang split : string) (st st' : state) (data : list item) :
  MUSTC_init w root lang split st = (Ok data, st') →
  let _root := root </> ("en-" +:+ lang) </> "data" </> split in
  split ∈ SPLITS ∧ lang ∈ LANGUAGES
  ∧ w_is_dir w _root = true
  ∧ w_is_dir w (_root </> "wav") = true
  ∧ w_is_dir w (_root </> "txt") = true
  ∧ ∃ ys ens tgts,
      w_yaml w (_root </> "txt" </> (split +:+ ".yaml")) = Some ys
      ∧ w_lines w (_root </> "txt" </> (split +:+ ".en")) = Some ens
      ∧ w_lines w (_root </> "txt" </> (split +:+ "." +:+ lang)) = Some tgts
      ∧ length ys = length ens ∧ length ys = length tgts
      ∧ foldM (gather_group w (_root </> "wav")) []
              (PyIter.groupby wav (merged_segments ys ens tgts))
              (log [EIsDir _root; EIsDir (_root </> "wav"); EIsDir (_root </> "txt");
                    EOpen (_root </> "txt" </> (split +:+ ".yaml"));
                    EOpen (_root </> "txt" </> (split +:+ ".en"));
                    EOpen (_root </> "txt" </> (split +:+ "." +:+ lang))] st)
        = (Ok data, st').
Proof.
  intros H _root. unfold MUSTC_init in H. fold _root in H.
  apply bind_inv_ok in H as ([] & s0 & [Hv ->]%assert_inv_ok & H).
  apply andb_true_iff in Hv as [Hs%bool_decide_eq_true Hl%bool_decide_eq_true].
  erewrite bind_ok in H by apply is_dir_eq.
  destruct (w_is_dir w _root) eqn:Hd1; cbn [and_then] in H; cycle 1.
  { by rewrite !bind_eq in H. }
  erewrite bind_ok in H by apply is_dir_eq.
  destruct (w_is_dir w (_root </> "wav")) eqn:Hd2; cbn [and_then] in H; cycle 1.
  { by rewrite !bind_eq in H. }
  erewrite bind_ok in H by apply is_dir_eq.
  destruct (w_is_dir w (_root </> "txt")) eqn:Hd3; cbn [assert_] in H; cycle 1.
  { by rewrite !bind_eq in H. }
  erewrite bind_ok in H by reflexivity.
  apply bind_inv_ok in H as (ys & s1 & [Hy ->]%open_inv_ok & H).
  apply bind_inv_ok in H as (ens & s2 & [He ->]%open_inv_ok & H).
  apply bind_inv_ok in H as ([] & s3 & [Hle ->]%assert_inv_ok & H).
  apply bind_inv_ok in H as (tgts & s4 & [Ht ->]%open_inv_ok & H).
  apply bind_inv_ok in H as ([] & s5 & [Hlt ->]%assert_inv_ok & H).
  rewrite length_fmap in Hle, Hlt.
  apply Nat.eqb_eq in Hle, Hlt.
  repeat (split; [done|]). exists ys, ens, tgts. repeat (split; [done|]).
  rewrite !log_log in H. exact H.
Qed.


Lemma merged_segments_length (ys : list yaml_segment) (ens tgts : list string) :
  length ys = length ens → length ys = length tgts →
  length (merged_segments ys ens tgts) = length ys.
Proof.
  intros H1 H2. unfold merged_segments.
  rewrite length_zip_with, length_zip, !length_fmap. lia.
Qed.

Lemma enumerate_snd {A} (l : list A) : (PyIter.enumerate l).*2 = l.
Proof.
  unfold PyIter.enumerate. rewrite fmap_imap.
  etrans; [apply (imap_const id)|]. apply list_fmap_id.
Qed.

Lemma enumerate_fst {A} (l : list A) : (PyIter.enumerate l).*1 = seq 0 (length l).
Proof.
  unfold PyIter.enumerate. rewrite fmap_imap.
  rewrite <- (list_fmap_id (seq 0 (length l))). apply (imap_seq_0 l id).
Qed.

Lemma item_of_built (wav_root k : string) (rate : Z) (ix : nat * segment) (it : item) :
  w_samplerate w (wav_root </> k) = Some rate →
  wav ix.2 = k →
  item_of (wav_root </> k) rate ix = Some it →
  built_from w wav_root ix.2 it
  ∧ i_utt_id it = PyPath.stem (wav_root </> k) +:+ "_" +:+ pretty ix.1.
Proof.
  intros Hr Hk. unfold item_of.
  destruct (seconds_to_samples (offset ix.2) rate) as [o|] eqn:Ho; [|done].
  destruct (seconds_to_samples (duration ix.2) rate) as [n|] eqn:Hn; [|done].
  intros [= <-]. unfold built_from. cbn. by rewrite Hk.
Qed.

(** The entries of a group are built from its segments in sorted order and
    carry the numbers 0, 1, ... behind the stem of the recording. *)
Lemma group_items_built (wav_root : string) (kg : string * list segment)
    (new : list item) :
  Forall (λ sg, wav sg = kg.1) kg.2 →
  group_items w wav_root kg new →
  Forall2 (built_from w wav_root) (PyIter.sorted offset kg.2) new
  ∧ i_utt_id <$> new
    = (λ i, PyPath.stem (wav_root </> kg.1) +:+ "_" +:+ pretty i)
        <$> seq 0 (length kg.2).
Proof.
  intros Hk (rate & Hr & Hf).
  assert (Hk' : Forall (λ ix : nat * segment, wav ix.2 = kg.1)
                       (PyIter.enumerate (PyIter.sorted offset kg.2))).
  { apply (Forall_fmap snd (λ sg, wav sg = kg.1)).
    rewrite enumerate_snd, sorted_perm. exact Hk. }
  assert (Hb : Forall2 (λ ix it, built_from w wav_root ix.2 it
                 ∧ i_utt_id it = PyPath.stem (wav_root </> kg.1) +:+ "_" +:+ pretty ix.1)
                 (PyIter.enumerate (PyIter.sorted offset kg.2)) new).
  { clear Hk. induction Hf as [|ix it ixs new Hit Hf IH]; [constructor|].
    apply Forall_cons in Hk' as [Hk1 Hk2].
    constructor; [by eapply item_of_built|by apply IH]. }
  split.
  - rewrite <- (enumerate_snd (PyIter.sorted offset kg.2)) at 1.
    apply Forall2_fmap_l. eapply Forall2_impl; [exact Hb|]. by intros ? ? [? _].
  - rewrite <- (Permutation_length (sorted_perm offset kg.2)).
    rewrite <- enumerate_fst, <- list_fmap_compose.
    clear Hf Hk'. induction Hb as [|ix it ixs new [_ Hid] _ IH]; [done|].
    cbn [fmap list_fmap]. by rewrite IH, Hid.
Qed.

Lemma groups_built (wav_root : string) (segments : list segment)
    (news : list (list item)) :
  Forall2 (group_items w wav_root) (PyIter.groupby wav segments) news →
  (∃ segs, Permutation segs segments
           ∧ Forall2 (built_from w wav_root) segs (concat news))
  ∧ i_utt_id <$> concat news
    = concat ((λ kg, (λ i, PyPath.stem (wav_root </> kg.1) +:+ "_" +:+ pretty i)
                       <$> seq 0 (length kg.2))
              <$> PyIter.groupby wav segments).
Proof.
  intros Hf. pose proof (groupby_groups wav segments) as Hg.
  pose proof (groupby_concat wav segments) as Hc.
  revert Hf Hg Hc. generalize (PyIter.groupby wav segments) as groups.
  intros groups Hf. revert segments.
  induction Hf as [|kg new groups news Hn Hf IH]; intros segments Hg Hc.
  - cbn in *. subst. split; [|done]. exists []. split; constructor.
  - apply Forall_cons in Hg as [[_ Hk] Hg]. cbn [fmap list_fmap concat] in Hc.
    destruct (group_items_built wav_root kg new Hk Hn) as [Hb Hi].
    destruct (IH (concat groups.*2) Hg eq_refl) as [(segs & Hp & Hs) Hids].
    split.
    + exists (PyIter.sorted offset kg.2 ++ segs). split.
      * rewrite <- Hc. by rewrite sorted_perm, Hp.
      * cbn [concat]. by apply Forall2_app.
    + cbn [concat fmap list_fmap]. by rewrite fmap_app, Hi, Hids.
Qed.


(** X1.  When the constructor returns, the dataset has one entry per record
    of the alignment file, which is also the number of lines of each of the
    two transcripts. *)
Theorem MUSTC_len_is_record_count (root lang split : string) (st st' : state)
    (data : list item) (ys : list yaml_segment) :
  let txt_root := root </> ("en-" +:+ lang) </> "data" </> split </> "txt" in
  MUSTC_init w root lang split st = (Ok data, st') →
  w_yaml w (txt_root </> (split +:+ ".yaml")) = Some ys →
  length data = length ys
  ∧ ∃ ens tgts,
      w_lines w (txt_root </> (split +:+ ".en")) = Some ens
      ∧ w_lines w (txt_root </> (split +:+ "." +:+ lang)) = Some tgts
      ∧ length ens = length ys ∧ length tgts = length ys.
Proof.
  intros txt_root Hinit Hy.
  destruct (MUSTC_init_inv _ _ _ _ _ _ Hinit)
    as (_ & _ & _ & _ & _ & ys' & ens & tgts & Hy' & He & Ht & Hle & Hlt & Hf).
  fold txt_root in Hy', He, Ht. rewrite Hy in Hy'. injection Hy' as <-.
  split; [|by exists ens, tgts].
  apply gather_groups_inv in Hf as (_ & news & Hn & ->). cbn [app].
  destruct (groups_built _ _ _ Hn) as [(segs & Hp & Hb) _].
  rewrite <- (Forall2_length _ _ _ Hb), Hp. by apply merged_segments_length.
Qed.

(** X2.  A returning constructor has written no file.  Its calls are three
    directory tests, the opening of the alignment file and of the two
    transcripts, and then one [sf.info] per run of consecutive records that
    name the same recording; it decodes no audio. *)
Theorem MUSTC_init_reads_only (root lang split : string) (st st' : state)
    (data : list item) (ys : list yaml_segment) (ens tgts : list string) :
  let _root := root </> ("en-" +:+ lang) </> "data" </> split in
  MUSTC_init w root lang split st = (Ok data, st') →
  w_yaml w (_root </> "txt" </> (split +:+ ".yaml")) = Some ys →
  w_lines w (_root </> "txt" </> (split +:+ ".en")) = Some ens →
  w_lines w (_root </> "txt" </> (split +:+ "." +:+ lang)) = Some tgts →
  files st' = files st
  ∧ trace st'
    = trace st
      ++ [EIsDir _root; EIsDir (_root </> "wav"); EIsDir (_root </> "txt");
          EOpen (_root </> "txt" </> (split +:+ ".yaml"));
          EOpen (_root </> "txt" </> (split +:+ ".en"));
          EOpen (_root </> "txt" </> (split +:+ "." +:+ lang))]
      ++ ((λ kg, ESfInfo (_root </> "wav" </> kg.1))
            <$> PyIter.groupby wav (merged_segments ys ens tgts)).
Proof.
  intros _root Hinit Hy He Ht.
  destruct (MUSTC_init_inv _ _ _ _ _ _ Hinit)
    as (_ & _ & _ & _ & _ & ys' & ens' & tgts' & Hy' & He' & Ht' & _ & _ & Hf).
  fold _root in Hy', He', Ht', Hf.
  rewrite Hy in Hy'. rewrite He in He'. rewrite Ht in Ht'.
  injection Hy' as <-. injection He' as <-. injection Ht' as <-.
  apply gather_groups_inv in Hf as (-> & _).
  rewrite log_log. split; [reflexivity|]. by rewrite trace_log.
Qed.

(** X3.  The entries of a returning constructor are a rearrangement of the
    records: record [k] of the alignment file keeps line [k] of the English
    transcript and line [k] of the target transcript, both stripped, and its
    speaker; its entry carries the path of its recording, the sample rate
    [sf.info] reports for that path, and the offset and duration texts
    converted to samples at that rate.  No record is dropped or repeated. *)
Theorem MUSTC_init_rearranges_records (root lang split : string) (st st' : state)
    (data : list item) (ys : list yaml_segment) (ens tgts : list string) :
  let _root := root </> ("en-" +:+ lang) </> "data" </> split in
  MUSTC_init w root lang split st = (Ok data, st') →
  w_yaml w (_root </> "txt" </> (split +:+ ".yaml")) = Some ys →
  w_lines w (_root </> "txt" </> (split +:+ ".en")) = Some ens →
  w_lines w (_root </> "txt" </> (split +:+ "." +:+ lang)) = Some tgts →
  ∃ segs,
    Permutation segs (merged_segments ys ens tgts)
    ∧ Forall2 (built_from w (_root </> "wav")) segs data.
Proof.
  intros _root Hinit Hy He Ht.
  destruct (MUSTC_init_inv _ _ _ _ _ _ Hinit)
    as (_ & _ & _ & _ & _ & ys' & ens' & tgts' & Hy' & He' & Ht' & _ & _ & Hf).
  fold _root in Hy', He', Ht', Hf.
  rewrite Hy in Hy'. rewrite He in He'. rewrite Ht in Ht'.
  injection Hy' as <-. injection He' as <-. injection Ht' as <-.
  apply gather_groups_inv in Hf as (_ & news & Hn & ->). cbn [app].
  by destruct (groups_built _ _ _ Hn) as [? _].
Qed.

(** X4.  The utterance ids of a returning constructor are pairwise distinct
    exactly when no two runs of consecutive records are numbered under the
    same stem: ids restart at [stem_0] with every run, so a recording whose
    records are not adjacent in the alignment file, or two recordings with
    one stem, yield the same id twice. *)
Theorem MUSTC_ids_distinct_iff (root lang split : string) (st st' : state)
    (data : list item) (ys : list yaml_segment) (ens tgts : list string) :
  let _root := root </> ("en-" +:+ lang) </> "data" </> split in
  MUSTC_init w root lang split st = (Ok data, st') →
  w_yaml w (_root </> "txt" </> (split +:+ ".yaml")) = Some ys →
  w_lines w (_root </> "txt" </> (split +:+ ".en")) = Some ens →
  w_lines w (_root </> "txt" </> (split +:+ "." +:+ lang)) = Some tgts →
  NoDup (i_utt_id <$> data)
  ↔ NoDup (group_stems (_root </> "wav") (merged_segments ys ens tgts)).
Proof.
  intros _root Hinit Hy He Ht.
  destruct (MUSTC_init_inv _ _ _ _ _ _ Hinit)
    as (_ & _ & _ & _ & _ & ys' & ens' & tgts' & Hy' & He' & Ht' & _ & _ & Hf).
  fold _root in Hy', He', Ht', Hf.
  rewrite Hy in Hy'. rewrite He in He'. rewrite Ht in Ht'.
  injection Hy' as <-. injection He' as <-. injection Ht' as <-.
  apply gather_groups_inv in Hf as (_ & news & Hn & ->). cbn [app].
  destruct (groups_built _ _ _ Hn) as [_ ->].
  pose proof (groupby_groups wav (merged_segments ys ens tgts)) as Hg.
  unfold group_stems.
  set (groups := PyIter.groupby wav (merged_segments ys ens tgts)) in *.
  pose proof (numbered_NoDup
    ((λ kg : string * list segment,
        (PyPath.stem (_root </> "wav" </> kg.1), length kg.2)) <$> groups)) as HN.
  rewrite <- !list_fmap_compose in HN.
  etrans; [|etrans; [apply HN|]]; [done| |done].
  apply Forall_fmap. eapply Forall_impl; [exact Hg|].
  intros [k g] [Hne _]. cbn in *. destruct g; [done|cbn; lia].
Qed.

(** X5.  With a valid split and language, a missing split directory, [wav]
    directory or [txt] directory makes the constructor raise the assertion
    error.  The three tests are chained with [and]: the first missing
    directory ends them, and no file is opened. *)
Theorem MUSTC_init_missing_directory (root lang split : string) (st : state) :
  let _root := root </> ("en-" +:+ lang) </> "data" </> split in
  split ∈ SPLITS → lang ∈ LANGUAGES →
  w_is_dir w _root && w_is_dir w (_root </> "wav") && w_is_dir w (_root </> "txt")
    = false →
  MUSTC_init w root lang split st
  = (Raise AssertionError,
     log (EIsDir _root
          :: if w_is_dir w _root
             then EIsDir (_root </> "wav")
                  :: (if w_is_dir w (_root </> "wav")
                      then [EIsDir (_root </> "txt")] else [])
             else []) st).
Proof.
  intros _root Hs Hl Hd. unfold MUSTC_init.
  rewrite !bool_decide_eq_true_2 by done. cbn [andb assert_].
  erewrite bind_ok by reflexivity. fold _root.
  erewrite bind_ok by apply is_dir_eq.
  destruct (w_is_dir w _root); cbn [and_then]; [|by rewrite !bind_eq].
  erewrite bind_ok by apply is_dir_eq. rewrite log_log.
  destruct (w_is_dir w (_root </> "wav")); cbn [and_then]; [|by rewrite !bind_eq].
  erewrite bind_ok by apply is_dir_eq. rewrite log_log.
  cbn [andb] in Hd. rewrite Hd. by rewrite !bind_eq.
Qed.

(** X6.  A transcript whose number of lines differs from the number of
    records makes the constructor raise the assertion error before any
    recording is probed.  The English transcript is checked first: when it
    disagrees, the target transcript is not opened. *)
Theorem MUSTC_init_count_mismatch (root lang split : string) (st : state)
    (ys : list yaml_segment) (ens : list string) :
  let _root := root </> ("en-" +:+ lang) </> "data" </> split in
  let opened := [EIsDir _root; EIsDir (_root </> "wav"); EIsDir (_root </> "txt");
                 EOpen (_root </> "txt" </> (split +:+ ".yaml"));
                 EOpen (_root </> "txt" </> (split +:+ ".en"))] in
  split ∈ SPLITS → lang ∈ LANGUAGES →
  w_is_dir w _root = true →
  w_is_dir w (_root </> "wav") = true →
  w_is_dir w (_root </> "txt") = true →
  w_yaml w (_root </> "txt" </> (split +:+ ".yaml")) = Some ys →
  w_lines w (_root </> "txt" </> (split +:+ ".en")) = Some ens →
  (length ys ≠ length ens →
   MUSTC_init w root lang split st = (Raise AssertionError, log opened st))
  ∧ (∀ tgts,
       length ys = length ens →
       w_lines w (_root </> "txt" </> (split +:+ "." +:+ lang)) = Some tgts →
       length ys ≠ length tgts →
       MUSTC_init w root lang split st
       = (Raise AssertionError,
          log (opened ++ [EOpen (_root </> "txt" </> (split +:+ "." +:+ lang))]) st)).
Proof.
  intros _root opened Hs Hl Hd1 Hd2 Hd3 Hy He.
  split.
  - intros Hne. unfold MUSTC_init.
    rewrite !bool_decide_eq_true_2 by done. cbn [andb assert_].
    erewrite bind_ok by reflexivity. fold _root.
    erewrite bind_ok by apply is_dir_eq. rewrite Hd1. cbn [and_then].
    erewrite bind_ok by apply is_dir_eq. rewrite Hd2. cbn [and_then].
    erewrite bind_ok by apply is_dir_eq. rewrite Hd3. cbn [assert_].
    erewrite bind_ok by reflexivity.
    unfold open_yaml. erewrite bind_ok;
      [|erewrite bind_ok by apply emit_eq; rewrite Hy; reflexivity].
    unfold open_lines. erewrite bind_ok;
      [|erewrite bind_ok by apply emit_eq; rewrite He; reflexivity].
    rewrite length_fmap. apply Nat.eqb_neq in Hne. rewrite Hne. cbn [assert_].
    rewrite !log_log. by rewrite bind_eq.
  - intros tgts Hle Ht Hne. unfold MUSTC_init.
    rewrite !bool_decide_eq_true_2 by done. cbn [andb assert_].
    erewrite bind_ok by reflexivity. fold _root.
    erewrite bind_ok by apply is_dir_eq. rewrite Hd1. cbn [and_then].
    erewrite bind_ok by apply is_dir_eq. rewrite Hd2. cbn [and_then].
    erewrite bind_ok by apply is_dir_eq. rewrite Hd3. cbn [assert_].
    erewrite bind_ok by reflexivity.
    unfold open_yaml. erewrite bind_ok;
      [|erewrite bind_ok by apply emit_eq; rewrite Hy; reflexivity].
    unfold open_lines. erewrite bind_ok;
      [|erewrite bind_ok by apply emit_eq; rewrite He; reflexivity].
    rewrite length_fmap, <- Hle, Nat.eqb_refl. cbn [assert_].
    erewrite bind_ok by reflexivity.
    erewrite bind_ok;
      [|erewrite bind_ok by apply emit_eq; rewrite Ht; reflexivity].
    rewrite length_fmap. apply Nat.eqb_neq in Hne. rewrite Hne. cbn [assert_].
    rewrite !log_log. by rewrite bind_eq.
Qed.

End InitFacts.

(* ===================================================================== *)
(** * Rounding error of the sample and frame arithmetic *)
(* ===================================================================== *)

Module RoundingFacts.
Import PyFloat FloatFacts FramingFacts.
Local Open Scope Q_scope.

Lemma u_two_pow : two_pow (-53) == 1 # 9007199254740992.
Proof. reflexivity. Qed.

Lemma round_pos_error x :
  0 < x ->
  x - x * (1 # 9007199254740992) <= round_pos x
  /\ round_pos x <= x + x * (1 # 9007199254740992).
Proof.
  intros Hx. destruct (ilog2_spec x Hx) as [H1 _].
  unfold round_pos. remember (ilog2 x) as e eqn:Heq. clear Heq.
  pose proof (rne_bounds (x * two_pow (52 - e))) as [B1 B2].
  set (r := inject_Z (rne (x * two_pow (52 - e)))) in *.
  pose proof (two_pow_pos (e - 52)) as Hp.
  assert (Ex : x == x * two_pow (52 - e) * two_pow (e - 52)).
  { rewrite <- Qmult_assoc, <- two_pow_add.
    replace (52 - e + (e - 52))%Z with 0%Z by lia. unfold two_pow at 1. simpl. ring. }
  assert (Eh : two_pow (e - 52) * (1 # 2) == two_pow e * (1 # 9007199254740992)).
  { rewrite <- u_two_pow, <- two_pow_add.
    replace (e + -53)%Z with (e - 52 + -1)%Z by lia. rewrite two_pow_add.
    reflexivity. }
  assert (Hh : two_pow e * (1 # 9007199254740992) <= x * (1 # 9007199254740992)).
  { apply Qmult_le_compat_r; [exact H1|discriminate]. }
  set (y := x * two_pow (52 - e)) in *. set (t := two_pow (e - 52)) in *.
  assert (L1 : (r - (1 # 2)) * t <= y * t) by (apply Qmult_le_compat_r; lra).
  assert (L2 : y * t <= (r + (1 # 2)) * t) by (apply Qmult_le_compat_r; lra).
  assert (E1 : (r - (1 # 2)) * t == r * t - t * (1 # 2)) by ring.
  assert (E2 : (r + (1 # 2)) * t == r * t + t * (1 # 2)) by ring.
  rewrite E1 in L1. rewrite E2 in L2. rewrite <- Ex in L1, L2.
  rewrite Eh in L1, L2. split; lra.
Qed.

(** The relative error of one rounding is at most [2^-53]. *)
Lemma round53_error x :
  0 <= x ->
  x - x * (1 # 9007199254740992) <= round53 x
  /\ round53 x <= x + x * (1 # 9007199254740992).
Proof.
  intros Hx. destruct (Qcompare_spec x 0) as [E|E|E].
  - rewrite (round53_zero x E), E. split; lra.
  - lra.
  - rewrite (round53_pos x E). by apply round_pos_error.
Qed.

Lemma round53_nonneg x : 0 <= x -> 0 <= round53 x.
Proof.
  intros Hx. apply Qle_trans with (round53 0); [discriminate|by apply round53_mono].
Qed.

Lemma Qfloor_nonneg x : 0 <= x -> (0 <= Qfloor x)%Z.
Proof. intros H. rewrite <- (Qfloor_Z 0). by apply Qfloor_resp_le. Qed.

Lemma to_int_mono x y : x <= y -> (to_int x <= to_int y)%Z.
Proof.
  intros H. destruct (Qlt_le_dec x 0) as [Hx|Hx], (Qlt_le_dec y 0) as [Hy|Hy].
  - rewrite (to_int_nonpos x), (to_int_nonpos y) by lra.
    assert (Qfloor (- y) <= Qfloor (- x))%Z by (apply Qfloor_resp_le; lra). lia.
  - rewrite (to_int_nonpos x), (to_int_nonneg y) by lra.
    assert (0 <= Qfloor (- x))%Z by (apply Qfloor_nonneg; lra).
    assert (0 <= Qfloor y)%Z by (apply Qfloor_nonneg; lra).
    lia.
  - lra.
  - rewrite (to_int_nonneg x), (to_int_nonneg y) by lra. by apply Qfloor_resp_le.
Qed.

(** The integer part of a value less than one away from [p]. *)
Lemma Qfloor_near p x :
  p - 1 <= x -> x <= p + 1 ->
  (Qfloor p - 1 <= Qfloor x <= Qfloor p + 1)%Z.
Proof.
  intros H1 H2. split.
  - replace (Qfloor p - 1)%Z with (Qfloor (p - 1)).
    + by apply Qfloor_resp_le.
    + apply Qfloor_unique.
      * pose proof (Qfloor_le p). unfold Z.sub. rewrite inject_Z_plus.
        change (inject_Z (- (1))) with (- (1)). lra.
      * pose proof (Qlt_floor p) as H. replace (Qfloor p - 1 + 1)%Z with (Qfloor p) by lia.
        rewrite inject_Z_plus in H. change (inject_Z 1) with 1 in H. lra.
  - replace (Qfloor p + 1)%Z with (Qfloor (p + 1)).
    + by apply Qfloor_resp_le.
    + apply Qfloor_unique.
      * pose proof (Qfloor_le p). rewrite inject_Z_plus. change (inject_Z 1) with 1. lra.
      * pose proof (Qlt_floor p) as H. rewrite !inject_Z_plus in *.
        change (inject_Z 1) with 1 in *. lra.
Qed.

(** Two roundings in a row, of a factor and then of its product with an
    exact factor, move a product below [2^50] by less than one. *)
Lemma product_error v c :
  0 <= v -> 0 <= c -> round53 c == c -> v * c <= inject_Z (2 ^ 50) ->
  0 <= round53 (round53 v * round53 c)
  /\ v * c - 1 <= round53 (round53 v * round53 c)
  /\ round53 (round53 v * round53 c) <= v * c + 1.
Proof.
  intros Hv Hc Ec Hp.
  destruct (round53_error v Hv) as [F1 F2].
  pose proof (round53_nonneg v Hv) as F0.
  assert (Hfc : 0 <= round53 v * c) by (by apply Qmult_le_0_compat).
  assert (E : round53 (round53 v * round53 c) == round53 (round53 v * c)).
  { apply round53_Qeq. by rewrite Ec. }
  rewrite E. destruct (round53_error _ Hfc) as [P1 P2].
  assert (L1 : (v - v * (1 # 9007199254740992)) * c <= round53 v * c)
    by (by apply Qmult_le_compat_r).
  assert (L2 : round53 v * c <= (v + v * (1 # 9007199254740992)) * c)
    by (by apply Qmult_le_compat_r).
  assert (E1 : (v - v * (1 # 9007199254740992)) * c
               == v * c - v * c * (1 # 9007199254740992)) by ring.
  assert (E2 : (v + v * (1 # 9007199254740992)) * c
               == v * c + v * c * (1 # 9007199254740992)) by ring.
  rewrite E1 in L1. rewrite E2 in L2.
  assert (H0 : 0 <= v * c) by (by apply Qmult_le_0_compat).
  change (inject_Z (2 ^ 50)) with (1125899906842624 # 1) in Hp.
  split; [by apply round53_nonneg|].
  set (P := v * c) in *. set (F := round53 v * c) in *. split; lra.
Qed.

Lemma Qfloor_div a b : (0 < b)%Z -> Qfloor (inject_Z a / inject_Z b) = (a / b)%Z.
Proof.
  intros Hb. assert (Hq : 0 < inject_Z b) by (apply (inject_Z_lt 0 b); lia).
  pose proof (Z.div_mod a b ltac:(lia)) as Ha.
  pose proof (Z.mod_pos_bound a b Hb) as Hr.
  apply Qfloor_unique.
  - apply Qle_shift_div_l; [exact Hq|]. rewrite <- inject_Z_mult, <- Zle_Qle. lia.
  - apply Qlt_shift_div_r; [exact Hq|]. rewrite <- inject_Z_mult, <- Zlt_Qlt. lia.
Qed.

Lemma truediv_mono a a' b :
  (0 < b)%Z -> (a <= a')%Z -> truediv a b <= truediv a' b.
Proof.
  intros Hb H. unfold truediv. apply round53_mono.
  assert (Hq : 0 < inject_Z b) by (apply (inject_Z_lt 0 b); lia).
  apply Qmult_le_compat_r; [by apply inject_Z_le|].
  apply Qlt_le_weak, Qinv_lt_0_compat, Hq.
Qed.

Lemma mul_mono_l x y c : 0 <= c -> x <= y -> mul x c <= mul y c.
Proof. intros Hc H. unfold mul. apply round53_mono. by apply Qmult_le_compat_r. Qed.

Lemma add_mono_r c x y : x <= y -> add c x <= add c y.
Proof. intros H. unfold add. apply round53_mono. lra. Qed.

Lemma n_frames_of_ms_mono d d' :
  (d <= d')%Z -> (n_frames_of_ms d <= n_frames_of_ms d')%Z.
Proof.
  intros H. unfold n_frames_of_ms. apply to_int_mono, add_mono_r, truediv_mono; lia.
Qed.

Lemma duration_ms_eq n sr :
  (sr <> 0)%Z ->
  duration_ms n sr = Some (to_int (mul (truediv n sr) (of_int 1000))).
Proof.
  intros H. unfold duration_ms, int_truediv.
  by rewrite (proj2 (Z.eqb_neq sr 0) H).
Qed.

Lemma of_int_1000 : of_int 1000 == 1000.
Proof. reflexivity. Qed.

End RoundingFacts.

(** X7.  The sample count of a non-negative decimal number of seconds is
    never negative and at most one sample away from the integer part of
    the exact product with the sample rate, for products up to [2^50]. *)
Theorem seconds_to_samples_within_one (text : string) (sample_rate : Z)
    (seconds : Q) :
  PyFloat.decimal text = Some seconds →
  (0 <= seconds)%Q →
  (0 < sample_rate < 2 ^ 53)%Z →
  (seconds * inject_Z sample_rate <= inject_Z (2 ^ 50))%Q →
  ∃ n, seconds_to_samples text sample_rate = Some n
       ∧ (0 ≤ n)%Z
       ∧ (Qfloor (seconds * inject_Z sample_rate) - 1 ≤ n
          ≤ Qfloor (seconds * inject_Z sample_rate) + 1)%Z.
Proof.
  intros Hdec Hv Hsr Hp.
  rewrite (FramingFacts.seconds_to_samples_eq _ _ _ Hdec). eexists. split; [done|].
  assert (Hc : (0 <= inject_Z sample_rate)%Q)
    by (apply (FloatFacts.inject_Z_le 0); lia).
  destruct (RoundingFacts.product_error seconds (inject_Z sample_rate) Hv Hc
              (FloatFacts.round53_int sample_rate ltac:(lia)) Hp) as (H0 & H1 & H2).
  unfold PyFloat.mul, PyFloat.of_int.
  rewrite FloatFacts.to_int_nonneg by exact H0. split.
  - by apply RoundingFacts.Qfloor_nonneg.
  - by apply RoundingFacts.Qfloor_near.
Qed.

(** X8.  The duration in milliseconds of a waveform of [size1] samples is
    never negative and at most one away from the integer part of the exact
    [1000 * size1 / sr], for durations up to [2^50] ms. *)
Theorem duration_ms_within_one (size1 sr : Z) :
  (0 ≤ size1)%Z → (0 < sr)%Z → (1000 * size1 ≤ 2 ^ 50 * sr)%Z →
  ∃ d, duration_ms size1 sr = Some d
       ∧ (0 ≤ d)%Z
       ∧ (1000 * size1 / sr - 1 ≤ d ≤ 1000 * size1 / sr + 1)%Z.
Proof.
  intros Hn Hsr Hp.
  rewrite RoundingFacts.duration_ms_eq by lia. eexists. split; [done|].
  assert (Hq : (0 < inject_Z sr)%Q) by (apply (FloatFacts.inject_Z_lt 0); lia).
  assert (Hv : (0 <= inject_Z size1 / inject_Z sr)%Q).
  { apply Qle_shift_div_l; [exact Hq|]. rewrite Qmult_0_l.
    apply (FloatFacts.inject_Z_le 0); lia. }
  assert (He : (inject_Z size1 / inject_Z sr * inject_Z 1000
                == inject_Z (1000 * size1) / inject_Z sr)%Q).
  { rewrite inject_Z_mult. field. intros E. rewrite E in Hq. by apply Qlt_irrefl in Hq. }
  assert (Hb : (inject_Z size1 / inject_Z sr * inject_Z 1000 <= inject_Z (2 ^ 50))%Q).
  { rewrite He. apply Qle_shift_div_r; [exact Hq|].
    rewrite <- inject_Z_mult. by apply FloatFacts.inject_Z_le. }
  destruct (RoundingFacts.product_error (inject_Z size1 / inject_Z sr) (inject_Z 1000)
              Hv ltac:(discriminate) (FloatFacts.round53_int 1000 ltac:(reflexivity)) Hb)
    as (H0 & H1 & H2).
  unfold PyFloat.mul, PyFloat.of_int, PyFloat.truediv.
  rewrite FloatFacts.to_int_nonneg by exact H0.
  rewrite <- (RoundingFacts.Qfloor_div (1000 * size1) sr Hsr).
  rewrite <- (Qfloor_comp _ _ He). split.
  - by apply RoundingFacts.Qfloor_nonneg.
  - by apply RoundingFacts.Qfloor_near.
Qed.

(** X9.  A waveform of exactly [k] seconds, at any sample rate, lasts
    [1000 * k] ms; it is recorded with [100 * k - 2] frames, and the empty
    waveform with -1. *)
Theorem whole_seconds_frames (k sr : Z) :
  (0 ≤ k)%Z → (0 < sr)%Z → (1000 * k ≤ 2 ^ 50)%Z →
  duration_ms (k * sr) sr = Some (1000 * k)%Z
  ∧ n_frames_of_ms (1000 * k) = (if (k =? 0)%Z then -1 else 100 * k - 2)%Z.
Proof.
  intros Hk Hsr Hb. split.
  - rewrite RoundingFacts.duration_ms_eq by lia. f_equal.
    rewrite <- (FloatFacts.to_int_int (1000 * k)). apply FloatFacts.to_int_Qeq.
    assert (Hq : (0 < inject_Z sr)%Q) by (apply (FloatFacts.inject_Z_lt 0); lia).
    assert (E1 : (PyFloat.truediv (k * sr) sr == inject_Z k)%Q).
    { unfold PyFloat.truediv. rewrite <- (FloatFacts.round53_int k) by lia.
      apply FloatFacts.round53_Qeq. rewrite inject_Z_mult. field.
      intros E. rewrite E in Hq. by apply Qlt_irrefl in Hq. }
    unfold PyFloat.mul. rewrite <- (FloatFacts.round53_int (1000 * k)) by lia.
    apply FloatFacts.round53_Qeq. rewrite E1, RoundingFacts.of_int_1000, inject_Z_mult.
    change (inject_Z 1000) with 1000%Q. ring.
  - rewrite FramingFacts.n_frames_of_ms_quot by lia.
    destruct (Z.eqb_spec k 0) as [->|Hne]; [reflexivity|].
    rewrite FramingFacts.quot_10. destruct (Z.leb_spec 0 (1000 * k - 15)); [|lia].
    Z.to_euclidean_division_equations. lia.
Qed.

(** X10.  At a fixed sample rate, more samples never give a shorter
    duration or fewer frames. *)
Theorem frames_monotone (size1 size1' sr : Z) :
  (0 < sr)%Z → (size1 ≤ size1')%Z →
  ∃ d d', duration_ms size1 sr = Some d
          ∧ duration_ms size1' sr = Some d'
          ∧ (d ≤ d')%Z
          ∧ (n_frames_of_ms d ≤ n_frames_of_ms d')%Z.
Proof.
  intros Hsr H. rewrite !RoundingFacts.duration_ms_eq by lia.
  eexists _, _. split; [done|]. split; [done|].
  assert (Hd : (PyFloat.to_int (PyFloat.mul (PyFloat.truediv size1 sr) (PyFloat.of_int 1000))
                ≤ PyFloat.to_int (PyFloat.mul (PyFloat.truediv size1' sr) (PyFloat.of_int 1000)))%Z).
  { apply RoundingFacts.to_int_mono, RoundingFacts.mul_mono_l; [discriminate|].
    by apply RoundingFacts.truediv_mono. }
  split; [exact Hd|]. by apply RoundingFacts.n_frames_of_ms_mono.
Qed.

(* ===================================================================== *)
(** * What a run writes *)
(* ===================================================================== *)

Section ConfinedFacts.
Context {Waveform Features Stats : Type}.
Variable w : @World Waveform Features Stats.
Variable allowed : event → bool.
Variable paths : list string.
Abbreviation M := (@M Features Stats).

Lemma confined_ret {A} (a : A) : confined allowed paths (mret a : M A).
Proof. intros st. exists []. simpl. by rewrite app_nil_r. Qed.

Lemma confined_raise {A} (e : exn) : confined allowed paths (raise e : M A).
Proof. intros st. exists []. simpl. by rewrite app_nil_r. Qed.

Lemma confined_emit (e : event) :
  allowed e = true → confined allowed paths (emit e : M unit).
Proof. intros He st. exists [e]. simpl. auto. Qed.

Lemma confined_read_file (p : string) : confined allowed paths (read_file p : M _).
Proof. intros st. exists []. simpl. by rewrite app_nil_r. Qed.

Lemma confined_write_file (p : string) (a : artifact) :
  p ∈ paths → confined allowed paths (write_file p a : M unit).
Proof.
  intros Hp st. exists []. simpl. rewrite app_nil_r. split; [done|].
  split; [done|]. intros q Hq. rewrite lookup_insert_ne; [done|].
  by intros ->.
Qed.

Lemma confined_bind {A B} (m : M A) (f : A → M B) :
  confined allowed paths m → (∀ a, confined allowed paths (f a)) →
  confined allowed paths (m ≫= f).
Proof.
  intros Hm Hf st. rewrite bind_eq. destruct (Hm st) as (d1 & Ht & Hd & Hk).
  destruct (m st) as [[a|e] st1]; simpl in *.
  - destruct (Hf a st1) as (d2 & Ht2 & Hd2 & Hk2).
    exists (d1 ++ d2). rewrite Ht2, Ht, app_assoc.
    split; [done|]. split; [by apply Forall_app|].
    intros p Hp. by rewrite Hk2, Hk.
  - by exists d1.
Qed.

Lemma confined_lift_opt {A} (o : option A) (e : exn) :
  confined allowed paths (lift_opt o e : M A).
Proof. destruct o; [apply confined_ret|apply confined_raise]. Qed.

Lemma confined_assert (b : bool) : confined allowed paths (assert_ b : M unit).
Proof. destruct b; [apply confined_ret|apply confined_raise]. Qed.

Lemma confined_foldM {A S} (body : S → A → M S) (l : list A) (s0 : S) :
  (∀ s x, x ∈ l → confined allowed paths (body s x)) →
  confined allowed paths (foldM body s0 l).
Proof.
  revert s0. induction l as [|x l IH]; intros s0 Hb; simpl.
  - apply confined_ret.
  - apply confined_bind; [apply Hb; left|].
    intros s1. apply IH. intros s y Hy. apply Hb. by right.
Qed.

End ConfinedFacts.

Lemma confined_weaken {Features Stats A : Type} (allowed allowed' : event → bool)
    (paths paths' : list string) (m : @M Features Stats A) :
  (∀ e, allowed e = true → allowed' e = true) →
  paths ⊆ paths' →
  confined allowed paths m → confined allowed' paths' m.
Proof.
  intros Ha Hp Hm st. destruct (Hm st) as (d & Ht & Hd & Hk).
  exists d. split; [done|]. split.
  - eapply Forall_impl; [exact Hd|]. exact Ha.
  - intros p Hn. apply Hk. intros Hin. by apply Hn, Hp.
Qed.

Ltac confined_step :=
  lazymatch goal with
  | |- confined _ _ (mret _) => apply confined_ret
  | |- confined _ _ (raise _) => apply confined_raise
  | |- confined _ _ (emit _) => apply confined_emit; reflexivity
  | |- confined _ _ (print _) => apply confined_emit; reflexivity
  | |- confined _ _ (read_file _) => apply confined_read_file
  | |- confined _ _ (lift_opt _ _) => apply confined_lift_opt
  | |- confined _ _ (assert_ _) => apply confined_assert
  | |- confined _ _ (_ ≫= _) => apply confined_bind; [|intros ?]
  | |- confined _ _ (foldM _ _ _) => apply confined_foldM; intros ? ? ?
  | |- confined _ _ (if ?b then _ else _) => destruct b
  | |- confined _ _ (match ?x with _ => _ end) => destruct x
  end.

Section ConfinedPipeline.
Context {Waveform Features Stats : Type}.
Variable w : @World Waveform Features Stats.
Abbreviation M := (@M Features Stats).
Abbreviation state := (@state Features Stats).

Lemma confined_MUSTC_init (root lang split : string) :
  confined index_event [] (MUSTC_init w root lang split).
Proof.
  unfold MUSTC_init, is_dir, and_then, open_yaml, open_lines.
  repeat confined_step.
  unfold gather_group, sf_info_samplerate. repeat confined_step.
  unfold gather_segment. repeat confined_step.
Qed.

Lemma confined_for_dataset {S} (allowed : event → bool) (paths : list string)
    (body : S → Waveform * Z * string * string * string * string → M S)
    (s0 : S) (data : list item) :
  (∀ p f s, allowed (EGetWaveform p f s) = true) →
  (∀ s x, confined allowed paths (body s x)) →
  confined allowed paths (for_dataset w body s0 data).
Proof.
  intros Ha Hb. unfold for_dataset, MUSTC_getitem, get_waveform.
  repeat confined_step; [apply confined_emit, Ha|apply Hb].
Qed.

(** The extraction pass over a split packs nothing and writes no file but
    the statistics. *)
Lemma confined_extract_split (args : Args) (root lang out feature_root : string)
    (dir : gmap string Features) (split : string) :
  confined not_packing [out </> "gcmvn.npz"]
           (extract_split w args root lang out feature_root dir split).
Proof.
  unfold extract_split. cbv zeta.
  apply confined_bind; [confined_step|intros _].
  apply confined_bind.
  { eapply confined_weaken; [| |apply confined_MUSTC_init];
      [by intros []|apply list_subseteq_nil]. }
  intros data. apply confined_bind; [confined_step|intros _].
  apply confined_bind; [repeat confined_step|intros _].
  apply confined_bind.
  { apply confined_for_dataset; [done|].
    intros [dir' gl] [[[[[wv sr] s1] t1] sp] u].
    unfold extract_item, extract_fbank_features, np_save. repeat confined_step. }
  intros [dir' gl]. apply confined_bind; [|intros _; confined_step].
  destruct (_ && _); [|confined_step].
  unfold cal_gcmvn_stats, np_savez. repeat confined_step.
  apply confined_write_file. by left.
Qed.

Lemma confined_manifest_split (args : Args) (lang out : string)
    (zip_manifest : gmap string string) (texts : list string * list string)
    (split : string) :
  world_ok w → split ∈ SPLITS →
  confined not_packing (manifest_paths args out)
           (manifest_split w args lang out zip_manifest texts split).
Proof.
  intros [_ Hto] Hs. unfold manifest_split. destruct texts as [ta ts].
  apply confined_bind.
  { eapply confined_weaken; [| |apply confined_MUSTC_init];
      [by intros []|apply list_subseteq_nil]. }
  intros data. apply confined_bind.
  { apply confined_for_dataset; [done|].
    intros [[m su] tu] [[[[[wv sr] s1] t1] sp] u].
    unfold manifest_item. repeat confined_step. }
  intros [[m su] tu]. apply confined_bind; [|intros ?; apply confined_ret].
  unfold forM_. apply confined_foldM. intros _ t Ht.
  apply (proj2 (set_iteration (w_task_order w) (a_task args) Hto)) in Ht.
  unfold write_manifest, save_df_to_tsv. repeat confined_step.
  apply confined_write_file. unfold manifest_paths.
  apply list_elem_of_bind. exists split. split; [|done].
  apply list_elem_of_bind. exists t. split; [|done].
  by apply list_elem_of_singleton.
Qed.

Lemma confined_vocab_task (args : Args) (out : string)
    (train_text_asr train_text_st : list string) (t : task) :
  t ∈ a_task args →
  confined not_packing (vocab_paths args out)
           (vocab_task args out train_text_asr train_text_st t : M unit).
Proof.
  intros Ht.
  assert (Hm : model_path args out t ∈ vocab_paths args out).
  { apply list_elem_of_bind. exists t. split; [left|done]. }
  assert (Hc : config_path out t ∈ vocab_paths args out).
  { apply list_elem_of_bind. exists t. split; [right; left|done]. }
  unfold vocab_task, model_path, config_path, spm_prefix_for, vocab_size_for in *.
  destruct t; unfold gen_vocab, gen_config_yaml; repeat confined_step;
    by apply confined_write_file.
Qed.

Lemma confined_manifest_and_vocab (args : Args) (lang out : string)
    (zip_manifest : gmap string string) :
  world_ok w →
  confined not_packing (manifest_paths args out ++ vocab_paths args out)
           (manifest_and_vocab w args lang out zip_manifest).
Proof.
  intros Hw. unfold manifest_and_vocab.
  apply confined_bind; [apply confined_emit; reflexivity|intros _].
  apply confined_bind.
  - apply confined_foldM. intros texts split Hs.
    eapply confined_weaken; [| |by apply confined_manifest_split]; [done|].
    by apply list_subseteq_app_l.
  - intros [ta ts]. unfold forM_. apply confined_foldM. intros _ t Ht.
    apply (proj2 (set_iteration (w_task_order w) (a_task args) (proj2 Hw))) in Ht.
    eapply confined_weaken; [| |by apply confined_vocab_task]; [done|].
    by apply list_subseteq_app_r.
Qed.

Lemma confined_process_lang (args : Args) (root lang : string) :
  world_ok w →
  confined any_event (outputs args (output_root_of w args root lang))
           (process_lang w args root lang).
Proof.
  intros Hw. unfold process_lang.
  fold (output_root_of w args root lang).
  set (out := output_root_of w args root lang).
  unfold is_dir. apply confined_bind; [repeat confined_step|intros d].
  destruct (negb d); [confined_step|].
  unfold path_exists. apply confined_bind; [repeat confined_step|intros present].
  apply confined_bind.
  { destruct (negb present); [|confined_step].
    apply confined_bind.
    - apply confined_foldM. intros dir split _.
      eapply confined_weaken; [| |apply confined_extract_split]; [done|].
      intros p ->%list_elem_of_singleton. by left.
    - intros dir. unfold create_zip. repeat confined_step.
      apply confined_write_file. right. by left. }
  intros _. apply confined_bind; [confined_step|intros _].
  unfold get_zip_manifest. apply confined_bind; [repeat confined_step|intros zm].
  eapply confined_weaken; [| |by apply (confined_manifest_and_vocab args lang out zm)];
    [done|].
  unfold outputs. intros p Hp. by do 2 right.
Qed.

(** Without the archive, the extraction pass runs first; when it returns,
    the archive is packed and its index read back. *)
Lemma process_lang_archive_absent (args : Args) (root lang : string) (st : state) :
  let out := output_root_of w args root lang in
  let zip := zip_path_of w args root lang in
  let feature_root := w_absolute w (w_tmpdir w) </> "fbank80" in
  w_is_dir w (root </> ("en-" +:+ lang)) = true →
  files st !! zip = None →
  process_lang w args root lang st
  = match foldM (extract_split w args root lang out feature_root) ∅ SPLITS
                (log [EIsDir (root </> ("en-" +:+ lang)); EExists zip] st) with
    | (Ok dir, st3) =>
        manifest_and_vocab w args lang out (w_zip_index w zip dir)
          (State (<[zip := AZip dir]> (files st3))
                 (trace st3 ++ [EPrint "ZIPing features...";
                                ECreateZip feature_root zip;
                                EPrint "Fetching ZIP manifest...";
                                EGetZipManifest zip]))
    | (Raise e, st3) => (Raise e, st3)
    end.
Proof.
  intros out zip feature_root Hd Hz. unfold process_lang.
  erewrite bind_ok by apply is_dir_eq. rewrite Hd. cbn [negb].
  fold (output_root_of w args root lang).
  fold (zip_path_of w args root lang). fold zip out feature_root.
  erewrite bind_ok by apply path_exists_eq.
  rewrite log_log, files_log, Hz. cbn [app].
  rewrite bool_decide_eq_false_2 by (intros [? ?]; discriminate). cbn [negb].
  rewrite bind_eq, bind_eq.
  destruct (foldM _ ∅ SPLITS _) as [[dir|e] st3]; [|done].
  unfold print at 1. erewrite bind_ok by apply emit_eq.
  unfold create_zip. erewrite bind_ok by apply emit_eq.
  cbn [write_file]. rewrite files_log.
  unfold print at 1. erewrite bind_ok by apply emit_eq.
  unfold get_zip_manifest. rewrite bind_eq.
  erewrite bind_ok by apply emit_eq.
  rewrite bind_eq. cbn [read_file log files trace].
  rewrite lookup_insert_eq. cbn [mret M_ret].
  unfold manifest_and_vocab, log. cbn [files trace].
  by rewrite <- !app_assoc.
Qed.

Lemma zip_ne_gcmvn (out : string) : out </> "fbank80.zip" ≠ out </> "gcmvn.npz".
Proof. by intros ?%join_inj_r. Qed.

Lemma confined_extraction (args : Args) (root lang out feature_root : string)
    (dir : gmap string Features) (splits : list string) :
  confined not_packing [out </> "gcmvn.npz"]
           (foldM (extract_split w args root lang out feature_root) dir splits).
Proof. apply confined_foldM. intros d split _. apply confined_extract_split. Qed.

(** X12.  Started without the archive on an existing corpus directory,
    [process_lang] leaves an archive behind exactly when it reached the
    packing call, which comes after the extraction pass over all four
    splits.  A run that returns normally has packed it.  A run that raised
    before packing has changed no file except, possibly, the statistics. *)
Theorem archive_exists_iff_packed (args : Args) (root lang : string) (st : state) :
  let out := output_root_of w args root lang in
  let zip := zip_path_of w args root lang in
  let run := process_lang w args root lang st in
  world_ok w →
  w_is_dir w (root </> ("en-" +:+ lang)) = true →
  files st !! zip = None →
  ∃ d,
    trace (snd run) = trace st ++ d
    ∧ ((∃ src dst, ECreateZip src dst ∈ d) ↔ is_Some (files (snd run) !! zip))
    ∧ (fst run = Ok tt → is_Some (files (snd run) !! zip))
    ∧ (files (snd run) !! zip = None →
       ∀ p, p ≠ out </> "gcmvn.npz" → files (snd run) !! p = files st !! p).
Proof.
  intros out zip run Hw Hd Hz. subst run.
  rewrite (process_lang_archive_absent args root lang st Hd Hz). fold out zip.
  set (feature_root := w_absolute w (w_tmpdir w) </> "fbank80").
  destruct (confined_extraction args root lang out feature_root ∅ SPLITS
              (log [EIsDir (root </> ("en-" +:+ lang)); EExists zip] st))
    as (d1 & Ht1 & Hd1 & Hk1).
  destruct (foldM _ ∅ SPLITS _) as [[dir|e] st3]; cbn [snd] in Ht1, Hk1.
  - set (s4 := State _ _).
    destruct (confined_manifest_and_vocab args lang out (w_zip_index w zip dir) Hw s4)
      as (d2 & Ht2 & Hd2 & _).
    destruct (quiet_after_index w args lang out (w_zip_index w zip dir) s4)
      as (_ & _ & _ & Hk2).
    change (files (snd (manifest_and_vocab w args lang out (w_zip_index w zip dir) s4))
              !! zip = files s4 !! zip) in Hk2.
    assert (Hzip : files (snd (manifest_and_vocab w args lang out
                                 (w_zip_index w zip dir) s4)) !! zip
                   = Some (AZip dir)).
    { rewrite Hk2. subst s4. cbn [files]. apply lookup_insert_eq. }
    exists ([EIsDir (root </> ("en-" +:+ lang)); EExists zip] ++ d1
            ++ [EPrint "ZIPing features..."; ECreateZip feature_root zip;
                EPrint "Fetching ZIP manifest..."; EGetZipManifest zip] ++ d2).
    split.
    { rewrite Ht2. subst s4. cbn [trace]. rewrite Ht1, trace_log.
      by rewrite <- !app_assoc. }
    rewrite Hzip. split; [|split; [eauto|done]].
    split; [eauto|]. intros _. exists feature_root, zip.
    rewrite !elem_of_app. right. right. left. right. left.
  - cbn [fst snd]. rewrite trace_log in Ht1. exists ([EIsDir (root </> ("en-" +:+ lang)); EExists zip] ++ d1).
    split; [by rewrite Ht1, <- app_assoc|].
    assert (Hnone : files st3 !! zip = None).
    { rewrite Hk1; [by rewrite files_log|].
      intros H%list_elem_of_singleton. by apply (zip_ne_gcmvn out) in H. }
    rewrite Hnone. split; [|split; [done|]].
    + split; [|by intros [? ?]]. intros (src & dst & Hin). exfalso.
      apply elem_of_app in Hin as [Hin|Hin].
      * repeat (apply elem_of_cons in Hin as [Hin|Hin]; [done|]).
        by apply elem_of_nil in Hin.
      * rewrite Forall_forall in Hd1. by apply Hd1 in Hin.
    + intros _ p Hp. rewrite Hk1; [by rewrite files_log|].
      by intros ->%list_elem_of_singleton.
Qed.

(** X13.  After a run of [process_lang] that returned normally, a second
    run from the state it left makes no call of feature extraction, array
    saving, statistics or packing. *)
Theorem rerun_extracts_nothing (args : Args) (root lang : string) (st st1 : state) :
  process_lang w args root lang st = (Ok tt, st1) →
  ∃ d, trace (snd (process_lang w args root lang st1)) = trace st1 ++ d
       ∧ Forall (λ e, extraction_event e = false) d.
Proof.
  intros Hrun.
  destruct (w_is_dir w (root </> ("en-" +:+ lang))) eqn:Hd; cycle 1.
  { rewrite (process_lang_skip w args root lang st1 Hd). eexists.
    split; [apply trace_log|]. by repeat constructor. }
  set (out := output_root_of w args root lang).
  set (zip := zip_path_of w args root lang).
  assert (Hcont : ∀ zm s,
            files (snd (manifest_and_vocab w args lang out zm s)) !! zip
            = files s !! zip).
  { intros zm s.
    by destruct (quiet_after_index w args lang out zm s) as (_ & _ & _ & Hk). }
  assert (Hzip : is_Some (files st1 !! zip)).
  { destruct (files st !! zip) as [a|] eqn:Hz.
    - rewrite (process_lang_archive_present w args root lang st a Hd Hz) in Hrun.
      cbv zeta in Hrun. destruct a as [members| | | |]; try done.
      pose proof (Hcont (w_zip_index w zip members)
                  (log [EIsDir (root </> ("en-" +:+ lang)); EExists zip;
                        EPrint "Fetching ZIP manifest..."; EGetZipManifest zip] st))
        as Hk.
      unfold manifest_and_vocab in Hk. fold out zip in Hrun.
      rewrite Hrun in Hk. cbn [snd] in Hk. rewrite Hk, files_log, Hz. eauto.
    - rewrite (process_lang_archive_absent args root lang st Hd Hz) in Hrun.
      fold out zip in Hrun.
      destruct (foldM _ ∅ SPLITS _) as [[dir|e] st3]; [|done].
      pose proof (Hcont (w_zip_index w zip dir)
                  (State (<[zip := AZip dir]> (files st3))
                     (trace st3 ++ [EPrint "ZIPing features...";
                        ECreateZip (w_absolute w (w_tmpdir w) </> "fbank80") zip;
                        EPrint "Fetching ZIP manifest..."; EGetZipManifest zip])))
        as Hk.
      rewrite Hrun in Hk. cbn [snd files] in Hk.
      rewrite Hk, lookup_insert_eq. eauto. }
  destruct Hzip as [a Ha].
  rewrite (process_lang_archive_present w args root lang st1 a Hd Ha). cbv zeta.
  fold out zip.
  set (pre := [EIsDir _; EExists _; EPrint _; EGetZipManifest _]).
  destruct a as [members| | | |];
    try (exists pre; split; [apply trace_log|by repeat constructor]).
  destruct (quiet_after_index w args lang out (w_zip_index w zip members) (log pre st1))
    as (d & Ht & Hq & _).
  exists (pre ++ d). split.
  - etrans; [exact Ht|]. by rewrite trace_log, <- app_assoc.
  - apply Forall_app. split; [by repeat constructor|exact Hq].
Qed.

(** X14.  A run creates or changes no file other than the outputs of the
    requested languages: under the output directory of each language the
    statistics, the archive, one manifest per split and requested task, and
    one model and one configuration per requested task. *)
Theorem process_writes_only_outputs (args : Args) (st : state) (p : string) :
  world_ok w →
  p ∉ all_outputs w args →
  files (snd (process w args st)) !! p = files st !! p.
Proof.
  intros Hw Hp.
  assert (Hc : confined any_event (all_outputs w args) (process w args)).
  { unfold process, forM_. apply confined_foldM. intros _ lang Hl.
    apply (proj2 (set_iteration (w_lang_order w) (a_lang args) (proj1 Hw))) in Hl.
    eapply confined_weaken; [| |by apply confined_process_lang]; [done|].
    intros q Hq. apply list_elem_of_bind. by exists lang. }
  destruct (Hc st) as (_ & _ & _ & Hk). by apply Hk.
Qed.

End ConfinedPipeline.

(* ===================================================================== *)
(** * Texts as lists of characters *)
(* ===================================================================== *)

Section StringFacts.

Lemma to_list_app (a b : string) :
  list_ascii_of_string (a +:+ b) = list_ascii_of_string a ++ list_ascii_of_string b.
Proof.
  induction a as [|c a IH]; [done|].
  change (String c a +:+ b) with (String c (a +:+ b)). cbn. by rewrite IH.
Qed.

Lemma to_list_inj (a b : string) :
  list_ascii_of_string a = list_ascii_of_string b → a = b.
Proof.
  intros H. rewrite <- (string_of_list_ascii_of_string a),
    <- (string_of_list_ascii_of_string b). by rewrite H.
Qed.

Lemma str_app_inj_r (a b s : string) : a +:+ s = b +:+ s → a = b.
Proof.
  intros H. apply to_list_inj.
  apply (f_equal list_ascii_of_string) in H. rewrite !to_list_app in H.
  by apply app_inv_tail in H.
Qed.

Lemma to_list_rev_app (a b : string) :
  list_ascii_of_string (String.rev_app a b)
  = rev (list_ascii_of_string a) ++ list_ascii_of_string b.
Proof.
  revert b. induction a as [|c a IH]; intros b; [done|].
  cbn [String.rev_app list_ascii_of_string rev]. rewrite IH. cbn.
  by rewrite <- app_assoc.
Qed.

Lemma to_list_rev (a : string) :
  list_ascii_of_string (String.rev a) = rev (list_ascii_of_string a).
Proof. unfold String.rev. rewrite to_list_rev_app. apply app_nil_r. Qed.

Lemma rev_rev (a : string) : String.rev (String.rev a) = a.
Proof. apply to_list_inj. by rewrite !to_list_rev, rev_involutive. Qed.

(** [lstrip] removes a run of leading blanks and nothing else. *)
Lemma lstrip_spec (s : string) :
  ∃ blanks,
    list_ascii_of_string s = blanks ++ list_ascii_of_string (PyStr.lstrip s)
    ∧ Forall (λ c, PyStr.is_space c = true) blanks
    ∧ match PyStr.lstrip s with
      | String c _ => PyStr.is_space c = false
      | EmptyString => True
      end.
Proof.
  induction s as [|c s (blanks & Heq & Hb & Hh)]; [by exists []|].
  cbn [PyStr.lstrip]. destruct (PyStr.is_space c) eqn:Hc.
  - exists (c :: blanks). cbn. rewrite Heq. by repeat constructor.
  - exists []. by rewrite Hc.
Qed.

Lemma lstrip_fixed (s : string) :
  match s with String c _ => PyStr.is_space c = false | EmptyString => True end →
  PyStr.lstrip s = s.
Proof. destruct s as [|c s]; [done|]. cbn. by intros ->. Qed.

(** A stripped text has no blank at either end. *)
Lemma strip_ends (s : string) :
  PyStr.lstrip (PyStr.strip s) = PyStr.strip s
  ∧ PyStr.lstrip (String.rev (PyStr.strip s)) = String.rev (PyStr.strip s).
Proof.
  unfold PyStr.strip.
  destruct (lstrip_spec s) as (b1 & _ & _ & H1).
  set (a := PyStr.lstrip s) in *.
  destruct (lstrip_spec (String.rev a)) as (b2 & E2 & _ & H2).
  set (b := PyStr.lstrip (String.rev a)) in *. split.
  - apply lstrip_fixed.
    rewrite to_list_rev in E2.
    apply (f_equal (@rev ascii)) in E2. rewrite rev_involutive, rev_app_distr in E2.
    rewrite <- to_list_rev in E2.
    destruct (String.rev b) as [|c r] eqn:Hr; [done|].
    destruct a as [|c' a']; [done|]. cbn in E2. injection E2 as -> _. exact H1.
  - rewrite rev_rev. by apply lstrip_fixed.
Qed.

(** [strip] leaves a stripped text as it is. *)
Lemma strip_idemp (s : string) : PyStr.strip (PyStr.strip s) = PyStr.strip s.
Proof.
  destruct (strip_ends s) as [H1 H2]. unfold PyStr.strip at 1.
  by rewrite H1, H2, rev_rev.
Qed.

End StringFacts.

(* ===================================================================== *)
(** * Stripped transcripts *)
(* ===================================================================== *)

Section StrippedTranscripts.
Context {Waveform Features Stats : Type}.
Variable w : @World Waveform Features Stats.
Abbreviation state := (@state Features Stats).

Lemma merged_segments_stripped (ys : list yaml_segment) (ens tgts : list string) :
  Forall (λ sg, (∃ e, e ∈ ens ∧ en sg = PyStr.strip e)
                ∧ (∃ t, t ∈ tgts ∧ tgt sg = PyStr.strip t))
         (merged_segments ys ens tgts).
Proof.
  unfold merged_segments. apply Forall_forall. intros sg [i Hi]%list_elem_of_lookup.
  apply lookup_zip_with_Some in Hi as ([y e] & t & -> & Hye & Ht).
  apply lookup_zip_Some in Hye as [_ He]. cbn in He.
  apply list_lookup_fmap_Some in He as (e0 & -> & He0).
  apply list_lookup_fmap_Some in Ht as (t0 & -> & Ht0).
  cbn. split; eexists; (split; [by eapply list_elem_of_lookup_2|done]).
Qed.

(** X18.  Every transcript text in the entries of a returning constructor
    is a stripped line of the transcript files: stripping it again changes
    nothing, and it has no blank at either end. *)
Theorem MUSTC_transcripts_are_stripped (root lang split : string) (st st' : state)
    (data : list item) (ens tgts : list string) :
  let txt_root := root </> ("en-" +:+ lang) </> "data" </> split </> "txt" in
  MUSTC_init w root lang split st = (Ok data, st') →
  w_lines w (txt_root </> (split +:+ ".en")) = Some ens →
  w_lines w (txt_root </> (split +:+ "." +:+ lang)) = Some tgts →
  Forall (λ it,
            (∃ e, e ∈ ens ∧ i_src_utt it = PyStr.strip e)
            ∧ (∃ t, t ∈ tgts ∧ i_tgt_utt it = PyStr.strip t)
            ∧ ∀ u, u = i_src_utt it ∨ u = i_tgt_utt it →
                   PyStr.strip u = u
                   ∧ PyStr.lstrip u = u
                   ∧ PyStr.lstrip (String.rev u) = String.rev u)
         data.
Proof.
  intros txt_root Hinit He Ht.
  destruct (MUSTC_init_inv w _ _ _ _ _ _ Hinit)
    as (_ & _ & _ & _ & _ & ys & ens' & tgts' & _ & He' & Ht' & _ & _ & Hf).
  fold txt_root in He', Ht'. rewrite He in He'. rewrite Ht in Ht'.
  injection He' as <-. injection Ht' as <-.
  apply (gather_groups_inv w) in Hf as (_ & news & Hn & ->). cbn [app].
  destruct (groups_built w _ _ _ Hn) as [(segs & Hp & Hb) _].
  pose proof (merged_segments_stripped ys ens tgts) as Hm. rewrite <- Hp in Hm.
  clear Hp Hn Hinit. induction Hb as [|sg it segs data Hsg Hb IH]; [constructor|].
  apply Forall_cons in Hm as [[(e & Hin & Hen) (t & Hit & Htg)] Hm].
  constructor; [|by apply IH].
  destruct Hsg as (_ & _ & _ & _ & Hsrc & Htgt & _).
  rewrite Hsrc, Htgt, Hen, Htg.
  split; [by exists e|]. split; [by exists t|].
  intros u [-> | ->]; (split; [apply strip_idemp|apply strip_ends]).
Qed.

End StrippedTranscripts.

(* ===================================================================== *)
(** * The extraction loop, failures and stored arrays *)
(* ===================================================================== *)

Section ExtractionMore.
Context {Waveform Features Stats : Type}.
Variable w : @World Waveform Features Stats.
Abbreviation state := (@state Features Stats).
Abbreviation M := (@M Features Stats).

(** X11.  The extraction loop stops at the first window that cannot be
    decoded: the arrays of the utterances before it have been extracted and
    saved, the exception of [get_waveform] leaves the loop, and no later
    window is read. *)
Theorem extraction_stops_at_undecodable (g : bool) (cap : Z)
    (feature_root : string) (before after : list item) (it : item)
    (feats : list Features) (dir : gmap string Features) (gl : list Features)
    (st : state) :
  dataset_features w before = Some feats →
  w_get_waveform w (i_wav_path it) (i_n_frames it) (i_offset it) = None →
  for_dataset w (extract_item w g cap feature_root) (dir, gl)
              (before ++ it :: after) st
  = (Raise (SoundFileError (i_wav_path it)),
     log (concat (extract_events feature_root <$> before)
          ++ [EGetWaveform (i_wav_path it) (i_n_frames it) (i_offset it)]) st).
Proof.
  intros Hf Hw. unfold for_dataset. rewrite foldM_app.
  pose proof (extract_loop w g cap feature_root before feats dir gl st Hf) as Hl.
  unfold for_dataset in Hl. rewrite Hl. cbn [foldM].
  apply bind_raise. apply bind_raise. unfold MUSTC_getitem. apply bind_raise.
  unfold get_waveform. erewrite bind_ok by apply emit_eq.
  rewrite Hw, log_log. reflexivity.
Qed.

Lemma saved_cons (dir : gmap string Features) (it : item) (data : list item)
    (f : Features) (feats : list Features) :
  saved dir (it :: data) (f :: feats)
  = saved (<[i_utt_id it +:+ ".npy" := f]> dir) data feats.
Proof. reflexivity. Qed.

Lemma saved_other (dir : gmap string Features) (data : list item)
    (feats : list Features) (name : string) :
  name ∉ (λ it, i_utt_id it +:+ ".npy") <$> data →
  saved dir data feats !! name = dir !! name.
Proof.
  revert dir feats. induction data as [|it data IH]; intros dir feats Hn; [done|].
  destruct feats as [|f feats]; [done|].
  rewrite saved_cons, fmap_cons, not_elem_of_cons in *. destruct Hn as [Hne Hn].
  rewrite IH by done. by rewrite lookup_insert_ne.
Qed.

Lemma saved_last (dir : gmap string Features) (data : list item)
    (feats : list Features) (k : nat) (it : item) (f : Features) :
  data !! k = Some it → feats !! k = Some f →
  (∀ k' it', k < k' → data !! k' = Some it' → i_utt_id it' ≠ i_utt_id it) →
  saved dir data feats !! (i_utt_id it +:+ ".npy") = Some f.
Proof.
  revert dir feats k. induction data as [|it0 data IH]; intros dir feats k Hd Hf Hl;
    [done|].
  destruct feats as [|f0 feats]; [done|]. rewrite saved_cons.
  destruct k as [|k]; cbn in Hd, Hf.
  - injection Hd as ->. injection Hf as ->.
    rewrite saved_other; [apply lookup_insert_eq|].
    intros (it' & Heq & [k' Hk']%list_elem_of_lookup)%list_elem_of_fmap.
    apply str_app_inj_r in Heq. by apply (Hl (S k') it'); [lia| |].
  - apply (IH _ _ k); [done|done|].
    intros k' it' Hlt Hk'. apply (Hl (S k') it'); [lia|done].
Qed.

(** X17.  When every window decodes and extracts, the extraction loop
    returns the feature directory with one file [utt_id.npy] per utterance
    id: the array of an utterance is the one stored under its id unless a
    later utterance has the same id, in which case the later array has
    replaced it.  With pairwise distinct ids no array is lost; files under
    other names are left as they were. *)
Theorem extracted_arrays_by_id (g : bool) (cap : Z) (feature_root : string)
    (data : list item) (feats : list Features)
    (dir : gmap string Features) (gl : list Features) (st : state) :
  dataset_features w data = Some feats →
  ∃ dir' gl' st',
    for_dataset w (extract_item w g cap feature_root) (dir, gl) data st
    = (Ok (dir', gl'), st')
    ∧ (∀ k it f,
         data !! k = Some it → feats !! k = Some f →
         (∀ k' it', k < k' → data !! k' = Some it' → i_utt_id it' ≠ i_utt_id it) →
         dir' !! (i_utt_id it +:+ ".npy") = Some f)
    ∧ (NoDup (i_utt_id <$> data) →
       ∀ k it f, data !! k = Some it → feats !! k = Some f →
                 dir' !! (i_utt_id it +:+ ".npy") = Some f)
    ∧ (∀ name, name ∉ (λ it, i_utt_id it +:+ ".npy") <$> data →
               dir' !! name = dir !! name).
Proof.
  intros Hf. eexists _, _, _. split; [by apply extract_loop|].
  split; [|split].
  - intros k it f. apply saved_last.
  - intros Hnd k it f Hd Hk. apply (saved_last _ _ _ k); [done|done|].
    intros k' it' Hlt Hk' Heq.
    assert (k = k'); [|lia].
    apply (NoDup_lookup (i_utt_id <$> data) k k' (i_utt_id it) Hnd);
      rewrite list_lookup_fmap.
    + by rewrite Hd.
    + rewrite Hk'. cbn. by rewrite Heq.
  - intros name. apply saved_other.
Qed.

End ExtractionMore.

(* ===================================================================== *)
(** * The manifest pass on a stale archive *)
(* ===================================================================== *)

Section ManifestMore.
Context {Waveform Features Stats : Type}.
Variable w : @World Waveform Features Stats.
Abbreviation state := (@state Features Stats).
Abbreviation M := (@M Features Stats).

(** X15.  An archive index without the id of an utterance makes the
    manifest pass raise [KeyError] for that id at the first such utterance,
    after its window has been decoded.  The exception leaves the pass: no
    manifest of the split is saved and no file is changed. *)
Theorem missing_index_entry_raises (args : Args) (lang out : string)
    (zm : gmap string string) (texts : list string * list string)
    (split : string) (st st1 : state)
    (before after : list item) (it : item) (es : list entry) (wv : Waveform) :
  MUSTC_init w (a_data_root args) lang split st
    = (Ok (before ++ it :: after), st1) →
  dataset_entries w zm before = Some es →
  w_get_waveform w (i_wav_path it) (i_n_frames it) (i_offset it) = Some wv →
  zm !! i_utt_id it = None →
  manifest_split w args lang out zm texts split st
  = (Raise (KeyError (i_utt_id it)),
     log ((λ it, EGetWaveform (i_wav_path it) (i_n_frames it) (i_offset it))
            <$> (before ++ [it])) st1).
Proof.
  intros Hi He Hw Hz. destruct texts as [ta ts]. unfold manifest_split.
  erewrite bind_ok by exact Hi. apply bind_raise.
  unfold for_dataset. rewrite foldM_app.
  pose proof (manifest_loop w zm before es (Manifest [] [] [] [] []) [] [] st1 He) as Hl.
  unfold for_dataset in Hl. rewrite Hl. cbn [foldM].
  apply bind_raise. erewrite bind_ok by (by apply getitem_eq).
  unfold manifest_item. rewrite Hz. cbn [lift_opt].
  rewrite bind_eq. cbn [raise]. rewrite log_log, fmap_app. reflexivity.
Qed.

End ManifestMore.

(* ===================================================================== *)
(** * The constructor does not depend on the state *)
(* ===================================================================== *)

Section StatelessFacts.
Context {Waveform Features Stats : Type}.
Variable w : @World Waveform Features Stats.
Abbreviation M := (@M Features Stats).
Abbreviation state := (@state Features Stats).

Lemma log_nil (s : state) : log [] s = s.
Proof. unfold log. rewrite app_nil_r. by destruct s. Qed.

Lemma stateless_ret {A} (a : A) : stateless (mret a : M A).
Proof. exists (Ok a), []. intros s. by rewrite log_nil. Qed.

Lemma stateless_raise {A} (e : exn) : stateless (raise e : M A).
Proof. exists (Raise e), []. intros s. by rewrite log_nil. Qed.

Lemma stateless_emit (e : event) : stateless (emit e : M unit).
Proof. by exists (Ok tt), [e]. Qed.

Lemma stateless_lift_opt {A} (o : option A) (e : exn) :
  stateless (lift_opt o e : M A).
Proof. destruct o; [apply stateless_ret|apply stateless_raise]. Qed.

Lemma stateless_assert (b : bool) : stateless (assert_ b : M unit).
Proof. destruct b; [apply stateless_ret|apply stateless_raise]. Qed.

Lemma stateless_bind {A B} (m : M A) (f : A → M B) :
  stateless m → (∀ a, stateless (f a)) → stateless (m ≫= f).
Proof.
  intros ([a|e] & d & Hm) Hf.
  - destruct (Hf a) as (r & d' & Hfa). exists r, (d ++ d'). intros s.
    by rewrite bind_eq, Hm, Hfa, log_log.
  - exists (Raise e), d. intros s. by rewrite bind_eq, Hm.
Qed.

Lemma stateless_foldM {A S} (body : S → A → M S) (l : list A) (s0 : S) :
  (∀ s x, stateless (body s x)) → stateless (foldM body s0 l).
Proof.
  intros Hb. revert s0. induction l as [|x l IH]; intros s0; simpl.
  - apply stateless_ret.
  - apply stateless_bind; [apply Hb|]. intros s1. apply IH.
Qed.

(** The constructor gives the same outcome from every state. *)
Lemma stateless_MUSTC_init (root lang split : string) :
  stateless (MUSTC_init w root lang split).
Proof.
  unfold MUSTC_init, is_dir, and_then, open_yaml, open_lines.
  repeat first
    [ apply stateless_ret | apply stateless_raise | apply stateless_emit
    | apply stateless_lift_opt | apply stateless_assert
    | apply stateless_bind; [|intros ?]
    | apply stateless_foldM; intros ? ?
    | match goal with
      | |- stateless (if ?b then _ else _) => destruct b
      | |- stateless (match ?x with _ => _ end) => destruct x
      | |- stateless (gather_group _ _ _ _) =>
          unfold gather_group, sf_info_samplerate
      | |- stateless (gather_segment _ _ _ _) => unfold gather_segment
      end ].
Qed.

Lemma MUSTC_init_from (root lang split : string) (s0 : state) (data : list item) :
  fst (MUSTC_init w root lang split s0) = Ok data →
  ∃ d, ∀ s, MUSTC_init w root lang split s = (Ok data, log d s).
Proof.
  destruct (stateless_MUSTC_init root lang split) as (r & d & H).
  rewrite H. cbn. intros ->. by exists d.
Qed.

End StatelessFacts.

(* ===================================================================== *)
(** * The output files are pairwise distinct *)
(* ===================================================================== *)

Section OutputPaths.







Lemma model_path_head (args : Args) (out : string) (t : task) :
  ∃ rest, model_path args out t = out </> String "s" rest.
Proof.
  unfold model_path, spm_prefix_for, PyPath.join. eexists.
  rewrite !str_app_assoc. reflexivity.
Qed.





End OutputPaths.

(* ===================================================================== *)
(** * A run on an existing archive *)
(* ===================================================================== *)

Section ArchiveRun.
Context {Waveform Features Stats : Type}.
Variable w : @World Waveform Features Stats.
Abbreviation M := (@M Features Stats).
Abbreviation state := (@state Features Stats).


Variables (args : Args) (lang out : string) (zm : gmap string string).
Variables (datasets : string → list item) (entries : string → list entry).
Hypothesis Hinit : ∀ split, split ∈ SPLITS →
  ∃ d, ∀ s, MUSTC_init w (a_data_root args) lang split s
            = (Ok (datasets split), log d s).
Hypothesis Hent : ∀ split, split ∈ SPLITS →
  dataset_entries w zm (datasets split) = Some (entries split).





End ArchiveRun.

Section ArchiveRunTheorem.
Context {Waveform Features Stats : Type}.
Variable w : @World Waveform Features Stats.
Abbreviation state := (@state Features Stats).


End ArchiveRunTheorem.

(* ===================================================================== *)
(** * The languages of a run *)
(* ===================================================================== *)

Section Languages.
Context {Waveform Features Stats : Type}.
Variable w : @World Waveform Features Stats.
Abbreviation state := (@state Features Stats).

Lemma outputs_under (args : Args) (out p : string) :
  p ∈ outputs args out → ∃ name, p = out </> name.
Proof.
  unfold outputs. rewrite !elem_of_app, !elem_of_cons.
  intros [[->|[->|Hn]]|[Hm|Hv]]; [by eexists|by eexists|by apply elem_of_nil in Hn| |].
  - apply list_elem_of_bind in Hm as (split & Hm & _).
    apply list_elem_of_bind in Hm as (t & ->%list_elem_of_singleton & _).
    by eexists.
  - apply list_elem_of_bind in Hv as (t & Hv & _).
    apply elem_of_cons in Hv as [->|Hv]; cycle 1.
    { apply list_elem_of_singleton in Hv as ->. by eexists. }
    destruct (model_path_head args out t) as [rest ->]. by eexists.
Qed.

Lemma language_dirs_differ (base lang lang' n n' : string) :
  lang ∈ LANGUAGES → lang' ∈ LANGUAGES →
  base </> ("en-" +:+ lang) </> n = base </> ("en-" +:+ lang') </> n' →
  lang = lang'.
Proof.
  unfold LANGUAGES, PyPath.join. intros Hl Hl'. rewrite !str_app_assoc.
  intros H%String.app_inj.
  repeat (apply elem_of_cons in Hl as [->|Hl]);
    try (by apply elem_of_nil in Hl);
    repeat (apply elem_of_cons in Hl' as [->|Hl']);
    try (by apply elem_of_nil in Hl'); done.
Qed.

(** X19.  Processing one language changes no output file of another
    language of [LANGUAGES]: the languages of a run cannot overwrite each
    other's statistics, archive, manifests, models or configurations. *)
Theorem languages_do_not_interfere (args : Args) (root lang lang' : string)
    (s0 : state) (p : string) :
  world_ok w →
  lang ∈ LANGUAGES → lang' ∈ LANGUAGES → lang ≠ lang' →
  p ∈ outputs args (output_root_of w args root lang') →
  files (snd (process_lang w args root lang s0)) !! p = files s0 !! p.
Proof.
  intros Hw Hl Hl' Hne Hp.
  destruct (confined_process_lang w args root lang Hw s0) as (_ & _ & _ & Hk).
  apply Hk. intros Hin.
  apply outputs_under in Hp as [n' ->]. apply outputs_under in Hin as [n Hn].
  apply Hne. symmetry. revert Hn. unfold output_root_of.
  destruct (a_output args); by apply language_dirs_differ.
Qed.

End Languages.

(* ===================================================================== *)
(** * The packed archive *)
(* ===================================================================== *)

Section PackedArchive.
Context {Waveform Features Stats : Type}.
Variable w : @World Waveform Features Stats.
Abbreviation state := (@state Features Stats).

(** The extraction pass over splits that load and whose windows all decode
    and extract. *)
Lemma extraction_loop_saves (args : Args) (root lang out feature_root : string)
    (datasets : string → list item) (feats : string → list Features)
    (l : list string) (dir : gmap string Features) (s : state) :
  (∀ split, split ∈ l →
     (∃ d, ∀ s, MUSTC_init w root lang split s = (Ok (datasets split), log d s))
     ∧ dataset_features w (datasets split) = Some (feats split)) →
  ("train" ∈ l → a_cmvn_type args = cmvn_global →
   is_Some (w_cal_gcmvn_stats w
              (sample_after true (a_gcmvn_max_num args) [] (feats "train")))) →
  ∃ s',
    foldM (extract_split w args root lang out feature_root) dir l s
    = (Ok (foldl (λ dir split, saved dir (datasets split) (feats split)) dir l), s').
Proof.
  revert dir s. induction l as [|split l IH]; intros dir s Hl Hstats.
  - by exists s.
  - destruct (Hl split ltac:(left)) as [[d Hd] Hf].
    cbn [foldM foldl].
    pose proof (extract_split_eq w args root lang out feature_root split dir s _ _ _
                  (Hd _) Hf) as He.
    destruct (bool_decide (split = "train")
              && bool_decide (a_cmvn_type args = cmvn_global)) eqn:Hg.
    + apply andb_true_iff in Hg as [->%bool_decide_eq_true Hc%bool_decide_eq_true].
      destruct (Hstats ltac:(left) Hc) as [stats Hs]. cbv zeta in He.
      rewrite Hs in He. erewrite bind_ok by exact He.
      apply IH; [intros ? ?; apply Hl; by right|].
      intros ? ?. apply Hstats; [by right|done].
    + erewrite bind_ok by exact He.
      apply IH; [intros ? ?; apply Hl; by right|].
      intros ? ?. apply Hstats; [by right|done].
Qed.

(** X20.  Started without the archive, on a corpus whose four splits load
    and whose windows all decode and extract, [process_lang] packs one
    archive with the arrays of all four splits, saved split after split
    under [utt_id.npy].  The archive stays as packed whatever the outcome
    of the manifest and vocabulary stages that follow. *)
Theorem extraction_packs_every_split (args : Args) (root lang : string) (s0 : state)
    (datasets : string → list item) (feats : string → list Features) :
  let zip := zip_path_of w args root lang in
  let run := process_lang w args root lang s0 in
  w_is_dir w (root </> ("en-" +:+ lang)) = true →
  files s0 !! zip = None →
  (∀ split, split ∈ SPLITS →
     fst (MUSTC_init w root lang split s0) = Ok (datasets split)
     ∧ dataset_features w (datasets split) = Some (feats split)) →
  (a_cmvn_type args = cmvn_global →
   is_Some (w_cal_gcmvn_stats w
              (sample_after true (a_gcmvn_max_num args) [] (feats "train")))) →
  files (snd run) !! zip
  = Some (AZip (foldl (λ dir split, saved dir (datasets split) (feats split))
                      ∅ SPLITS)).
Proof.
  intros zip run Hd Hz Hdata Hstats. subst run.
  rewrite (process_lang_archive_absent w args root lang s0 Hd Hz).
  fold zip.
  destruct (extraction_loop_saves args root lang (output_root_of w args root lang)
              (w_absolute w (w_tmpdir w) </> "fbank80") datasets feats SPLITS ∅
              (log [EIsDir (root </> ("en-" +:+ lang)); EExists zip] s0))
    as [s3 H3].
  { intros split Hs. destruct (Hdata split Hs) as [Hi Hf]. split; [|done].
    by apply (MUSTC_init_from w _ _ _ s0). }
  { intros _. exact Hstats. }
  rewrite H3.
  destruct (quiet_after_index w args lang (output_root_of w args root lang)
              (w_zip_index w zip
                 (foldl (λ dir split, saved dir (datasets split) (feats split))
                        ∅ SPLITS))
              (State (<[zip := AZip (foldl (λ dir split,
                                             saved dir (datasets split) (feats split))
                                          ∅ SPLITS)]> (files s3))
                     (trace s3 ++ [EPrint "ZIPing features...";
                        ECreateZip (w_absolute w (w_tmpdir w) </> "fbank80") zip;
                        EPrint "Fetching ZIP manifest..."; EGetZipManifest zip])))
    as (_ & _ & _ & Hk).
  unfold manifest_and_vocab. etrans; [exact Hk|]. cbn [files].
  apply lookup_insert_eq.
Qed.

End PackedArchive.

(* ===================================================================== *)
(** * Offsets written with the same number of digits *)
(* ===================================================================== *)

Section DecimalOrder.
Import PyFloat.

Lemma digit_of_range (c : ascii) (d : Z) : digit_of c = Some d → (0 ≤ d ≤ 9)%Z.
Proof.
  unfold digit_of. destruct (_ && _) eqn:H; [|done]. intros [= <-].
  apply andb_true_iff in H as [H1%Z.leb_le H2%Z.leb_le]. lia.
Qed.

Lemma digit_of_eq (c : ascii) (d : Z) :
  digit_of c = Some d → d = (Z.of_N (N_of_ascii c) - 48)%Z.
Proof.
  unfold digit_of. destruct (_ && _); [|done]. intros [= <-].
  unfold nat_of_ascii. by rewrite N_nat_Z.
Qed.

Lemma digit_compare (c1 c2 : ascii) (d1 d2 : Z) :
  digit_of c1 = Some d1 → digit_of c2 = Some d2 →
  match Ascii.compare c1 c2 with
  | Lt => (d1 < d2)%Z
  | Eq => c1 = c2
  | Gt => (d2 < d1)%Z
  end.
Proof.
  intros ->%digit_of_eq ->%digit_of_eq. unfold Ascii.compare.
  destruct (N.compare_spec (N_of_ascii c1) (N_of_ascii c2)) as [H|H|H].
  - apply (f_equal ascii_of_N) in H. by rewrite !ascii_N_embedding in H.
  - lia.
  - lia.
Qed.

Lemma default_digit (c : ascii) (d : Z) :
  digit_of c = Some d → default 0%Z (digit_of c) = d.
Proof. by intros ->. Qed.

Lemma pow10_pos (n : nat) : (0 < 10 ^ Z.of_nat n)%Z.
Proof. apply Z.pow_pos_nonneg; lia. Qed.

Lemma pow10_succ (n : nat) : (10 ^ Z.of_nat (S n) = 10 * 10 ^ Z.of_nat n)%Z.
Proof. rewrite Nat2Z.inj_succ, Z.pow_succ_r by lia. done. Qed.

Lemma digits_val_bound (s : string) :
  all_digits s = true → (0 ≤ digits_val s < 10 ^ Z.of_nat (String.length s))%Z.
Proof.
  induction s as [|c s IH]; [done|]. cbn [all_digits digits_val String.length].
  intros [Hc Hs]%andb_true_iff. apply bool_decide_eq_true in Hc as [d Hd].
  rewrite (default_digit c d Hd). pose proof (digit_of_range c d Hd).
  specialize (IH Hs). rewrite pow10_succ. pose proof (pow10_pos (String.length s)).
  set (P := (10 ^ Z.of_nat (String.length s))%Z) in *. clearbody P. nia.
Qed.

Lemma digits_value_spec (s : string) (acc : Z) :
  all_digits s = true →
  digits_value acc s
  = Some (acc * 10 ^ Z.of_nat (String.length s) + digits_val s)%Z.
Proof.
  revert acc. induction s as [|c s IH]; intros acc.
  - intros _. cbn. f_equal. lia.
  - cbn [all_digits digits_value digits_val String.length].
    intros [Hc Hs]%andb_true_iff. apply bool_decide_eq_true in Hc as [d Hd].
    rewrite (default_digit c d Hd), Hd. rewrite IH by done. f_equal.
    rewrite pow10_succ. lia.
Qed.

Lemma frac_val_nil : (frac_val "" == 0)%Q.
Proof. reflexivity. Qed.

Lemma frac_val_cons (c : ascii) (s : string) :
  (frac_val (String c s)
   == (inject_Z (default 0%Z (digit_of c)) + frac_val s) / 10)%Q.
Proof.
  unfold frac_val. cbn [digits_val String.length]. rewrite pow10_succ.
  pose proof (pow10_pos (String.length s)) as Hp.
  rewrite inject_Z_plus, !inject_Z_mult. change (inject_Z 10) with 10%Q.
  field. intros E. unfold Qeq in E. cbn [Qnum Qden inject_Z] in E. lia.
Qed.

Lemma frac_val_range (s : string) :
  all_digits s = true → (0 <= frac_val s)%Q ∧ (frac_val s < 1)%Q.
Proof.
  intros H. pose proof (digits_val_bound s H) as [H0 H1].
  pose proof (pow10_pos (String.length s)) as Hp. unfold frac_val.
  assert (Hq : (0 < inject_Z (10 ^ Z.of_nat (String.length s)))%Q).
  { change 0%Q with (inject_Z 0). by rewrite <- Zlt_Qlt. }
  split.
  - apply Qle_shift_div_l; [done|]. rewrite Qmult_0_l.
    change 0%Q with (inject_Z 0). by rewrite <- Zle_Qle.
  - apply Qlt_shift_div_r; [done|]. rewrite Qmult_1_l. by rewrite <- Zlt_Qlt.
Qed.

(** The order of text on the digits behind the point is the order of the
    fractions they write. *)
Lemma frac_order (s1 s2 : string) :
  all_digits s1 = true → all_digits s2 = true →
  String.compare s1 s2 ≠ Gt → (frac_val s1 <= frac_val s2)%Q.
Proof.
  revert s2. induction s1 as [|c1 s1 IH]; intros s2 H1 H2 Hc.
  - rewrite frac_val_nil. by apply frac_val_range.
  - destruct s2 as [|c2 s2]; [done|].
    cbn [all_digits] in H1, H2.
    apply andb_true_iff in H1 as [[d1 Hd1]%bool_decide_eq_true H1].
    apply andb_true_iff in H2 as [[d2 Hd2]%bool_decide_eq_true H2].
    rewrite !frac_val_cons, (default_digit c1 d1 Hd1), (default_digit c2 d2 Hd2).
    pose proof (frac_val_range s1 H1) as [A0 A1].
    pose proof (frac_val_range s2 H2) as [B0 B1].
    pose proof (digit_compare c1 c2 d1 d2 Hd1 Hd2) as Hd.
    cbn [String.compare] in Hc.
    assert (Hle : (inject_Z d1 + frac_val s1 <= inject_Z d2 + frac_val s2)%Q).
    { destruct (Ascii.compare c1 c2); [| |done].
      - subst c2. rewrite Hd1 in Hd2. injection Hd2 as <-.
        specialize (IH s2 H1 H2 Hc). lra.
      - assert (inject_Z d1 + 1 <= inject_Z d2)%Q.
        { change 1%Q with (inject_Z 1). rewrite <- inject_Z_plus, <- Zle_Qle. lia. }
        lra. }
    apply Qmult_le_compat_r; [exact Hle|discriminate].
Qed.

Lemma plain_val_range (n : nat) (s : string) :
  plain_decimal n s = true →
  (0 <= plain_val n s)%Q ∧ (plain_val n s < inject_Z (10 ^ Z.of_nat n))%Q.
Proof.
  revert s. induction n as [|n IH]; intros s H.
  - destruct s as [|c s]; cbn [plain_val]; [split; [apply Qle_refl|reflexivity]|].
    cbn [plain_decimal] in H. apply andb_true_iff in H as [_ H].
    by apply frac_val_range.
  - destruct s as [|c s]; [done|]. cbn [plain_decimal plain_val] in *.
    apply andb_true_iff in H as [[d Hd]%bool_decide_eq_true H].
    rewrite (default_digit c d Hd). destruct (IH s H) as [I0 I1].
    pose proof (digit_of_range c d Hd) as Hr.
    pose proof (pow10_pos n) as Hp. rewrite pow10_succ.
    assert (H0 : (0 <= inject_Z (d * 10 ^ Z.of_nat n))%Q).
    { change 0%Q with (inject_Z 0). rewrite <- Zle_Qle. nia. }
    assert (H9 : (inject_Z (d * 10 ^ Z.of_nat n) + inject_Z (10 ^ Z.of_nat n)
                  <= inject_Z (10 * 10 ^ Z.of_nat n))%Q).
    { rewrite <- inject_Z_plus, <- Zle_Qle. nia. }
    split; lra.
Qed.

(** For plain decimal texts with the same number of digits before the
    point, the order of text is the order of the numbers written. *)
Lemma plain_order (n : nat) (s1 s2 : string) :
  plain_decimal n s1 = true → plain_decimal n s2 = true →
  String.compare s1 s2 ≠ Gt → (plain_val n s1 <= plain_val n s2)%Q.
Proof.
  revert s1 s2. induction n as [|n IH]; intros s1 s2 H1 H2 Hc.
  - destruct s1 as [|c1 s1]; cbn [plain_val].
    + destruct s2 as [|c2 s2]; [apply Qle_refl|].
      cbn [plain_decimal] in H2. apply andb_true_iff in H2 as [_ H2].
      by apply frac_val_range.
    + destruct s2 as [|c2 s2]; [done|]. cbn [plain_decimal] in H1, H2.
      apply andb_true_iff in H1 as [E1%Ascii.eqb_eq H1].
      apply andb_true_iff in H2 as [E2%Ascii.eqb_eq H2]. subst c1 c2.
      cbn [String.compare] in Hc.
      change (Ascii.compare "." ".") with Eq in Hc. by apply frac_order.
  - destruct s1 as [|c1 s1]; [done|]. destruct s2 as [|c2 s2]; [done|].
    cbn [plain_decimal plain_val] in *.
    apply andb_true_iff in H1 as [[d1 Hd1]%bool_decide_eq_true H1].
    apply andb_true_iff in H2 as [[d2 Hd2]%bool_decide_eq_true H2].
    rewrite (default_digit c1 d1 Hd1), (default_digit c2 d2 Hd2).
    pose proof (digit_compare c1 c2 d1 d2 Hd1 Hd2) as Hd.
    cbn [String.compare] in Hc.
    destruct (plain_val_range n s1 H1) as [A0 A1].
    destruct (plain_val_range n s2 H2) as [B0 B1].
    destruct (Ascii.compare c1 c2); [| |done].
    + subst c2. rewrite Hd1 in Hd2. injection Hd2 as <-.
      specialize (IH s1 s2 H1 H2 Hc). lra.
    + assert (inject_Z (d1 * 10 ^ Z.of_nat n) + inject_Z (10 ^ Z.of_nat n)
              <= inject_Z (d2 * 10 ^ Z.of_nat n))%Q.
      { rewrite <- inject_Z_plus, <- Zle_Qle. pose proof (pow10_pos n). nia. }
      lra.
Qed.

End DecimalOrder.

Section DecimalValue.
Import PyFloat.

Lemma digit_not_point (c : ascii) (d : Z) :
  digit_of c = Some d → Ascii.eqb c "." = false.
Proof.
  intros H. apply Ascii.eqb_neq. intros ->. by cbv in H.
Qed.

Lemma split_dot_plain (n : nat) (s : string) :
  plain_decimal n s = true →
  ∃ ip fpo,
    split_dot s = (ip, fpo)
    ∧ String.length ip = n
    ∧ all_digits ip = true
    ∧ all_digits (default EmptyString fpo) = true
    ∧ (plain_val n s
       == inject_Z (digits_val ip) + frac_val (default EmptyString fpo))%Q.
Proof.
  revert s. induction n as [|n IH]; intros s H.
  - destruct s as [|c s]; [by exists EmptyString, None|].
    cbn [plain_decimal] in H. apply andb_true_iff in H as [E H].
    exists EmptyString, (Some s). cbn [split_dot]. rewrite E.
    repeat (split; [done|]). cbn [plain_val default digits_val].
    change (inject_Z 0) with 0%Q. by rewrite Qplus_0_l.
  - destruct s as [|c s]; [done|]. cbn [plain_decimal] in H.
    apply andb_true_iff in H as [[d Hd]%bool_decide_eq_true H].
    destruct (IH s H) as (ip & fpo & Hs & Hl & Hip & Hfp & Hv).
    exists (String c ip), fpo. cbn [split_dot].
    rewrite (digit_not_point c d Hd), Hs.
    split; [done|]. split; [by cbn; rewrite Hl|].
    split; [cbn [all_digits]; rewrite Hip, andb_true_r;
            apply bool_decide_eq_true; by exists d|].
    split; [done|].
    cbn [plain_val digits_val]. rewrite Hv, Hl, inject_Z_plus. ring.
Qed.

Lemma decimal_unsigned (c : ascii) (s : string) (d : Z) :
  digit_of c = Some d → decimal (String c s) = unsigned_decimal (String c s).
Proof.
  intros H.
  destruct c as [[|] [|] [|] [|] [|] [|] [|] [|]]; try reflexivity;
    by cbv in H.
Qed.

(** A plain decimal text with at least one digit before the point is
    accepted by [float] and denotes the number it writes. *)
Lemma plain_decimal_value (n : nat) (s : string) :
  1 ≤ n → plain_decimal n s = true →
  ∃ v, decimal s = Some v ∧ (v == plain_val n s)%Q.
Proof.
  intros Hn H.
  destruct (split_dot_plain n s H) as (ip & fpo & Hs & Hl & Hip & Hfp & Hv).
  destruct n as [|n]; [lia|]. destruct s as [|c s]; [done|].
  pose proof H as H'. cbn [plain_decimal] in H'.
  apply andb_true_iff in H' as [[d Hd]%bool_decide_eq_true _].
  rewrite (decimal_unsigned c s d Hd). unfold unsigned_decimal. rewrite Hs.
  set (fp := default EmptyString fpo) in *.
  assert ((String.length ip + String.length fp =? 0)%nat = false) as ->.
  { apply Nat.eqb_neq. lia. }
  rewrite !digits_value_spec by done. eexists. split; [done|].
  rewrite Qred_correct, Hv. unfold frac_val.
  pose proof (pow10_pos (String.length fp)) as Hp.
  rewrite inject_Z_plus, inject_Z_mult, Z.mul_0_l, Z.add_0_l, Z.add_0_l.
  field. intros E. unfold Qeq in E. cbn [Qnum Qden inject_Z] in E. lia.
Qed.

Lemma seconds_to_samples_mono (s1 s2 : string) (v1 v2 : Q) (sr : Z) :
  decimal s1 = Some v1 → decimal s2 = Some v2 → (v1 <= v2)%Q → (0 ≤ sr)%Z →
  ∃ n1 n2, seconds_to_samples s1 sr = Some n1
           ∧ seconds_to_samples s2 sr = Some n2 ∧ (n1 ≤ n2)%Z.
Proof.
  intros H1 H2 Hle Hsr.
  rewrite (FramingFacts.seconds_to_samples_eq _ _ _ H1),
    (FramingFacts.seconds_to_samples_eq _ _ _ H2).
  eexists _, _. split; [done|]. split; [done|].
  apply RoundingFacts.to_int_mono, RoundingFacts.mul_mono_l.
  - apply RoundingFacts.round53_nonneg, (FloatFacts.inject_Z_le 0). lia.
  - by apply FloatFacts.round53_mono.
Qed.

(** For plain decimal texts with the same number of digits before the
    point, the order of text carries over to the sample counts. *)
Lemma plain_samples_order (n : nat) (s1 s2 : string) (sr n1 n2 : Z) :
  1 ≤ n → plain_decimal n s1 = true → plain_decimal n s2 = true →
  (s1 ≤ s2)%string → (0 ≤ sr)%Z →
  seconds_to_samples s1 sr = Some n1 → seconds_to_samples s2 sr = Some n2 →
  (n1 ≤ n2)%Z.
Proof.
  intros Hn P1 P2 Hle Hsr E1 E2.
  destruct (plain_decimal_value n s1 Hn P1) as (v1 & D1 & V1).
  destruct (plain_decimal_value n s2 Hn P2) as (v2 & D2 & V2).
  destruct (seconds_to_samples_mono s1 s2 v1 v2 sr D1 D2) as (m1 & m2 & F1 & F2 & Hm).
  - rewrite V1, V2. apply plain_order; [done|done|].
    unfold String.le, String.leb in Hle. by destruct (String.compare s1 s2).
  - done.
  - rewrite E1 in F1. rewrite E2 in F2. by injection F1 as <-; injection F2 as <-.
Qed.

End DecimalValue.

Section AscendingRuns.
Context {Waveform Features Stats : Type}.
Variable w : @World Waveform Features Stats.
Abbreviation state := (@state Features Stats).

Lemma merged_segments_offsets (ys : list yaml_segment) (ens tgts : list string)
    (P : string → Prop) :
  Forall (λ y, P (y_offset y)) ys →
  Forall (λ sg, P (offset sg)) (merged_segments ys ens tgts).
Proof.
  intros Hy. unfold merged_segments. apply Forall_forall.
  intros sg [i Hi]%list_elem_of_lookup.
  apply lookup_zip_with_Some in Hi as ([y e] & t & -> & Hye & _).
  apply lookup_zip_Some in Hye as [Hyi _]. cbn in *.
  rewrite Forall_forall in Hy. apply Hy. by eapply list_elem_of_lookup_2.
Qed.

Lemma sorted_images {A B} (R : A → A → Prop) (S : B → B → Prop)
    (rel : A → B → Prop) (l : list A) (k : list B) :
  (∀ a1 a2 b1 b2, a1 ∈ l → a2 ∈ l → R a1 a2 → rel a1 b1 → rel a2 b2 → S b1 b2) →
  StronglySorted R l → Forall2 rel l k → StronglySorted S k.
Proof.
  intros HS Hl Hf. revert HS Hl.
  induction Hf as [|a b l k Hab Hf IH]; intros HS Hl; [constructor|].
  apply StronglySorted_inv in Hl as [Hl Ha]. constructor.
  - apply IH; [|done]. intros a1 a2 b1 b2 H1 H2. apply HS; by right.
  - clear IH. rewrite Forall_forall in Ha.
    apply Forall_forall. intros b' [i Hi]%list_elem_of_lookup.
    destruct (Forall2_lookup_r _ _ _ _ _ Hf Hi) as (a' & Ha' & Hr).
    apply list_elem_of_lookup_2 in Ha'.
    apply (HS a a' b b'); [left|by right|by apply Ha|done|done].
Qed.

(** X21.  In a split whose offset texts are all plain decimals with the
    same number of digits before the point, and whose sample rates are not
    negative, the entries of every run of consecutive records of one
    recording are numbered in the order of their offsets: the ids
    [stem_0], [stem_1], ... go with non-decreasing sample offsets. *)
Theorem same_width_offsets_ascend (n : nat) (root lang split : string)
    (st st' : state) (data : list item)
    (ys : list yaml_segment) (ens tgts : list string) :
  let _root := root </> ("en-" +:+ lang) </> "data" </> split in
  MUSTC_init w root lang split st = (Ok data, st') →
  w_yaml w (_root </> "txt" </> (split +:+ ".yaml")) = Some ys →
  w_lines w (_root </> "txt" </> (split +:+ ".en")) = Some ens →
  w_lines w (_root </> "txt" </> (split +:+ "." +:+ lang)) = Some tgts →
  1 ≤ n →
  Forall (λ y, plain_decimal n (y_offset y) = true) ys →
  (∀ p rate, w_samplerate w p = Some rate → (0 ≤ rate)%Z) →
  ∃ runs,
    data = concat runs
    ∧ Forall2 (λ kg run,
                 i_utt_id <$> run
                 = (λ i, PyPath.stem (_root </> "wav" </> kg.1) +:+ "_" +:+ pretty i)
                     <$> seq 0 (length kg.2)
                 ∧ StronglySorted Z.le (i_offset <$> run))
              (PyIter.groupby wav (merged_segments ys ens tgts)) runs.
Proof.
  intros _root Hinit Hy He Ht Hn Hplain Hrate.
  destruct (MUSTC_init_inv w _ _ _ _ _ _ Hinit)
    as (_ & _ & _ & _ & _ & ys' & ens' & tgts' & Hy' & He' & Ht' & _ & _ & Hf).
  fold _root in Hy', He', Ht', Hf.
  rewrite Hy in Hy'. rewrite He in He'. rewrite Ht in Ht'.
  injection Hy' as <-. injection He' as <-. injection Ht' as <-.
  apply (gather_groups_inv w) in Hf as (_ & news & Hn' & ->). cbn [app].
  exists news. split; [done|].
  pose proof (groupby_groups wav (merged_segments ys ens tgts)) as Hg.
  assert (Hpl : Forall (λ kg : string * list segment,
                          Forall (λ sg, plain_decimal n (offset sg) = true) kg.2)
                       (PyIter.groupby wav (merged_segments ys ens tgts))).
  { pose proof (merged_segments_offsets ys ens tgts
                  (λ s, plain_decimal n s = true) Hplain) as Hm.
    rewrite <- (groupby_concat wav (merged_segments ys ens tgts)) in Hm.
    revert Hm. generalize (PyIter.groupby wav (merged_segments ys ens tgts)).
    intros groups. induction groups as [|kg groups IH]; [constructor|].
    cbn [fmap list_fmap concat]. intros [H1 H2]%Forall_app.
    constructor; [done|by apply IH]. }
  clear Hinit. revert Hg Hpl.
  induction Hn' as [|kg new groups news Hnew _ IH]; intros Hg Hpl;
    [constructor|].
  apply Forall_cons in Hg as [[_ Hk] Hg]. apply Forall_cons in Hpl as [Hp Hpl].
  constructor; [|by apply IH].
  destruct (group_items_built w _ kg new Hk Hnew) as [Hb Hids].
  split; [exact Hids|].
  assert (Hsorted : StronglySorted Z.le (i_offset <$> new)); [|done].
  apply (sorted_images (λ a b, (offset a ≤ offset b)%string) Z.le
           (λ sg o, ∃ it, built_from w (_root </> "wav") sg it ∧ o = i_offset it)
           (PyIter.sorted offset kg.2)).
  - intros a1 a2 o1 o2 H1 H2 Hle (it1 & B1 & ->) (it2 & B2 & ->).
    rewrite sorted_perm in H1, H2.
    rewrite Forall_forall in Hp, Hk.
    destruct B1 as (P1 & R1 & O1 & _). destruct B2 as (P2 & R2 & O2 & _).
    rewrite P1, (Hk a1 H1) in R1. rewrite P2, (Hk a2 H2) in R2.
    rewrite R1 in R2. injection R2 as R2. rewrite <- R2 in O2.
    apply (plain_samples_order n (offset a1) (offset a2) (i_sample_rate it1));
      [done|by apply Hp|by apply Hp|done| |done|done].
    by apply (Hrate _ _ R1).
  - apply sorted_ordered.
  - apply Forall2_fmap_r. eapply Forall2_impl; [exact Hb|].
    intros sg it Hsg. by exists it.
Qed.

End AscendingRuns.

(* ===================================================================== *)
(** * Runs on concrete corpora *)
(* ===================================================================== *)

Lemma fixture_world_ok root rate corpus lo hi :
  world_ok (Fixture.world root rate corpus lo hi).
Proof. split; intros l _; reflexivity. Qed.

(** C1 on a recording with segments at 9.5 s and 10.5 s, listed in that
    order.  The sort key is the offset text, and ["10.5" < "9.5"] as text:
    the segment that starts later is numbered 0 and the one that starts
    earlier is numbered 1. *)
Theorem C1_later_segment_numbered_first :
  PyStr.lt "10.5" "9.5" = true
  ∧ fst (MUSTC_init Fixture.late_world "/c" "de" "train" Fixture.empty_state)
    = Ok [Item "/c/en-de/data/train/wav/ted_1.wav" 168000 16000 16000
               "second" "zweite" "spk.1" "ted_1_0";
          Item "/c/en-de/data/train/wav/ted_1.wav" 152000 16000 16000
               "first" "erste" "spk.1" "ted_1_1"].
Proof. split; by vm_compute. Qed.

(** Records of one recording that are not adjacent in the alignment file
    form separate groups, each numbered from 0. *)
Example interleaved_recording_restarts_numbering :
  i_utt_id <$>
    match fst (MUSTC_init Fixture.interleaved_world "/c" "de" "train"
                          Fixture.empty_state) with
    | Ok data => data
    | Raise _ => []
    end
  = ["ted_1_0"; "ted_2_0"; "ted_1_0"].
Proof. by vm_compute. Qed.

(** The claim of C2 fails below 25 ms: ten milliseconds give 0 frames, the
    floor formula gives -1. *)
Lemma C2_floor_formula_fails_below_window :
  n_frames_of_ms 10 = 0%Z ∧ (1 + (10 - 25) / 10)%Z = (-1)%Z
  ∧ n_frames_of_ms 10 ≠ (1 + (10 - 25) / 10)%Z.
Proof. split; [by vm_compute|]. split; [by vm_compute|]. by vm_compute. Qed.

Lemma C2_frame_count_witness :
  n_frames_of_ms 40 = Z.quot (40 - 15) 10
  ∧ ((15 ≤ 40)%Z → n_frames_of_ms 40 = (1 + (40 - 25) / 10)%Z)
  ∧ n_frames_of_ms 1000 = 98%Z.
Proof. apply (C2_frame_count_rounds_toward_zero 40). simpl. lia. Defined.

Lemma C3_statistics_sample_witness :
  let w := Fixture.scenario_world in
  let feats := [(24000, 16000); (32000, 16000); (16000, 16000)]%Z in
  let sample := [(24000, 16000); (32000, 16000)]%Z in
  Z.of_nat (length (take (Z.to_nat 2) feats)) = Z.min (Z.of_nat (length feats)) 2
  ∧ fst (extract_split w (Fixture.global_args 2) "/c" "de" "/c/en-de"
                       "/tmp/tmpdir/fbank80" ∅ "train" Fixture.empty_state)
    = Ok (saved ∅ Fixture.scenario_items feats)
  ∧ files (snd (extract_split w (Fixture.global_args 2) "/c" "de" "/c/en-de"
                              "/tmp/tmpdir/fbank80" ∅ "train" Fixture.empty_state))
      !! "/c/en-de/gcmvn.npz" = Some (ANpz sample).
Proof.
  intros w feats sample.
  destruct (C3_statistics_sample_is_capped w (Fixture.global_args 2)
              "/c" "de" "/c/en-de" "/tmp/tmpdir/fbank80" "train" ∅
              Fixture.empty_state
              (log [EPrint "Fetching split train...";
                    EIsDir "/c/en-de/data/train";
                    EIsDir "/c/en-de/data/train/wav";
                    EIsDir "/c/en-de/data/train/txt";
                    EOpen "/c/en-de/data/train/txt/train.yaml";
                    EOpen "/c/en-de/data/train/txt/train.en";
                    EOpen "/c/en-de/data/train/txt/train.de";
                    ESfInfo "/c/en-de/data/train/wav/ted_1.wav"]
                   Fixture.empty_state)
              Fixture.scenario_items feats)
    as (_ & Hmin & _ & Htrain & _).
  - simpl. lia.
  - vm_compute. reflexivity.
  - reflexivity.
  - split; [exact Hmin|].
    rewrite (Htrain eq_refl eq_refl sample eq_refl).
    split; [reflexivity|]. cbn [snd files]. apply lookup_insert_eq.
Defined.

(** The claim of C4 fails on a run over German, whose training transcript
    has one line for two segments, and Japanese, which is complete and
    would be processed on its own: the run ends with the assertion error of
    German, and the Japanese directory is never looked at. *)
Lemma C4_run_does_not_continue :
  let run langs :=
    process Fixture.two_lang_world (Fixture.args_for langs [asr; st])
            Fixture.empty_state in
  fst (run ["ja"]) = Ok tt
  ∧ fst (run ["de"; "ja"]) = Raise AssertionError
  ∧ ¬ (EIsDir "/c/en-ja" ∈ trace (snd (run ["de"; "ja"])))
  ∧ files (snd (run ["de"; "ja"])) = ∅.
Proof.
  cbv zeta. split; [by vm_compute|]. split; [by vm_compute|].
  split; [|by vm_compute].
  apply (bool_decide_unpack _). by vm_compute.
Qed.

Lemma C4_integrity_failure_witness :
  let w := Fixture.two_lang_world in
  let args := Fixture.args_for ["zh"; "de"; "ja"] [asr; st] in
  process_lang w args "/c" "zh" Fixture.empty_state
  = (Ok tt, log [EIsDir "/c/en-zh"; EPrint "/c/en-zh does not exist. Skipped."]
                Fixture.empty_state)
  ∧ process w args Fixture.empty_state
    = (Raise AssertionError,
       log [EIsDir "/c/en-zh"; EPrint "/c/en-zh does not exist. Skipped.";
            EIsDir "/c/en-de"; EExists "/c/en-de/fbank80.zip";
            EPrint "Fetching split train..."; EIsDir "/c/en-de/data/train";
            EIsDir "/c/en-de/data/train/wav"; EIsDir "/c/en-de/data/train/txt";
            EOpen "/c/en-de/data/train/txt/train.yaml";
            EOpen "/c/en-de/data/train/txt/train.en"]
           Fixture.empty_state).
Proof.
  intros w args.
  destruct (C4_integrity_failure_aborts_run w args) as (Hskip & Hraise & Habort).
  split.
  - apply Hskip. reflexivity.
  - apply (Habort _ (log [EIsDir "/c/en-zh";
                          EPrint "/c/en-zh does not exist. Skipped."]
                         Fixture.empty_state) _ ["zh"] "de" ["ja"]).
    + reflexivity.
    + vm_compute. reflexivity.
    + eapply (Hraise _ _ _ _ _ [] "train" ["dev"; "tst-COMMON"; "tst-HE"] ∅).
      * reflexivity.
      * reflexivity.
      * reflexivity.
      * reflexivity.
      * vm_compute. reflexivity.
Defined.

Lemma C5_existing_archive_witness :
  let run := process_lang Fixture.two_lang_world (Fixture.args_for ["ja"] [asr; st])
                          "/c" "ja" Fixture.archived_state in
  ∃ d,
    trace (snd run)
    = trace Fixture.archived_state
      ++ [EIsDir "/c/en-ja"; EExists "/c/en-ja/fbank80.zip";
          EPrint "Fetching ZIP manifest..."; EGetZipManifest "/c/en-ja/fbank80.zip"]
      ++ d
    ∧ Forall (λ e, extraction_event e = false) d
    ∧ files (snd run) !! "/c/en-ja/fbank80.zip" = Some (AZip Fixture.ja_members).
Proof.
  apply (C5_existing_archive_skips_extraction Fixture.two_lang_world
           (Fixture.args_for ["ja"] [asr; st]) "/c" "ja" Fixture.archived_state
           (AZip Fixture.ja_members)); reflexivity.
Defined.

(** The claim of C6 fails on the decimal 2.01 at 16000 Hz: the product of
    the nearest double with 16000 rounds below 32160. *)
Lemma C6_floor_formula_fails_on_decimal :
  PyFloat.decimal "2.01" = Some (201 # 100)%Q
  ∧ seconds_to_samples "2.01" 16000 = Some 32159%Z
  ∧ Qfloor ((201 # 100) * inject_Z 16000) = 32160%Z.
Proof. split; [by vm_compute|]. split; by vm_compute. Qed.

Lemma C6_sample_window_witness :
  seconds_to_samples "1.5" 16000 = Some (Qfloor ((3 # 2) * inject_Z 16000))
  ∧ fst (MUSTC_init Fixture.scenario_world "/c" "de" "train" Fixture.empty_state)
    = Ok Fixture.scenario_items.
Proof.
  destruct C6_sample_window as [Hexact Hscenario]. split.
  - apply (Hexact "1.5" 16000%Z (3 # 2)%Q 3%Z 1%Z).
    + reflexivity.
    + lia.
    + lia.
    + reflexivity.
    + lia.
    + simpl. lia.
  - apply (Hscenario Z (Z * Z)%type (list (Z * Z)) Fixture.scenario_world
             "/c" "de" "train" "ted_1.wav" "spk.1" "spk.1" "spk.1"
             "one" "two" "three" "eins" "zwei" "drei" Fixture.empty_state).
    + by apply (bool_decide_unpack _).
    + by apply (bool_decide_unpack _).
    + reflexivity.
    + reflexivity.
    + reflexivity.
    + reflexivity.
    + reflexivity.
    + reflexivity.
    + reflexivity.
Defined.

Lemma C7_length_filter_witness :
  let w := Fixture.lopsided_world in
  let args := Fixture.global_args 2 in
  ∃ texts' s' written,
    manifest_split w args "de" "/c/en-de" (Fixture.lopsided_index "dev") ([], [])
                   "dev" Fixture.empty_state = (Ok texts', s')
    ∧ files s' !! tsv_path "/c/en-de" "dev" st = Some (ATsv written)
    ∧ ("dev" ≠ "train" → written = row_of st <$> [Fixture.lopsided_entry "dev"])
    ∧ ("dev" = "train" →
       written = List.filter (λ r, negb (fails_length_filter w r))
                             (row_of st <$> [Fixture.lopsided_entry "dev"]))
    ∧ (∀ e, e ∈ [Fixture.lopsided_entry "dev"] →
       fails_length_filter w (row_of st e) = true →
       (row_of st e ∈ written ↔ "dev" ≠ "train")).
Proof.
  intros w args.
  eapply (C7_length_filter_only_for_train w args "de" "/c/en-de"
            (Fixture.lopsided_index "dev") ([], []) "dev" Fixture.empty_state
            _ [Fixture.lopsided_item "dev"] [Fixture.lopsided_entry "dev"] st).
  - apply fixture_world_ok.
  - by apply (bool_decide_unpack _).
  - by apply (bool_decide_unpack _).
  - vm_compute. reflexivity.
  - vm_compute. reflexivity.
Defined.

Lemma C8_invalid_argument_witness :
  MUSTC_init Fixture.scenario_world "/c" "fr" "train" Fixture.empty_state
  = (Raise AssertionError, Fixture.empty_state).
Proof.
  apply (C8_invalid_argument_before_io Fixture.scenario_world).
  right. by apply (bool_decide_unpack _).
Defined.

(** The claim of C9 fails on the training split: with both tasks requested,
    the utterance whose English text is long and whose German text is one
    character is kept in the [asr] manifest and dropped from the [st]
    manifest, while the dev manifests both keep it. *)
Lemma C9_train_manifests_differ :
  let fs := files (snd (process Fixture.lopsided_world (Fixture.global_args 2)
                                Fixture.empty_state)) in
  fs !! "/c/en-de/train_asr.tsv"
  = Some (ATsv [row_of asr (Fixture.lopsided_entry "train")])
  ∧ fs !! "/c/en-de/train_st.tsv" = Some (ATsv [])
  ∧ fs !! "/c/en-de/dev_asr.tsv"
    = Some (ATsv [row_of asr (Fixture.lopsided_entry "dev")])
  ∧ fs !! "/c/en-de/dev_st.tsv"
    = Some (ATsv [row_of st (Fixture.lopsided_entry "dev")]).
Proof. cbv zeta. repeat split; by vm_compute. Qed.

Lemma C9_manifests_witness :
  let w := Fixture.lopsided_world in
  let args := Fixture.global_args 2 in
  let es := [Fixture.lopsided_entry "train"] in
  ∃ texts' s' rows_asr rows_st,
    manifest_split w args "de" "/c/en-de" (Fixture.lopsided_index "train")
                   ([], []) "train" Fixture.empty_state = (Ok texts', s')
    ∧ files s' !! tsv_path "/c/en-de" "train" asr = Some (ATsv rows_asr)
    ∧ files s' !! tsv_path "/c/en-de" "train" st = Some (ATsv rows_st)
    ∧ ("train" = "train" →
       rows_asr = List.filter (λ r, negb (fails_length_filter w r)) (row_of asr <$> es)
       ∧ rows_st = List.filter (λ r, negb (fails_length_filter w r)) (row_of st <$> es))
    ∧ ("train" ≠ "train" →
       r_id <$> rows_asr = r_id <$> rows_st
       ∧ r_audio <$> rows_asr = r_audio <$> rows_st
       ∧ r_n_frames <$> rows_asr = r_n_frames <$> rows_st
       ∧ r_speaker <$> rows_asr = r_speaker <$> rows_st
       ∧ r_tgt_text <$> rows_asr = e_src <$> es
       ∧ r_tgt_text <$> rows_st = e_tgt <$> es).
Proof.
  intros w args es.
  eapply (C9_manifests_of_one_split w args "de" "/c/en-de"
            (Fixture.lopsided_index "train") ([], []) "train" Fixture.empty_state
            _ [Fixture.lopsided_item "train"] es).
  - apply fixture_world_ok.
  - by apply (bool_decide_unpack _).
  - by apply (bool_decide_unpack _).
  - by apply (bool_decide_unpack _).
  - vm_compute. reflexivity.
  - vm_compute. reflexivity.
Defined.

Lemma C10_duplicate_arguments_witness :
  let w := Fixture.two_lang_world in
  process w (Fixture.args_for ["ja"; "zh"; "ja"] [st; asr; st]) Fixture.empty_state
  = process w (Fixture.args_for ["ja"; "zh"] [st; asr]) Fixture.empty_state
  ∧ NoDup (set_langs w ["ja"; "zh"; "ja"])
  ∧ NoDup (set_tasks w [st; asr; st])
  ∧ NoDup ((λ t, ESaveTsv (tsv_path "/c/en-ja" "dev" t))
             <$> set_tasks w [st; asr; st]).
Proof.
  intros w.
  destruct (C10_duplicate_arguments_have_no_effect w
              (Fixture.args_for ["ja"; "zh"; "ja"] [st; asr; st])
              Fixture.empty_state (fixture_world_ok _ _ _ _ _))
    as (Heq & Hl & _ & Ht & _ & _ & Hs & _).
  split; [exact Heq|]. split; [exact Hl|]. split; [exact Ht|].
  exact (Hs "/c/en-ja" "dev").
Defined.

Lemma MUSTC_len_witness :
  length Fixture.scenario_items = length (Fixture.sf_yaml Fixture.scenario_train)
  ∧ ∃ ens tgts,
      w_lines Fixture.scenario_world "/c/en-de/data/train/txt/train.en" = Some ens
      ∧ w_lines Fixture.scenario_world "/c/en-de/data/train/txt/train.de" = Some tgts
      ∧ length ens = length (Fixture.sf_yaml Fixture.scenario_train)
      ∧ length tgts = length (Fixture.sf_yaml Fixture.scenario_train).
Proof.
  eapply (MUSTC_len_is_record_count Fixture.scenario_world "/c" "de" "train"
            Fixture.empty_state).
  - vm_compute. reflexivity.
  - reflexivity.
Defined.

Lemma MUSTC_init_reads_only_witness :
  let run := MUSTC_init Fixture.interleaved_world "/c" "de" "train"
                        Fixture.empty_state in
  files (snd run) = ∅
  ∧ trace (snd run)
    = [EIsDir "/c/en-de/data/train"; EIsDir "/c/en-de/data/train/wav";
       EIsDir "/c/en-de/data/train/txt";
       EOpen "/c/en-de/data/train/txt/train.yaml";
       EOpen "/c/en-de/data/train/txt/train.en";
       EOpen "/c/en-de/data/train/txt/train.de";
       ESfInfo "/c/en-de/data/train/wav/ted_1.wav";
       ESfInfo "/c/en-de/data/train/wav/ted_2.wav";
       ESfInfo "/c/en-de/data/train/wav/ted_1.wav"].
Proof.
  cbv zeta.
  eapply (MUSTC_init_reads_only Fixture.interleaved_world "/c" "de" "train"
            Fixture.empty_state _ _ (Fixture.sf_yaml Fixture.interleaved_train)
            (Fixture.sf_en Fixture.interleaved_train)
            (Fixture.sf_tgt Fixture.interleaved_train)).
  - vm_compute. reflexivity.
  - reflexivity.
  - reflexivity.
  - reflexivity.
Defined.

Lemma MUSTC_init_rearranges_witness :
  ∃ segs,
    Permutation segs
      (merged_segments (Fixture.sf_yaml Fixture.late_train)
         (Fixture.sf_en Fixture.late_train) (Fixture.sf_tgt Fixture.late_train))
    ∧ Forall2 (built_from Fixture.late_world "/c/en-de/data/train/wav") segs
        [Item "/c/en-de/data/train/wav/ted_1.wav" 168000 16000 16000
              "second" "zweite" "spk.1" "ted_1_0";
         Item "/c/en-de/data/train/wav/ted_1.wav" 152000 16000 16000
              "first" "erste" "spk.1" "ted_1_1"].
Proof.
  eapply (MUSTC_init_rearranges_records Fixture.late_world "/c" "de" "train"
            Fixture.empty_state).
  - vm_compute. reflexivity.
  - reflexivity.
  - reflexivity.
  - reflexivity.
Defined.

Lemma MUSTC_ids_distinct_witness :
  NoDup ["ted_1_0"; "ted_2_0"; "ted_1_0"]
  ↔ NoDup (group_stems "/c/en-de/data/train/wav"
             (merged_segments (Fixture.sf_yaml Fixture.interleaved_train)
                (Fixture.sf_en Fixture.interleaved_train)
                (Fixture.sf_tgt Fixture.interleaved_train))).
Proof.
  eapply (MUSTC_ids_distinct_iff Fixture.interleaved_world "/c" "de" "train"
            Fixture.empty_state _
            [Item "/c/en-de/data/train/wav/ted_1.wav" 0 16000 16000
                  "a" "A" "spk.1" "ted_1_0";
             Item "/c/en-de/data/train/wav/ted_2.wav" 0 16000 16000
                  "b" "B" "spk.1" "ted_2_0";
             Item "/c/en-de/data/train/wav/ted_1.wav" 32000 16000 16000
                  "c" "C" "spk.1" "ted_1_0"]).
  - vm_compute. reflexivity.
  - reflexivity.
  - reflexivity.
  - reflexivity.
Defined.

Lemma MUSTC_init_missing_directory_witness :
  MUSTC_init Fixture.scenario_world "/c" "de" "dev" Fixture.empty_state
  = (Raise AssertionError, log [EIsDir "/c/en-de/data/dev"] Fixture.empty_state).
Proof.
  apply (MUSTC_init_missing_directory Fixture.scenario_world "/c" "de" "dev"
           Fixture.empty_state).
  - by apply (bool_decide_unpack _).
  - by apply (bool_decide_unpack _).
  - reflexivity.
Defined.

Lemma MUSTC_init_count_mismatch_witness :
  MUSTC_init Fixture.two_lang_world "/c" "de" "train" Fixture.empty_state
  = (Raise AssertionError,
     log [EIsDir "/c/en-de/data/train"; EIsDir "/c/en-de/data/train/wav";
          EIsDir "/c/en-de/data/train/txt";
          EOpen "/c/en-de/data/train/txt/train.yaml";
          EOpen "/c/en-de/data/train/txt/train.en"] Fixture.empty_state).
Proof.
  refine (proj1 (MUSTC_init_count_mismatch Fixture.two_lang_world "/c" "de" "train"
                   Fixture.empty_state (Fixture.sf_yaml Fixture.mismatched_train)
                   (Fixture.sf_en Fixture.mismatched_train) _ _ _ _ _ _ _) _).
  - by apply (bool_decide_unpack _).
  - by apply (bool_decide_unpack _).
  - reflexivity.
  - reflexivity.
  - reflexivity.
  - reflexivity.
  - reflexivity.
  - simpl. lia.
Defined.

Lemma seconds_to_samples_within_one_witness :
  ∃ n, seconds_to_samples "2.01" 16000 = Some n
       ∧ (0 ≤ n)%Z
       ∧ (Qfloor ((201 # 100) * inject_Z 16000) - 1 ≤ n
          ≤ Qfloor ((201 # 100) * inject_Z 16000) + 1)%Z.
Proof.
  apply (seconds_to_samples_within_one "2.01" 16000 (201 # 100)).
  - reflexivity.
  - discriminate.
  - simpl. lia.
  - discriminate.
Defined.

Lemma duration_ms_within_one_witness :
  ∃ d, duration_ms 24001 16000 = Some d
       ∧ (0 ≤ d)%Z
       ∧ (1000 * 24001 / 16000 - 1 ≤ d ≤ 1000 * 24001 / 16000 + 1)%Z.
Proof. apply (duration_ms_within_one 24001 16000); simpl; lia. Defined.

Lemma whole_seconds_frames_witness :
  duration_ms (3 * 44100) 44100 = Some (1000 * 3)%Z
  ∧ n_frames_of_ms (1000 * 3) = (if (3 =? 0)%Z then -1 else 100 * 3 - 2)%Z.
Proof. apply (whole_seconds_frames 3 44100); simpl; lia. Defined.

Lemma frames_monotone_witness :
  ∃ d d', duration_ms 16000 16000 = Some d
          ∧ duration_ms 24000 16000 = Some d'
          ∧ (d ≤ d')%Z
          ∧ (n_frames_of_ms d ≤ n_frames_of_ms d')%Z.
Proof. apply (frames_monotone 16000 24000 16000); lia. Defined.

Lemma archive_exists_iff_packed_witness :
  let run := process_lang Fixture.two_lang_world (Fixture.args_for ["de"] [asr; st])
                          "/c" "de" Fixture.empty_state in
  ∃ d,
    trace (snd run) = trace Fixture.empty_state ++ d
    ∧ ((∃ src dst, ECreateZip src dst ∈ d)
       ↔ is_Some (files (snd run) !! "/c/en-de/fbank80.zip"))
    ∧ (fst run = Ok tt → is_Some (files (snd run) !! "/c/en-de/fbank80.zip"))
    ∧ (files (snd run) !! "/c/en-de/fbank80.zip" = None →
       ∀ p, p ≠ "/c/en-de/gcmvn.npz" →
            files (snd run) !! p = files Fixture.empty_state !! p).
Proof.
  apply (archive_exists_iff_packed Fixture.two_lang_world
           (Fixture.args_for ["de"] [asr; st]) "/c" "de" Fixture.empty_state).
  - apply fixture_world_ok.
  - reflexivity.
  - reflexivity.
Defined.

Lemma rerun_extracts_nothing_witness :
  let w := Fixture.lopsided_world in
  let first := process_lang w (Fixture.global_args 2) "/c" "de" Fixture.empty_state in
  ∃ d,
    trace (snd (process_lang w (Fixture.global_args 2) "/c" "de" (snd first)))
    = trace (snd first) ++ d
    ∧ Forall (λ e, extraction_event e = false) d.
Proof.
  intros w first.
  apply (rerun_extracts_nothing w (Fixture.global_args 2) "/c" "de"
           Fixture.empty_state (snd first)).
  vm_compute. reflexivity.
Defined.

Lemma process_writes_only_outputs_witness :
  files (snd (process Fixture.lopsided_world (Fixture.global_args 2)
                      Fixture.empty_state))
    !! "/c/en-de/data/train/txt/train.yaml"
  = files Fixture.empty_state !! "/c/en-de/data/train/txt/train.yaml".
Proof.
  apply (process_writes_only_outputs Fixture.lopsided_world (Fixture.global_args 2)
           Fixture.empty_state).
  - apply fixture_world_ok.
  - apply (bool_decide_unpack _). vm_compute. reflexivity.
Defined.

Lemma extraction_stops_witness :
  for_dataset Fixture.short_recording_world
    (extract_item Fixture.short_recording_world false 0 "/tmp/tmpdir/fbank80")
    (∅, []) Fixture.scenario_items Fixture.empty_state
  = (Raise (SoundFileError "/c/en-de/data/train/wav/ted_1.wav"),
     log [EGetWaveform "/c/en-de/data/train/wav/ted_1.wav" 24000 0;
          EExtractFbank 16000; ENpSave "/tmp/tmpdir/fbank80/ted_1_0.npy";
          EGetWaveform "/c/en-de/data/train/wav/ted_1.wav" 32000 32000;
          EExtractFbank 16000; ENpSave "/tmp/tmpdir/fbank80/ted_1_1.npy";
          EGetWaveform "/c/en-de/data/train/wav/ted_1.wav" 16000 80000]
         Fixture.empty_state).
Proof.
  apply (extraction_stops_at_undecodable Fixture.short_recording_world false 0
           "/tmp/tmpdir/fbank80"
           [Item "/c/en-de/data/train/wav/ted_1.wav" 0 24000 16000
                 "one" "eins" "spk.1" "ted_1_0";
            Item "/c/en-de/data/train/wav/ted_1.wav" 32000 32000 16000
                 "two" "zwei" "spk.1" "ted_1_1"]
           [] (Item "/c/en-de/data/train/wav/ted_1.wav" 80000 16000 16000
                    "three" "drei" "spk.1" "ted_1_2")
           [(24000, 16000); (32000, 16000)]%Z).
  - reflexivity.
  - reflexivity.
Defined.

Lemma missing_index_entry_witness :
  manifest_split Fixture.lopsided_world (Fixture.global_args 2) "de" "/c/en-de"
                 ∅ ([], []) "dev" Fixture.empty_state
  = (Raise (KeyError "dev_1_0"),
     log [EIsDir "/c/en-de/data/dev"; EIsDir "/c/en-de/data/dev/wav";
          EIsDir "/c/en-de/data/dev/txt"; EOpen "/c/en-de/data/dev/txt/dev.yaml";
          EOpen "/c/en-de/data/dev/txt/dev.en"; EOpen "/c/en-de/data/dev/txt/dev.de";
          ESfInfo "/c/en-de/data/dev/wav/dev_1.wav";
          EGetWaveform "/c/en-de/data/dev/wav/dev_1.wav" 16000 0]
         Fixture.empty_state).
Proof.
  apply (missing_index_entry_raises Fixture.lopsided_world (Fixture.global_args 2)
           "de" "/c/en-de" ∅ ([], []) "dev" Fixture.empty_state
           (log [EIsDir "/c/en-de/data/dev"; EIsDir "/c/en-de/data/dev/wav";
                 EIsDir "/c/en-de/data/dev/txt";
                 EOpen "/c/en-de/data/dev/txt/dev.yaml";
                 EOpen "/c/en-de/data/dev/txt/dev.en";
                 EOpen "/c/en-de/data/dev/txt/dev.de";
                 ESfInfo "/c/en-de/data/dev/wav/dev_1.wav"] Fixture.empty_state)
           [] [] (Fixture.lopsided_item "dev") [] 16000%Z).
  - vm_compute. reflexivity.
  - reflexivity.
  - reflexivity.
  - reflexivity.
Defined.


Lemma extracted_arrays_witness :
  let w := Fixture.scenario_world in
  let feats := [(24000, 16000); (32000, 16000); (16000, 16000)]%Z in
  ∃ dir' gl' st',
    for_dataset w (extract_item w false 0 "/tmp/tmpdir/fbank80") (∅, [])
                Fixture.scenario_items Fixture.empty_state
    = (Ok (dir', gl'), st')
    ∧ (∀ k it f,
         Fixture.scenario_items !! k = Some it → feats !! k = Some f →
         (∀ k' it', k < k' → Fixture.scenario_items !! k' = Some it' →
                    i_utt_id it' ≠ i_utt_id it) →
         dir' !! (i_utt_id it +:+ ".npy") = Some f)
    ∧ (NoDup (i_utt_id <$> Fixture.scenario_items) →
       ∀ k it f, Fixture.scenario_items !! k = Some it → feats !! k = Some f →
                 dir' !! (i_utt_id it +:+ ".npy") = Some f)
    ∧ (∀ name, name ∉ (λ it, i_utt_id it +:+ ".npy") <$> Fixture.scenario_items →
               dir' !! name = (∅ : gmap string (Z * Z)) !! name).
Proof.
  intros w feats.
  apply (extracted_arrays_by_id w false 0 "/tmp/tmpdir/fbank80"
           Fixture.scenario_items feats ∅ [] Fixture.empty_state).
  reflexivity.
Defined.

Lemma MUSTC_transcripts_are_stripped_witness :
  Forall (λ it,
            (∃ e, e ∈ Fixture.sf_en Fixture.scenario_train
                  ∧ i_src_utt it = PyStr.strip e)
            ∧ (∃ t, t ∈ Fixture.sf_tgt Fixture.scenario_train
                    ∧ i_tgt_utt it = PyStr.strip t)
            ∧ ∀ u, u = i_src_utt it ∨ u = i_tgt_utt it →
                   PyStr.strip u = u
                   ∧ PyStr.lstrip u = u
                   ∧ PyStr.lstrip (String.rev u) = String.rev u)
         Fixture.scenario_items.
Proof.
  eapply (MUSTC_transcripts_are_stripped Fixture.scenario_world "/c" "de" "train"
            Fixture.empty_state).
  - vm_compute. reflexivity.
  - reflexivity.
  - reflexivity.
Defined.

Lemma languages_do_not_interfere_witness :
  files (snd (process_lang Fixture.two_lang_world
                (Fixture.args_for ["de"; "ja"] [asr; st]) "/c" "ja"
                Fixture.archived_state))
    !! "/c/en-de/fbank80.zip"
  = files Fixture.archived_state !! "/c/en-de/fbank80.zip".
Proof.
  apply (languages_do_not_interfere Fixture.two_lang_world
           (Fixture.args_for ["de"; "ja"] [asr; st]) "/c" "ja" "de"
           Fixture.archived_state).
  - apply fixture_world_ok.
  - by apply (bool_decide_unpack _).
  - by apply (bool_decide_unpack _).
  - done.
  - apply (bool_decide_unpack _). vm_compute. reflexivity.
Defined.

Lemma extraction_packs_every_split_witness :
  files (snd (process_lang Fixture.lopsided_world (Fixture.global_args 2) "/c" "de"
                           Fixture.empty_state))
    !! "/c/en-de/fbank80.zip"
  = Some (AZip (foldl (λ dir split,
                         saved dir [Fixture.lopsided_item split] [(16000, 16000)%Z])
                      ∅ SPLITS)).
Proof.
  apply (extraction_packs_every_split Fixture.lopsided_world (Fixture.global_args 2)
           "/c" "de" Fixture.empty_state (λ split, [Fixture.lopsided_item split])
           (λ _, [(16000, 16000)%Z])).
  - reflexivity.
  - reflexivity.
  - unfold SPLITS. intros split Hs.
    repeat (apply elem_of_cons in Hs as [->|Hs]; [split; by vm_compute|]).
    by apply elem_of_nil in Hs.
  - intros _. by eexists.
Defined.

Lemma same_width_offsets_ascend_witness :
  ∃ runs,
    [Item "/c/en-de/data/train/wav/ted_1.wav" 36000 16000 16000
          "first" "erste" "spk.1" "ted_1_0";
     Item "/c/en-de/data/train/wav/ted_1.wav" 120000 16000 16000
          "second" "zweite" "spk.1" "ted_1_1";
     Item "/c/en-de/data/train/wav/ted_1.wav" 192000 16000 16000
          "third" "dritte" "spk.1" "ted_1_2"] = concat runs
    ∧ Forall2 (λ kg run,
                 i_utt_id <$> run
                 = (λ i, PyPath.stem ("/c" </> ("en-" +:+ "de") </> "data" </> "train"
                                        </> "wav" </> kg.1) +:+ "_" +:+ pretty i)
                     <$> seq 0 (length kg.2)
                 ∧ StronglySorted Z.le (i_offset <$> run))
              (PyIter.groupby wav
                 (merged_segments (Fixture.sf_yaml Fixture.padded_train)
                    (Fixture.sf_en Fixture.padded_train)
                    (Fixture.sf_tgt Fixture.padded_train))) runs.
Proof.
  eapply (same_width_offsets_ascend Fixture.padded_world 2 "/c" "de" "train"
            Fixture.empty_state).
  - vm_compute. reflexivity.
  - reflexivity.
  - reflexivity.
  - reflexivity.
  - lia.
  - repeat constructor.
  - intros p rate [= <-]. lia.
Defined.
